(** * Starscape: a shallow embedding of [starscape.py]

    The script populates a Blender session with a star field: a point
    cloud on the unit sphere, a template triangle instanced on every
    point, an emission material driven by three node groups, and the
    constraints and drivers that tie the field to the scene camera.

    The embedding follows the script function by function.  The Blender
    session ([bpy.data], [bpy.context]) and the hidden generator of
    Python's [random] module are an explicit state record threaded
    through a state-and-exception monad; datablocks are referred to by
    handles (positions in their registry), so that two names bound to the
    same datablock alias as they do in Python.

    Number types: the two float properties of the parameter bundle are
    rationals (every finite double is one); the arithmetic that leads
    to the point count rounds as binary64 does (see [round_double]), so
    that the count is the one Python computes.  Coordinates, socket
    values and node arithmetic are real numbers. *)

From Stdlib Require Import Reals Lra Lia Psatz ZArith QArith Qround Qpower Qabs.
From Stdlib Require Import List String Ascii Bool.
Import ListNotations.

Local Open Scope string_scope.

(** ** Python built-ins used by the script *)

(** [round(x)] on a float: nearest integer, ties to the even neighbour. *)
Definition py_round (x : Q) : Z :=
  let f := Qfloor x in
  match Qcompare (x - inject_Z f) (1 # 2) with
  | Lt => f
  | Gt => (f + 1)%Z
  | Eq => if Z.even f then f else (f + 1)%Z
  end.

(** Arithmetic on floats.  A float is the rational it denotes; the
    result of an operation is the exact result rounded to the nearest
    number with 53 significant bits, ties to the even significand, as
    binary64 does.  The range of the exponent is left out: a binary64
    operation overflows to infinity beyond [1.8e308] and loses bits
    below [2.3e-308]; the count of the script stays the same under the
    second ([round] gives 0 on both sides), and under the first
    [round] raises for densities beyond [1.8e305].

    [binade x] is the exponent [e] with [2 ^ e <= |x| < 2 ^ (e + 1)],
    for [x] other than 0. *)
Definition binade (x : Q) : Z :=
  let e := (Z.log2 (Z.abs (Qnum x)) - Z.log2 (Zpos (Qden x)))%Z in
  if Qle_bool (2 ^ e) (Qabs x) then e else (e - 1)%Z.

Definition round_double (x : Q) : Q :=
  if Qeq_bool x 0 then 0%Q
  else
    let ulp := (2 ^ (binade x - 52))%Q in
    (inject_Z (py_round (x / ulp)) * ulp)%Q.

(** [a * b] and [a / b] on floats. *)
Definition float_mul (a b : Q) : Q := round_double (a * b).

Definition float_div (a b : Q) : Q := round_double (a / b).

(** [len(range(n))] for an integer [n]: negative bounds give no iteration. *)
Definition range_len (n : Z) : nat := Z.to_nat n.

(** Exceptions the script or the host can raise.  [Exception] carries the
    message of the script's own [raise Exception(...)]. *)
Inductive exn : Type :=
| Exception (msg : string)
| KeyError
| IndexError
| AttributeError
| TypeError
| RuntimeError.

(** The [random] module: a hidden generator state, [random.seed(a)] and
    [random.random()].  The Mersenne Twister itself is the host's; the
    script only relies on the interface below. *)
Class PRNG : Type := {
  rng_state : Type;
  rng_seed : Z -> rng_state;
  rng_random : rng_state -> R * rng_state;
  rng_random_range : forall g, (0 <= fst (rng_random g) < 1)%R
}.

(** ** Geometry helpers *)

Definition vec3 : Type := (R * R * R)%type.

Definition spherical_to_cartesian_coordinates (radius phi theta : R) : vec3 :=
  let x := (radius * cos phi * cos theta)%R in
  let y := (radius * sin phi * cos theta)%R in
  let z := (radius * sin theta)%R in
  (x, y, z).

(** ** Control flow: state and exceptions

    A computation runs on a state and either returns a value or raises;
    the state reached when the exception is raised is kept, as in Python,
    where the mutations made before a [raise] stay. *)

Inductive outcome (A : Type) : Type :=
| Returns (a : A)
| Raises (e : exn).
Arguments Returns {A} a.
Arguments Raises {A} e.

Definition M (S A : Type) : Type := S -> outcome A * S.

Definition ret {S A : Type} (a : A) : M S A := fun s => (Returns a, s).

Definition raise {S A : Type} (e : exn) : M S A := fun s => (Raises e, s).

Definition bind {S A B : Type} (m : M S A) (k : A -> M S B) : M S B :=
  fun s =>
    match m s with
    | (Returns a, s') => k a s'
    | (Raises e, s') => (Raises e, s')
    end.

Declare Scope py_scope.
Delimit Scope py_scope with py.
Notation "x <- m ;; k" := (bind m (fun x => k))
  (at level 61, m at next level, right associativity) : py_scope.
Notation "m ;; k" := (bind m (fun _ => k))
  (at level 61, right associativity) : py_scope.
Local Open Scope py_scope.

Definition gets {S A : Type} (f : S -> A) : M S A := fun s => (Returns (f s), s).

Definition modify {S : Type} (f : S -> S) : M S unit := fun s => (Returns tt, f s).

Definition from_option {S A : Type} (e : exn) (o : option A) : M S A :=
  match o with
  | Some a => ret a
  | None => raise e
  end.

(** [try: m except KeyError: h]. *)
Definition try_except_KeyError {S A : Type} (m h : M S A) : M S A :=
  fun s =>
    match m s with
    | (Raises KeyError, s') => h s'
    | r => r
    end.

(** Running a computation on a part of the state reached through a
    reference; a dangling reference is a host error. *)
Definition zoom {S T A : Type} (get : S -> option T) (put : T -> S -> S)
    (m : M T A) : M S A :=
  fun s =>
    match get s with
    | None => (Raises RuntimeError, s)
    | Some t => let (r, t') := m t in (r, put t' s)
    end.

(** [for x in xs: body x]. *)
Fixpoint for_each {S A : Type} (xs : list A) (body : A -> M S unit) : M S unit :=
  match xs with
  | [] => ret tt
  | x :: rest => body x ;; for_each rest body
  end.

(** ** Registries

    A [bpy.data] collection is a list of datablocks; a handle is the
    position of a datablock, stable because the script never removes
    one. *)

Section Registry.
Context {A : Type}.

Fixpoint update (i : nat) (f : A -> A) (l : list A) {struct l} : list A :=
  match l, i with
  | [], _ => []
  | x :: rest, O => f x :: rest
  | x :: rest, S j => x :: update j f rest
  end.

Fixpoint index_where (p : A -> bool) (l : list A) : option nat :=
  match l with
  | [] => None
  | x :: rest => if p x then Some O else option_map S (index_where p rest)
  end.

Definition count_where (p : A -> bool) (l : list A) : nat :=
  List.length (filter p l).
End Registry.

Definition mem (x : string) (l : list string) : bool :=
  existsb (String.eqb x) l.

(** Name given by the host to a new datablock: the requested one when
    free, otherwise the first free [name.001], [name.002], ... *)
Definition digit (n : nat) : ascii := ascii_of_nat (48 + n mod 10).

Definition numeric_suffix (k : nat) : string :=
  String "." (String (digit (k / 100)) (String (digit (k / 10))
    (String (digit k) EmptyString))).

Fixpoint first_free (fuel k : nat) (taken : list string) (name : string) : string :=
  let candidate := name ++ numeric_suffix k in
  match fuel with
  | O => candidate
  | S fuel' =>
      if mem candidate taken then first_free fuel' (S k) taken name
      else candidate
  end.

Definition unique_name (taken : list string) (name : string) : string :=
  if mem name taken then first_free (List.length taken) 1 taken name else name.

(** ** Datablocks *)

Record Mesh : Type := mkMesh {
  mesh_name : string;
  vertices : list vec3;
  edges : list (nat * nat);
  faces : list (list nat)
}.

Record Camera : Type := mkCamera {
  camera_name : string;
  camera_type : string          (* "PERSP", "ORTHO", "PANO" *)
}.

(** [obj.data]. *)
Inductive ObData : Type :=
| NoData                         (* an empty: [obj.data is None] *)
| MeshData (mesh : nat)
| CameraData (cam : Camera).

Record Constraint : Type := mkConstraint {
  constraint_type : string;
  target : option nat            (* object handle *)
}.

(** [target.id] of a driver variable. *)
Inductive IdRef : Type :=
| NoId
| CameraId (cam : Camera)
| SceneId.

Record DriverVariable : Type := mkDriverVariable {
  var_name : string;
  var_type : string;
  id_type : string;
  id : IdRef;
  var_data_path : string
}.

Record FCurve : Type := mkFCurve {
  data_path : string;
  array_index : nat;
  variables : list DriverVariable;
  expression : string
}.

Record Object : Type := mkObject {
  obj_name : string;
  data : ObData;
  active_material : option nat;  (* material handle *)
  constraints : list Constraint;
  drivers : list FCurve;
  parent : option nat;
  instance_type : string;
  use_instance_vertices_rotation : bool;
  show_instancer_for_render : bool;
  hide_viewport : bool
}.

Record Socket : Type := mkSocket {
  socket_name : string;
  default_value : R;
  hide : bool
}.

Record Node : Type := mkNode {
  bl_idname : string;
  location : Z * Z;
  operation : string;
  node_tree : option nat;        (* node-group handle of a group node *)
  inputs : list Socket;
  outputs : list Socket
}.

(** A link joins output socket [from_socket] of node [from_node] to input
    socket [to_socket] of node [to_node]. *)
Record Link : Type := mkLink {
  from_node : nat;
  from_socket : nat;
  to_node : nat;
  to_socket : nat
}.

Record InterfaceSocket : Type := mkInterfaceSocket {
  item_name : string;
  in_out : string;
  socket_type : string
}.

Record NodeTree : Type := mkNodeTree {
  tree_name : string;
  nodes : list Node;
  links : list Link;
  interface : list InterfaceSocket
}.

Record Material : Type := mkMaterial {
  material_name : string;
  use_nodes : bool;
  material_tree : option NodeTree
}.

Record World : Type := mkWorld {
  world_use_nodes : bool;
  color : vec3
}.

(** ** Node trees

    The helpers of the script receive the node collection or the tree
    they work on as their first argument; here that tree is the state of
    the computation, and the caller selects it (see [on_tree] below). *)

(** A socket is looked up in [node.inputs] or [node.outputs] by position
    or by name. *)
Inductive key : Type :=
| Index (i : nat)
| Name (s : string).

(** Values passed in the variadic part of [connect_nodes]: nodes, socket
    positions (the script passes non-negative ones) and socket names. *)
Inductive pyval : Type :=
| PyNode (n : nat)
| PyInt (i : nat)
| PyStr (s : string).

Definition find_socket (k : key) (sockets : list Socket) : option nat :=
  match k with
  | Index i => if (i <? List.length sockets)%nat then Some i else None
  | Name s => index_where (fun so => socket_name so =? s) sockets
  end.

Definition lookup_error (k : key) : exn :=
  match k with
  | Index _ => IndexError
  | Name _ => KeyError
  end.

Definition float_socket (name : string) (v : R) : Socket := mkSocket name v false.

Definition plain_socket (name : string) : Socket := mkSocket name 0 false.

(** Sockets that the group interface gives to a group input node
    ([in_out = "INPUT"]), a group output node ([in_out = "OUTPUT"]) or a
    group node (both). *)
Definition interface_sockets (direction : string) (iface : list InterfaceSocket)
    : list Socket :=
  map (fun item => plain_socket (item_name item))
      (filter (fun item => in_out item =? direction) iface).

(** Sockets of the node types the script instantiates, as the host
    declares them; [nodes.new] rejects any other type name. *)
Definition node_template (iface : list InterfaceSocket) (node_type : string)
    : option Node :=
  let node := mkNode node_type (0, 0)%Z "" None in
  if node_type =? "ShaderNodeOutputMaterial" then
    Some (node (map plain_socket ["Surface"; "Volume"; "Displacement"; "Thickness"]) [])
  else if node_type =? "ShaderNodeEmission" then
    Some (node [plain_socket "Color"; float_socket "Strength" 1; float_socket "Weight" 0]
               [plain_socket "Emission"])
  else if node_type =? "ShaderNodeMath" then
    Some (mkNode node_type (0, 0)%Z "ADD" None
            [float_socket "Value" (1 / 2); float_socket "Value" (1 / 2);
             float_socket "Value" (1 / 2)]
            [float_socket "Value" 0])
  else if node_type =? "ShaderNodeLightPath" then
    Some (node [] (map plain_socket
      ["Is Camera Ray"; "Is Shadow Ray"; "Is Diffuse Ray"; "Is Glossy Ray";
       "Is Singular Ray"; "Is Reflection Ray"; "Is Transmission Ray";
       "Ray Length"; "Ray Depth"; "Diffuse Depth"; "Glossy Depth";
       "Transparent Depth"; "Transmission Depth"]))
  else if node_type =? "ShaderNodeObjectInfo" then
    Some (node [] (map plain_socket
      ["Location"; "Color"; "Alpha"; "Object Index"; "Material Index"; "Random"]))
  else if node_type =? "ShaderNodeBlackbody" then
    Some (node [float_socket "Temperature" 1500] [plain_socket "Color"])
  else if node_type =? "NodeGroupInput" then
    Some (node [] (interface_sockets "INPUT" iface))
  else if node_type =? "NodeGroupOutput" then
    Some (node (interface_sockets "OUTPUT" iface) [])
  else if node_type =? "ShaderNodeGroup" then
    Some (node [] [])
  else None.

Definition set_nodes (ns : list Node) (t : NodeTree) : NodeTree :=
  mkNodeTree (tree_name t) ns (links t) (interface t).

Definition set_links (ls : list Link) (t : NodeTree) : NodeTree :=
  mkNodeTree (tree_name t) (nodes t) ls (interface t).

Definition set_interface (iface : list InterfaceSocket) (t : NodeTree) : NodeTree :=
  mkNodeTree (tree_name t) (nodes t) (links t) iface.

Definition set_location (xy : Z * Z) (n : Node) : Node :=
  mkNode (bl_idname n) xy (operation n) (node_tree n) (inputs n) (outputs n).

Definition set_operation (op : string) (n : Node) : Node :=
  mkNode (bl_idname n) (location n) op (node_tree n) (inputs n) (outputs n).

Definition set_inputs (ss : list Socket) (n : Node) : Node :=
  mkNode (bl_idname n) (location n) (operation n) (node_tree n) ss (outputs n).

Definition set_outputs (ss : list Socket) (n : Node) : Node :=
  mkNode (bl_idname n) (location n) (operation n) (node_tree n) (inputs n) ss.

Definition set_default_value (v : R) (so : Socket) : Socket :=
  mkSocket (socket_name so) v (hide so).

Definition set_hide (b : bool) (so : Socket) : Socket :=
  mkSocket (socket_name so) (default_value so) b.

(** The operations of a math node: [node.operation] is an enum of the
    host, and assigning another name raises [TypeError]. *)
Definition node_math_operations : list string :=
  ["ADD"; "SUBTRACT"; "MULTIPLY"; "DIVIDE"; "MULTIPLY_ADD"; "POWER"; "LOGARITHM";
   "SQRT"; "INVERSE_SQRT"; "ABSOLUTE"; "EXPONENT"; "MINIMUM"; "MAXIMUM";
   "LESS_THAN"; "GREATER_THAN"; "SIGN"; "COMPARE"; "SMOOTH_MIN"; "SMOOTH_MAX";
   "ROUND"; "FLOOR"; "CEIL"; "TRUNC"; "FRACT"; "MODULO"; "FLOORED_MODULO"; "WRAP";
   "SNAP"; "PINGPONG"; "SINE"; "COSINE"; "TANGENT"; "ARCSINE"; "ARCCOSINE";
   "ARCTANGENT"; "ARCTAN2"; "SINH"; "COSH"; "TANH"; "RADIANS"; "DEGREES"].

(** The socket types the interface of a shader node tree takes:
    [socket_type] is an enum of the host too. *)
Definition interface_socket_types : list string :=
  ["NodeSocketFloat"; "NodeSocketVector"; "NodeSocketColor"; "NodeSocketShader"].

(** [nodes.new(node_type)]. *)
Definition nodes_new (node_type : string) : M NodeTree nat :=
  fun t =>
    match node_template (interface t) node_type with
    | None => (Raises RuntimeError, t)
    | Some n => (Returns (List.length (nodes t)), set_nodes (nodes t ++ [n]) t)
    end.

(** Assignment to an attribute of a node. *)
Definition node_set (node : nat) (f : Node -> Node) : M NodeTree unit :=
  modify (fun t => set_nodes (update node f (nodes t)) t).

Definition get_node (node : nat) : M NodeTree Node :=
  fun t => from_option RuntimeError (nth_error (nodes t) node) t.

(** [node.operation = op] on a math node. *)
Definition node_set_operation (node : nat) (op : string) : M NodeTree unit :=
  if mem op node_math_operations then node_set node (set_operation op)
  else raise TypeError.

(** [node.node_tree = group]: the group node takes the sockets of the
    group's interface. *)
Definition node_set_node_tree (node group : nat) (iface : list InterfaceSocket)
    : M NodeTree unit :=
  node_set node (fun n =>
    mkNode (bl_idname n) (location n) (operation n) (Some group)
           (interface_sockets "INPUT" iface) (interface_sockets "OUTPUT" iface)).

(** [node.inputs[k]] and [node.outputs[k]], as (node, position) pairs. *)
Definition node_input (node : nat) (k : key) : M NodeTree (nat * nat) :=
  n <- get_node node ;;
  i <- from_option (lookup_error k) (find_socket k (inputs n)) ;;
  ret (node, i).

Definition node_output (node : nat) (k : key) : M NodeTree (nat * nat) :=
  n <- get_node node ;;
  i <- from_option (lookup_error k) (find_socket k (outputs n)) ;;
  ret (node, i).

(** [node.inputs[k].default_value = v]. *)
Definition set_input_default (node : nat) (k : key) (v : R) : M NodeTree unit :=
  so <- node_input node k ;;
  node_set node (fun n => set_inputs (update (snd so) (set_default_value v) (inputs n)) n).

Definition link_enters (input : nat * nat) (l : Link) : bool :=
  ((to_node l =? fst input)%nat && (to_socket l =? snd input)%nat)%bool.

Definition link_leaves (output : nat * nat) (l : Link) : bool :=
  ((from_node l =? fst output)%nat && (from_socket l =? snd output)%nat)%bool.

(** [tree.links.new(input, output)]: an input socket holds one link, so
    the host drops the link that entered it before. *)
Definition links_new (input output : nat * nat) : M NodeTree unit :=
  modify (fun t =>
    set_links (filter (fun l => negb (link_enters input l)) (links t)
               ++ [mkLink (fst output) (snd output) (fst input) (snd input)]) t).

(** [nodes.clear()]: the links go with the nodes. *)
Definition nodes_clear : M NodeTree unit :=
  modify (fun t => set_links [] (set_nodes [] t)).

(** [group.interface.new_socket(name, in_out=..., socket_type=...)]: the
    group input and output nodes of the tree follow the interface. *)
Definition follow_interface (item : InterfaceSocket) (n : Node) : Node :=
  if ((bl_idname n =? "NodeGroupInput") && (in_out item =? "INPUT"))%bool then
    set_outputs (outputs n ++ [plain_socket (item_name item)]) n
  else if ((bl_idname n =? "NodeGroupOutput") && (in_out item =? "OUTPUT"))%bool then
    set_inputs (inputs n ++ [plain_socket (item_name item)]) n
  else n.

Definition interface_new_socket (name direction type : string) : M NodeTree unit :=
  if mem type interface_socket_types then
    let item := mkInterfaceSocket name direction type in
    modify (fun t =>
      set_interface (interface t ++ [item])
        (set_nodes (map (follow_interface item) (nodes t)) t))
  else raise TypeError.

(** ** Helper functions of the script (on a node tree) *)

Definition hide_node_outputs (node : nat) : M NodeTree unit :=
  n <- get_node node ;;
  for_each (seq 0 (List.length (outputs n))) (fun j =>
    is_linked <- gets (fun t => existsb (link_leaves (node, j)) (links t)) ;;
    if negb is_linked then
      node_set node (fun n => set_outputs (update j (set_hide true) (outputs n)) n)
    else ret tt).

Definition make_node (node_type : string) (x y : Z) : M NodeTree nat :=
  node <- nodes_new node_type ;;
  node_set node (set_location (x, y)) ;;
  ret node.

(** [group] is the handle of the node group, [iface] its interface at the
    time of the call. *)
Definition make_group_node (group : nat) (iface : list InterfaceSocket) (x y : Z)
    : M NodeTree nat :=
  node <- nodes_new "ShaderNodeGroup" ;;
  node_set_node_tree node group iface ;;
  node_set node (set_location (x, y)) ;;
  ret node.

(** The keyword defaults [default_1 = 0.5] and [default_2 = 0.5] are
    written out at the call sites. *)
Definition make_math_node (function : string) (x y : Z) (default_1 default_2 : R)
    : M NodeTree nat :=
  node <- nodes_new "ShaderNodeMath" ;;
  node_set_operation node function ;;
  node_set node (set_location (x, y)) ;;
  set_input_default node (Index 0) default_1 ;;
  set_input_default node (Index 1) default_2 ;;
  ret node.

Definition item {A : Type} (args : list A) (i : nat) : M NodeTree A :=
  from_option IndexError (nth_error args i).

(** [v.inputs] or [v.outputs] exists only when [v] is a node. *)
Definition as_node (v : pyval) : M NodeTree nat :=
  match v with
  | PyNode n => ret n
  | _ => raise AttributeError
  end.

(** A socket collection is subscripted by an integer or a string. *)
Definition as_key (v : pyval) : M NodeTree key :=
  match v with
  | PyInt i => ret (Index i)
  | PyStr s => ret (Name s)
  | PyNode _ => raise TypeError
  end.

(** Body of the loop of [connect_nodes] (lines 66-70).  In
    [tree.links.new(node_b.inputs[input], node_a.outputs[output])] the
    input socket is looked up before the output socket. *)
Definition connect_link (args : list pyval) (i : nat) : M NodeTree unit :=
  node_a <- item args (3 * i) ;;
  node_b <- item args (3 * (i + 1)) ;;
  output <- item args (3 * i + 1) ;;
  input <- item args (3 * i + 2) ;;
  b <- as_node node_b ;;
  input_key <- as_key input ;;
  socket_in <- node_input b input_key ;;
  a <- as_node node_a ;;
  output_key <- as_key output ;;
  socket_out <- node_output a output_key ;;
  links_new socket_in socket_out.

Definition connect_nodes (args : list pyval) : M NodeTree unit :=
  let argc := Z.of_nat (List.length args) in
  if ((argc <? 4)%Z || negb (((argc - 4) mod 3 =? 0)%Z))%bool then
    raise (Exception "Invalid number of arguments!")
  else
    (* Make n links *)
    let n := ((argc - 1) / 3)%Z in
    for_each (seq 0 (range_len n)) (connect_link args).

Definition make_group_inputs (x y : Z) (sockets : list string) : M NodeTree nat :=
  if negb ((Z.of_nat (List.length sockets) mod 2 =? 0)%Z) then
    raise (Exception "Invalid number of arguments!")
  else
    node <- nodes_new "NodeGroupInput" ;;
    node_set node (set_location (x, y)) ;;
    for_each (seq 0 (List.length sockets / 2)) (fun i =>
      name <- item sockets (2 * i + 1) ;;
      type <- item sockets (2 * i) ;;
      interface_new_socket name "INPUT" ("NodeSocket" ++ type)) ;;
    ret node.

Definition make_group_outputs (x y : Z) (sockets : list string) : M NodeTree nat :=
  if negb ((Z.of_nat (List.length sockets) mod 2 =? 0)%Z) then
    raise (Exception "Invalid number of arguments!")
  else
    node <- nodes_new "NodeGroupOutput" ;;
    node_set node (set_location (x, y)) ;;
    for_each (seq 0 (List.length sockets / 2)) (fun i =>
      name <- item sockets (2 * i + 1) ;;
      type <- item sockets (2 * i) ;;
      interface_new_socket name "OUTPUT" ("NodeSocket" ++ type)) ;;
    ret node.

(** ** The three node groups

    Between [group = bpy.data.node_groups.new(...)] and the
    [make_group_node] that follows, every statement of the script works
    on [group]; each block is a computation on that tree. *)

(** Lines 164-183, "Random Intensity". *)
Definition random_intensity_nodes : M NodeTree unit :=
  group_inputs <- make_group_inputs 0 0 ["Float"; "Random"] ;;
  group_outputs <- make_group_outputs 1200 0 ["Float"; "Intensity"] ;;
  (* Add a math node to prepare random input *)
  math_inp_fact <- make_math_node "MULTIPLY" 200 0 0.5 9100 ;;
  (* Add a math node to prepare input *)
  math_pre_div <- make_math_node "DIVIDE" 400 0 0.5 3.56 ;;
  (* Add a math node to convert visual magnitude *)
  math_mag_log <- make_math_node "LOGARITHM" 600 0 0.5 (exp 1) ;;
  (* Add a math node to convert visual magnitude *)
  math_mag_div <- make_math_node "DIVIDE" 800 0 0.5 (-1.21) ;;
  (* Add a math node to convert visual magnitude *)
  math_mag_power <- make_math_node "POWER" 1000 0 2.512 0.5 ;;
  (* Connect nodes *)
  connect_nodes
    [PyNode group_inputs; PyStr "Random";
     PyInt 0; PyNode math_inp_fact; PyInt 0;
     PyInt 0; PyNode math_pre_div; PyInt 0;
     PyInt 0; PyNode math_mag_log; PyInt 0;
     PyInt 0; PyNode math_mag_div; PyInt 0;
     PyInt 1; PyNode math_mag_power; PyInt 0;
     PyStr "Intensity"; PyNode group_outputs].

(** Lines 189-200, "Random Splitter". *)
Definition random_splitter_nodes : M NodeTree unit :=
  group_inputs <- make_group_inputs 0 0 ["Float"; "Random"] ;;
  group_outputs <- make_group_outputs 600 0 ["Float"; "Random 1"; "Float"; "Random 2"] ;;
  (* Multiplication by large factor *)
  math_rsplit_mult <- make_math_node "MULTIPLY" 200 (-100) 0.5 1000 ;;
  (* Use only decimals *)
  math_rsplit_mod <- make_math_node "MODULO" 400 (-100) 0.5 1 ;;
  (* Connect nodes *)
  connect_nodes
    [PyNode group_inputs; PyStr "Random"; PyStr "Random 1"; PyNode group_outputs] ;;
  connect_nodes
    [PyNode group_inputs; PyStr "Random";
     PyInt 0; PyNode math_rsplit_mult; PyInt 0;
     PyInt 0; PyNode math_rsplit_mod; PyInt 0;
     PyStr "Random 2"; PyNode group_outputs].

(** Lines 220-233, "Random Star Color". *)
Definition random_star_color_nodes : M NodeTree unit :=
  group_inputs <- make_group_inputs 0 0 ["Float"; "Random"] ;;
  group_outputs <- make_group_outputs 800 0 ["Color"; "Color"] ;;
  (* Color temperature width *)
  math_kelvin_width <- make_math_node "MULTIPLY" 200 0 0.5 17000 ;;
  (* Color temperature offset *)
  math_kelvin_offset <- make_math_node "ADD" 400 0 0.5 3000 ;;
  (* Blackbody color *)
  blackbody <- make_node "ShaderNodeBlackbody" 600 0 ;;
  (* Connect nodes *)
  connect_nodes
    [PyNode group_inputs; PyStr "Random";
     PyInt 0; PyNode math_kelvin_width; PyInt 0;
     PyInt 0; PyNode math_kelvin_offset; PyInt 0;
     PyStr "Temperature"; PyNode blackbody; PyStr "Color";
     PyStr "Color"; PyNode group_outputs].

(** ** What a node group computes

    The host evaluates a group by following the links backwards from the
    group output node.  The operations of the math node are the host's:
    division and modulo by zero give 0, the logarithm of a non-positive
    number (or to a non-positive base) gives 0, modulo is the truncated
    remainder ([fmod]). *)

Definition truncate (x : R) : Z :=
  if Rle_dec 0 x then Int_part x else (- Int_part (- x))%Z.

Definition fmod (a b : R) : R := (a - b * IZR (truncate (a / b)))%R.

Definition safe_divide (a b : R) : R :=
  if Req_dec_T b 0 then 0%R else (a / b)%R.

Definition safe_log (a base : R) : R :=
  if Rle_dec a 0 then 0%R
  else if Rle_dec base 0 then 0%R
  else safe_divide (ln a) (ln base).

(** Operations of [ShaderNodeMath] used by the script.  A power is given
    for a positive base only; the groups raise the constant 2.512. *)
Definition math_operation (op : string) (a b : R) : option R :=
  if op =? "ADD" then Some (a + b)%R
  else if op =? "MULTIPLY" then Some (a * b)%R
  else if op =? "DIVIDE" then Some (safe_divide a b)
  else if op =? "LOGARITHM" then Some (safe_log a b)
  else if op =? "MODULO" then Some (if Req_dec_T b 0 then 0%R else fmod a b)
  else if op =? "POWER" then
    if Rlt_dec 0 a then Some (Rpower a b) else None
  else None.

(** Value entering input socket [i] of [node]: the value of the linked
    output, or the default value of the socket. *)
Definition input_value (value_of : nat -> nat -> option R) (t : NodeTree)
    (node i : nat) : option R :=
  match find (link_enters (node, i)) (links t) with
  | Some l => value_of (from_node l) (from_socket l)
  | None =>
      match nth_error (nodes t) node with
      | Some n => option_map default_value (nth_error (inputs n) i)
      | None => None
      end
  end.

(** Value of output socket [socket] of [node], the group being called
    with the arguments [args] (by input name). *)
Fixpoint output_value (fuel : nat) (t : NodeTree) (args : string -> option R)
    (node socket : nat) : option R :=
  match fuel with
  | O => None
  | S fuel' =>
      match nth_error (nodes t) node with
      | None => None
      | Some n =>
          if bl_idname n =? "NodeGroupInput" then
            match nth_error (outputs n) socket with
            | Some so => args (socket_name so)
            | None => None
            end
          else if ((bl_idname n =? "ShaderNodeMath") && (socket =? 0)%nat)%bool then
            match input_value (output_value fuel' t args) t node 0,
                  input_value (output_value fuel' t args) t node 1 with
            | Some a, Some b => math_operation (operation n) a b
            | _, _ => None
            end
          else None
      end
  end.

(** Value of the group output named [output]. *)
Definition group_value (t : NodeTree) (args : string -> option R) (output : string)
    : option R :=
  match index_where (fun n => bl_idname n =? "NodeGroupOutput") (nodes t) with
  | None => None
  | Some out =>
      match nth_error (nodes t) out with
      | None => None
      | Some n =>
          match find_socket (Name output) (inputs n) with
          | None => None
          | Some i =>
              input_value (output_value (List.length (nodes t)) t args) t out i
          end
      end
  end.

(** The single argument of the script's groups. *)
Definition random_input (r : R) (name : string) : option R :=
  if name =? "Random" then Some r else None.

(** ** The parameter bundle *)

Record Props : Type := mkProps {
  random_seed : Z;
  star_density : Q;
  hemisphere : bool;
  star_intensity : Q;
  camera_lock : bool;
  clear_world_bg : bool
}.

(** ** The Blender session *)

Local Open Scope list_scope.

Section Script.
Context {gen : PRNG}.

Record Session : Type := mkSession {
  meshes : list Mesh;                 (* bpy.data.meshes *)
  objects : list Object;              (* bpy.data.objects *)
  materials : list Material;          (* bpy.data.materials *)
  node_groups : list NodeTree;        (* bpy.data.node_groups *)
  collection_objects : list nat;      (* bpy.context.collection.objects *)
  scene_camera : option nat;          (* bpy.context.scene.camera *)
  world : option World;               (* bpy.context.world *)
  random_state : rng_state            (* the generator of [random] *)
}.

Definition set_meshes (f : list Mesh -> list Mesh) (s : Session) : Session :=
  mkSession (f (meshes s)) (objects s) (materials s) (node_groups s)
    (collection_objects s) (scene_camera s) (world s) (random_state s).

Definition set_objects (f : list Object -> list Object) (s : Session) : Session :=
  mkSession (meshes s) (f (objects s)) (materials s) (node_groups s)
    (collection_objects s) (scene_camera s) (world s) (random_state s).

Definition set_materials (f : list Material -> list Material) (s : Session) : Session :=
  mkSession (meshes s) (objects s) (f (materials s)) (node_groups s)
    (collection_objects s) (scene_camera s) (world s) (random_state s).

Definition set_node_groups (f : list NodeTree -> list NodeTree) (s : Session) : Session :=
  mkSession (meshes s) (objects s) (materials s) (f (node_groups s))
    (collection_objects s) (scene_camera s) (world s) (random_state s).

Definition set_collection_objects (f : list nat -> list nat) (s : Session) : Session :=
  mkSession (meshes s) (objects s) (materials s) (node_groups s)
    (f (collection_objects s)) (scene_camera s) (world s) (random_state s).

Definition set_world (w : option World) (s : Session) : Session :=
  mkSession (meshes s) (objects s) (materials s) (node_groups s)
    (collection_objects s) (scene_camera s) w (random_state s).

Definition set_random_state (g : rng_state) (s : Session) : Session :=
  mkSession (meshes s) (objects s) (materials s) (node_groups s)
    (collection_objects s) (scene_camera s) (world s) g.

(** *** [random] *)

Definition random_seed_call (a : Z) : M Session unit :=
  modify (set_random_state (rng_seed a)).

Definition random_random : M Session R :=
  fun s =>
    let (u, g) := rng_random (random_state s) in
    (Returns u, set_random_state g s).

(** *** [bpy.data.meshes] *)

(** [registry[name]]. *)
Definition lookup {A : Type} (name_of : A -> string)
    (registry : Session -> list A) (name : string) : M Session nat :=
  fun s =>
    from_option KeyError (index_where (fun d => name_of d =? name) (registry s)) s.

Definition meshes_new (name : string) : M Session nat :=
  fun s =>
    let name' := unique_name (map mesh_name (meshes s)) name in
    (Returns (List.length (meshes s)),
     set_meshes (fun l => l ++ [mkMesh name' [] [] []]) s).

Definition clear_geometry (mesh : nat) : M Session unit :=
  modify (set_meshes (update mesh (fun m => mkMesh (mesh_name m) [] [] []))).

(** *** [bpy.data.objects] *)

Definition get_object (obj : nat) : M Session Object :=
  fun s => from_option RuntimeError (nth_error (objects s) obj) s.

Definition object_set (obj : nat) (f : Object -> Object) : M Session unit :=
  modify (set_objects (update obj f)).

Definition objects_new (name : string) (mesh : nat) : M Session nat :=
  fun s =>
    let name' := unique_name (map obj_name (objects s)) name in
    (Returns (List.length (objects s)),
     set_objects (fun l => l ++
       [mkObject name' (MeshData mesh) None [] [] None "NONE" false true false]) s).

Definition collection_objects_link (obj : nat) : M Session unit :=
  modify (set_collection_objects (fun l => l ++ [obj])).

(** [obj.data.from_pydata(vertices, edges, faces)] adds the geometry to the
    mesh of the object.  The script hands it a mesh that it has just
    created or cleared whenever the object carries the mesh that goes
    with its name; the results below use it on empty meshes only. *)
Definition from_pydata (obj : nat) (vs : list vec3) (es : list (nat * nat))
    (fs : list (list nat)) : M Session unit :=
  o <- get_object obj ;;
  match data o with
  | MeshData m =>
      modify (set_meshes (update m (fun me =>
        mkMesh (mesh_name me) (vertices me ++ vs) (edges me ++ es) (faces me ++ fs))))
  | _ => raise AttributeError
  end.

(** [camera.data.type]. *)
Definition data_type (obj : nat) : M Session string :=
  o <- get_object obj ;;
  match data o with
  | CameraData cam => ret (camera_type cam)
  | _ => raise AttributeError
  end.

(** [camera.data.id_data]. *)
Definition data_id_data (obj : nat) : M Session IdRef :=
  o <- get_object obj ;;
  match data o with
  | CameraData cam => ret (CameraId cam)
  | _ => raise AttributeError
  end.

Definition set_active_material (m : option nat) (o : Object) : Object :=
  mkObject (obj_name o) (data o) m (constraints o) (drivers o) (parent o)
    (instance_type o) (use_instance_vertices_rotation o)
    (show_instancer_for_render o) (hide_viewport o).

Definition set_constraints (f : list Constraint -> list Constraint) (o : Object)
    : Object :=
  mkObject (obj_name o) (data o) (active_material o) (f (constraints o)) (drivers o)
    (parent o) (instance_type o) (use_instance_vertices_rotation o)
    (show_instancer_for_render o) (hide_viewport o).

Definition set_drivers (f : list FCurve -> list FCurve) (o : Object) : Object :=
  mkObject (obj_name o) (data o) (active_material o) (constraints o) (f (drivers o))
    (parent o) (instance_type o) (use_instance_vertices_rotation o)
    (show_instancer_for_render o) (hide_viewport o).

Definition set_parent (p : option nat) (o : Object) : Object :=
  mkObject (obj_name o) (data o) (active_material o) (constraints o) (drivers o)
    p (instance_type o) (use_instance_vertices_rotation o)
    (show_instancer_for_render o) (hide_viewport o).

Definition set_instance_type (t : string) (o : Object) : Object :=
  mkObject (obj_name o) (data o) (active_material o) (constraints o) (drivers o)
    (parent o) t (use_instance_vertices_rotation o)
    (show_instancer_for_render o) (hide_viewport o).

Definition set_use_instance_vertices_rotation (b : bool) (o : Object) : Object :=
  mkObject (obj_name o) (data o) (active_material o) (constraints o) (drivers o)
    (parent o) (instance_type o) b (show_instancer_for_render o) (hide_viewport o).

Definition set_show_instancer_for_render (b : bool) (o : Object) : Object :=
  mkObject (obj_name o) (data o) (active_material o) (constraints o) (drivers o)
    (parent o) (instance_type o) (use_instance_vertices_rotation o) b
    (hide_viewport o).

Definition set_hide_viewport (b : bool) (o : Object) : Object :=
  mkObject (obj_name o) (data o) (active_material o) (constraints o) (drivers o)
    (parent o) (instance_type o) (use_instance_vertices_rotation o)
    (show_instancer_for_render o) b.

(** *** Constraints *)

Definition constraints_clear (obj : nat) : M Session unit :=
  object_set obj (set_constraints (fun _ => [])).

Definition constraints_new (obj : nat) (type : string) : M Session nat :=
  o <- get_object obj ;;
  object_set obj (set_constraints (fun l => l ++ [mkConstraint type None])) ;;
  ret (List.length (constraints o)).

Definition constraint_set_target (obj constraint camera : nat) : M Session unit :=
  object_set obj (set_constraints
    (update constraint (fun c => mkConstraint (constraint_type c) (Some camera)))).

(** *** Drivers *)

Definition drives (path : string) (axis : nat) (fc : FCurve) : bool :=
  ((data_path fc =? path) && (array_index fc =? axis)%nat)%bool.

(** The driver curve of one component of a property: the existing one,
    or a new one with no variable. *)
Definition driver_curve (path : string) (axis : nat) (curves : list FCurve)
    : list FCurve * nat :=
  match index_where (drives path axis) curves with
  | Some i => (curves, i)
  | None => (curves ++ [mkFCurve path axis [] ""], List.length curves)
  end.

Fixpoint driver_curves (path : string) (axes : list nat) (curves : list FCurve)
    : list FCurve * list nat :=
  match axes with
  | [] => (curves, [])
  | axis :: rest =>
      let (curves1, i) := driver_curve path axis curves in
      let (curves2, handles) := driver_curves path rest curves1 in
      (curves2, i :: handles)
  end.

(** [obj.driver_add(path)] on a three-component property such as
    ["scale"]: one curve per component. *)
Definition driver_add (obj : nat) (path : string) : M Session (list nat) :=
  o <- get_object obj ;;
  let (curves, handles) := driver_curves path [0; 1; 2]%nat (drivers o) in
  object_set obj (set_drivers (fun _ => curves)) ;;
  ret handles.

Definition fcurve_set (obj fcurve : nat) (f : FCurve -> FCurve) : M Session unit :=
  object_set obj (set_drivers (update fcurve f)).

(** [var = fcurve.driver.variables.new()] followed by the assignments to
    [var.name], [var.type] and to [id_type], [id], [data_path] of
    [var.targets[0]]. *)
Definition add_variable (obj fcurve : nat) (name type target_id_type : string)
    (target_id : IdRef) (target_data_path : string) : M Session unit :=
  fcurve_set obj fcurve (fun fc =>
    mkFCurve (data_path fc) (array_index fc)
      (variables fc ++ [mkDriverVariable name type target_id_type target_id
                          target_data_path])
      (expression fc)).

Definition set_expression (obj fcurve : nat) (e : string) : M Session unit :=
  fcurve_set obj fcurve (fun fc =>
    mkFCurve (data_path fc) (array_index fc) (variables fc) e).

(** *** [bpy.data.materials] and [bpy.data.node_groups] *)

Definition materials_new (name : string) : M Session nat :=
  fun s =>
    let name' := unique_name (map material_name (materials s)) name in
    (Returns (List.length (materials s)),
     set_materials (fun l => l ++ [mkMaterial name' false None]) s).

(** [shader.use_nodes = True]: a material without a tree gets one.  (The
    host fills a new tree with its default nodes; the script clears the
    nodes on the next line, and they are left out here.) *)
Definition material_use_nodes (shader : nat) : M Session unit :=
  modify (set_materials (update shader (fun m =>
    mkMaterial (material_name m) true
      (match material_tree m with
       | Some t => Some t
       | None => Some (mkNodeTree "Shader Nodetree" [] [] [])
       end)))).

(** [bpy.data.node_groups.new(name, type)] always makes a datablock. *)
Definition node_groups_new (name type : string) : M Session nat :=
  fun s =>
    let name' := unique_name (map tree_name (node_groups s)) name in
    (Returns (List.length (node_groups s)),
     set_node_groups (fun l => l ++ [mkNodeTree name' [] [] []]) s).

(** A reference to a node tree: the tree of a material or a node group. *)
Inductive TreeRef : Type :=
| MaterialTree (material : nat)
| GroupTree (group : nat).

Definition get_tree (r : TreeRef) (s : Session) : option NodeTree :=
  match r with
  | MaterialTree m =>
      match nth_error (materials s) m with
      | Some mat => material_tree mat
      | None => None
      end
  | GroupTree g => nth_error (node_groups s) g
  end.

Definition put_tree (r : TreeRef) (t : NodeTree) (s : Session) : Session :=
  match r with
  | MaterialTree m =>
      set_materials (update m (fun mat =>
        mkMaterial (material_name mat) (use_nodes mat) (Some t))) s
  | GroupTree g => set_node_groups (update g (fun _ => t)) s
  end.

(** Running a helper on the tree behind a reference. *)
Definition on_tree {A : Type} (r : TreeRef) (m : M NodeTree A) : M Session A :=
  zoom (get_tree r) (put_tree r) m.

Definition group_interface (group : nat) : M Session (list InterfaceSocket) :=
  fun s => from_option RuntimeError (option_map interface (nth_error (node_groups s) group)) s.

(** *** [bpy.context.world] *)

Definition world_set (f : World -> World) : M Session unit :=
  fun s =>
    match world s with
    | None => (Raises AttributeError, s)
    | Some w => (Returns tt, set_world (Some (f w)) s)
    end.

(** ** The script, session level *)

Definition create_or_reuse_mesh_object (name : string) : M Session nat :=
  (* Load/create the mesh *)
  mesh <- try_except_KeyError
            (mesh <- lookup mesh_name meshes (name ++ "_mesh")%string ;;
             clear_geometry mesh ;;
             ret mesh)
            (meshes_new (name ++ "_mesh")%string) ;;
  (* Load/create the object *)
  obj <- try_except_KeyError
           (lookup obj_name objects name)
           (obj <- objects_new name mesh ;;
            collection_objects_link obj ;;
            ret obj) ;;
  ret obj.

(** Two draws, [phi] first.  The second draw lies in [[0,1)], so the
    argument of [math.asin] is in its domain and no [ValueError] arises. *)
Definition random_spherical_coordinates : M Session (R * R) :=
  u1 <- random_random ;;
  let phi := (u1 * 2 * PI)%R in
  u2 <- random_random ;;
  let theta := asin (2 * u2 - 1) in
  ret (phi, theta).

(** Body of [for i in range(n)] at lines 110-116, [vertices] being the
    list built so far. *)
Fixpoint star_loop (n : nat) (hemi : bool) (vertices : list vec3)
    : M Session (list vec3) :=
  match n with
  | O => ret vertices
  | S n' =>
      (* Generate a random location at random across the sky *)
      angles <- random_spherical_coordinates ;;
      let '(x, y, z) :=
        spherical_to_cartesian_coordinates 1 (fst angles) (snd angles) in
      let z := if hemi then Rabs z else z in
      star_loop n' hemi (vertices ++ [(x, y, z)])
  end.

(** Lines 102-116: seeding and the star positions. *)
Definition star_positions (props : Props) : M Session (list vec3) :=
  (* Initialize random number generator *)
  random_seed_call (random_seed props) ;;
  (* Create stars positions (mesh data consisting only of vertices, radius = 1) *)
  let N := float_mul 1000 (star_density props) in
  let N := if hemisphere props then float_div N 2 else N in
  star_loop (range_len (py_round N)) (hemisphere props) [].

(** Lines 125-130 and the index lists of line 132: the star template. *)
Definition template_vertices : list vec3 :=
  let s := 0.0002%R in
  let q := (s * sqrt 3)%R in
  [ (0, 0, 2 * s); (- q, 0, -1 * s); (q, 0, -1 * s) ]%R.

Definition template_edges : list (nat * nat) := [(0, 1); (0, 2); (1, 2)]%nat.

Definition template_faces : list (list nat) := [[0; 1; 2]%nat].

Definition make_group_node_in (nodes : TreeRef) (group : nat) (x y : Z)
    : M Session nat :=
  iface <- group_interface group ;;
  on_tree nodes (make_group_node group iface x y).

(** Lines 137-240: the material and its three node groups.  [nodes] and
    [node_tree] both stand for the tree of the material. *)
Definition build_shader (props : Props) : M Session unit :=
  (* Create the new material "Star Shader" *)
  shader <- try_except_KeyError
              (lookup material_name materials "Star Shader")
              (materials_new "Star Shader") ;;
  (* Use nodes *)
  material_use_nodes shader ;;
  let node_tree := MaterialTree shader in
  let nodes := node_tree in
  on_tree nodes nodes_clear ;;
  (* Add Material Output node *)
  material_output <- on_tree nodes (make_node "ShaderNodeOutputMaterial" 0 0) ;;
  (* Add an Emission Shader node *)
  emission <- on_tree nodes (make_node "ShaderNodeEmission" (-200) 0) ;;
  (* Add a math node for multiplication with light path *)
  math_lightpath <- on_tree nodes (make_math_node "MULTIPLY" (-400) 0 0.5 0.5) ;;
  light_path <- on_tree nodes (make_node "ShaderNodeLightPath" (-600) 100) ;;
  on_tree node_tree (connect_nodes
    [PyNode light_path; PyStr "Is Camera Ray"; PyInt 0; PyNode math_lightpath]) ;;
  (* Add a math node to control the intensity *)
  math_intensity <- on_tree nodes
    (make_math_node "MULTIPLY" (-600) 0 0.5 (Q2R (15 * star_intensity props))) ;;
  (* Add a node group for random intensity *)
  group <- node_groups_new "Random Intensity" "ShaderNodeTree" ;;
  on_tree (GroupTree group) random_intensity_nodes ;;
  (* Add group *)
  random_magnitude <- make_group_node_in nodes group (-800) 0 ;;
  (* Make node group to split single random value into two *)
  group <- node_groups_new "Random Splitter" "ShaderNodeTree" ;;
  on_tree (GroupTree group) random_splitter_nodes ;;
  (* Add group *)
  random_splitter <- make_group_node_in nodes group (-1000) 0 ;;
  (* Add geometry input node *)
  geometry_input <- on_tree nodes (make_node "ShaderNodeObjectInfo" (-1200) 0) ;;
  (* Connect main node chain *)
  on_tree node_tree (connect_nodes
    [PyNode geometry_input; PyStr "Random";
     PyStr "Random"; PyNode random_splitter; PyStr "Random 1";
     PyStr "Random"; PyNode random_magnitude; PyStr "Intensity";
     PyInt 0; PyNode math_intensity; PyInt 0;
     PyInt 1; PyNode math_lightpath; PyInt 0;
     PyStr "Strength"; PyNode emission; PyStr "Emission";
     PyStr "Surface"; PyNode material_output]) ;;
  on_tree nodes (hide_node_outputs light_path) ;;
  on_tree nodes (hide_node_outputs geometry_input) ;;
  (* Make node group for star color *)
  group <- node_groups_new "Random Star Color" "ShaderNodeTree" ;;
  on_tree (GroupTree group) random_star_color_nodes ;;
  (* Add group *)
  random_color <- make_group_node_in nodes group (-600) (-200) ;;
  (* Connect color chain *)
  on_tree node_tree (connect_nodes
    [PyNode random_splitter; PyStr "Random 2";
     PyStr "Random"; PyNode random_color; PyStr "Color";
     PyStr "Color"; PyNode emission]).

(** Lines 247-252: the camera-follow constraint. *)
Definition install_constraint (props : Props) (stars_obj camera : nat)
    : M Session unit :=
  (* Add location constraint *)
  constraints_clear stars_obj ;;
  if camera_lock props then
    constraint <- constraints_new stars_obj "COPY_LOCATION" ;;
    constraint_set_target stars_obj constraint camera
  else ret tt.

(** Lines 254-311: the two scale drivers. *)
Definition install_drivers (stars_obj template_obj camera : nat) : M Session unit :=
  (* Add driver to object scale for the stars *)
  fcurves <- driver_add stars_obj "scale" ;;
  for_each fcurves (fun fcurve =>
    (* Add a variable for the camera focal length *)
    camera_id <- data_id_data camera ;;
    add_variable stars_obj fcurve "s" "SINGLE_PROP" "CAMERA" camera_id "clip_end" ;;
    (* Set the driver expression *)
    set_expression stars_obj fcurve "0.9 * s") ;;
  (* Add driver to object scale for the template *)
  fcurves <- driver_add template_obj "scale" ;;
  for_each fcurves (fun fcurve =>
    (* Add a variable for the camera focal length *)
    camera_id <- data_id_data camera ;;
    add_variable template_obj fcurve "f" "SINGLE_PROP" "CAMERA" camera_id "lens" ;;
    (* Add a variable for the render width *)
    add_variable template_obj fcurve "x" "SINGLE_PROP" "SCENE" SceneId
      "render.resolution_x" ;;
    (* Add a variable for the render height *)
    add_variable template_obj fcurve "y" "SINGLE_PROP" "SCENE" SceneId
      "render.resolution_y" ;;
    (* Add a variable for the resolution percentage *)
    add_variable template_obj fcurve "p" "SINGLE_PROP" "SCENE" SceneId
      "render.resolution_percentage" ;;
    (* Set the driver expression *)
    set_expression template_obj fcurve "50 / f * 2202.907 / max(x, y) / p * 100").

(** Lines 313-330: instancing, visibility, world background. *)
Definition bind_scene (props : Props) (stars_obj template_obj : nat)
    : M Session unit :=
  (* Set object relationship *)
  object_set template_obj (set_parent (Some stars_obj)) ;;
  object_set stars_obj (set_instance_type "VERTS") ;;
  object_set stars_obj (set_use_instance_vertices_rotation true) ;;
  object_set stars_obj (set_show_instancer_for_render false) ;;
  (* Hide the template *)
  object_set template_obj (set_hide_viewport true) ;;
  (* Clear the world background *)
  if clear_world_bg props then
    (* Turn nodes off *)
    world_set (fun w => mkWorld false (color w)) ;;
    (* Set color to pure black *)
    world_set (fun w => mkWorld (world_use_nodes w) (0, 0, 0)%R)
  else ret tt.

Definition generate_starscape (props : Props) : M Session bool :=
  (* Get the scene camera *)
  camera <- gets scene_camera ;;
  match camera with
  | None => ret false
  | Some camera =>
      camera_data_type <- data_type camera ;;
      if negb (camera_data_type =? "PERSP") then ret false
      else
        vertices <- star_positions props ;;
        (* Load/create the star location mesh *)
        stars_obj <- create_or_reuse_mesh_object "Starscape" ;;
        (* Set the mesh to the star data *)
        from_pydata stars_obj vertices [] [] ;;
        (* Add a star template *)
        template_obj <- create_or_reuse_mesh_object "Star_Template" ;;
        from_pydata template_obj template_vertices template_edges template_faces ;;
        build_shader props ;;
        (* Set material *)
        shader <- lookup material_name materials "Star Shader" ;;
        object_set template_obj (set_active_material (Some shader)) ;;
        install_constraint props stars_obj camera ;;
        install_drivers stars_obj template_obj camera ;;
        bind_scene props stars_obj template_obj ;;
        ret true
  end.

End Script.

Arguments Session : clear implicits.

(** ** Reference definitions for the statements

    The stream of numbers a generator state produces, and the star that
    the draws [2i] and [2i+1] of a stream give. *)

Section Stream.
Context {gen : PRNG}.

Fixpoint advance (g : rng_state) (k : nat) : rng_state :=
  match k with
  | O => g
  | S k' => advance (snd (rng_random g)) k'
  end.

Definition draw (g : rng_state) (k : nat) : R := fst (rng_random (advance g k)).

Definition star_at (hemi : bool) (g : rng_state) (i : nat) : vec3 :=
  let phi := (draw g (2 * i) * 2 * PI)%R in
  let theta := asin (2 * draw g (2 * i + 1) - 1) in
  let '(x, y, z) := spherical_to_cartesian_coordinates 1 phi theta in
  (x, y, if hemi then Rabs z else z).
End Stream.

Definition on_unit_sphere (p : vec3) : Prop :=
  let '(x, y, z) := p in (x * x + y * y + z * z = 1)%R.

(** The number of points of a run, as the script computes it: the
    halving comes before the rounding. *)
Definition star_count (density : Q) (hemi : bool) : Z :=
  let N := float_mul 1000 density in
  py_round (if hemi then float_div N 2 else N).

(** A number with at most 53 significant bits: a float, up to the range
    of the exponent. *)
Definition is_double (x : Q) : Prop :=
  exists m e : Z, (Z.abs m < 2 ^ 53)%Z /\ (x == inject_Z m * 2 ^ e)%Q.

(** Measures of a triangle given as apex, left and right base vertex in
    the plane [y = 0]. *)
Definition triangle_height (t : list vec3) : R :=
  match t with
  | [(_, _, za); (_, _, zb); _] => (za - zb)%R
  | _ => 0%R
  end.

Definition triangle_half_base (t : list vec3) : R :=
  match t with
  | [_; (xb, _, _); (xc, _, _)] => ((xc - xb) / 2)%R
  | _ => 0%R
  end.

Definition distance2 (p q : vec3) : R :=
  let '(px, py, pz) := p in
  let '(qx, qy, qz) := q in
  ((px - qx) * (px - qx) + (py - qy) * (py - qy) + (pz - qz) * (pz - qz))%R.

(** The base is level and the two sides that meet at the apex are equal. *)
Definition isoceles (t : list vec3) : Prop :=
  match t with
  | [a; b; c] =>
      snd b = snd c /\ distance2 a b = distance2 a c
  | _ => False
  end.

(** The tree a block builds in a new node group called [name], and the
    registry after the script has added such a group (the host picks the
    name, see [unique_name]). *)
Definition new_tree (name : string) : NodeTree := mkNodeTree name [] [] [].

Definition built (name : string) (block : M NodeTree unit) : NodeTree :=
  snd (block (new_tree name)).

Definition add_group (name : string) (block : M NodeTree unit)
    (groups : list NodeTree) : list NodeTree :=
  groups ++ [built (unique_name (map tree_name groups) name) block].

(** The composite function of the intensity branch, as the specification
    writes it. *)
Definition intensity_of (r : R) : R :=
  Rpower 2.512 (ln (r * 9100 / 3.56) / -1.21).

(** ** Definitions used by the statements and their proofs *)

(** An outcome other than the script's own [Exception]. *)
Definition not_exception {A : Type} (r : outcome A) : Prop :=
  match r with
  | Raises (Exception _) => False
  | _ => True
  end.

(** A computation that never raises the script's own [Exception]. *)
Definition clean {S A : Type} (m : M S A) : Prop :=
  forall s r s', m s = (r, s') -> not_exception r.

(** The arity test of [connect_nodes], on the number of variadic
    arguments. *)
Definition arity_fails (argc : Z) : Prop := (argc < 4 \/ (argc - 4) mod 3 <> 0)%Z.

(** A variadic argument read as a socket key, or as a node. *)
Definition key_of (v : pyval) : option key :=
  match v with
  | PyInt i => Some (Index i)
  | PyStr s => Some (Name s)
  | PyNode _ => None
  end.

Definition node_of (v : pyval) : option nat :=
  match v with
  | PyNode n => Some n
  | _ => None
  end.

Definition and_then {A B : Type} (o : option A) (k : A -> option B) : option B :=
  match o with
  | Some a => k a
  | None => None
  end.

(** The link that step [i] of a chain asks for: from the output
    [args[3i+1]] of node [args[3i]] to the input [args[3i+2]] of node
    [args[3(i+1)]], when these exist in [t]. *)
Definition requested_link (t : NodeTree) (args : list pyval) (i : nat) : option Link :=
  and_then (and_then (nth_error args (3 * i)) node_of) (fun a =>
  and_then (and_then (nth_error args (3 * (i + 1))) node_of) (fun b =>
  and_then (and_then (nth_error args (3 * i + 1)) key_of) (fun output =>
  and_then (and_then (nth_error args (3 * i + 2)) key_of) (fun input =>
  and_then (nth_error (nodes t) a) (fun node_a =>
  and_then (nth_error (nodes t) b) (fun node_b =>
  and_then (find_socket output (outputs node_a)) (fun so =>
  and_then (find_socket input (inputs node_b)) (fun si =>
  Some (mkLink a so b si))))))))).

(** Adding a link the way [links.new] does. *)
Definition add_link (l : Link) (t : NodeTree) : NodeTree :=
  set_links (filter (fun l0 => negb (link_enters (to_node l, to_socket l) l0)) (links t)
             ++ [l]) t.

(** The tree after the links of the steps [steps], when every one of
    them exists. *)
Fixpoint link_chain (t : NodeTree) (args : list pyval) (steps : list nat)
    : option NodeTree :=
  match steps with
  | [] => Some t
  | i :: rest =>
      and_then (requested_link t args i) (fun l => link_chain (add_link l t) args rest)
  end.

(** [preserves view m]: whatever its outcome, [m] does not change what
    [view] shows of the state. *)
Definition preserves {S A V : Type} (view : S -> V) (m : M S A) : Prop :=
  forall s r s', m s = (r, s') -> view s' = view s.

(** The test behind [registry[name]]. *)
Definition named {A : Type} (name_of : A -> string) (name : string) (d : A) : bool :=
  name_of d =? name.

(** The object that [bpy.data.objects.new(name, mesh)] makes when the
    name is free. *)
Definition new_object (name : string) (mesh : nat) : Object :=
  mkObject name (MeshData mesh) None [] [] None "NONE" false true false.

(** View of an object that keeps the name, the data and the
    constraints. *)
Definition object_core (o : Object) : string * ObData * list Constraint :=
  (obj_name o, data o, constraints o).

(** View of an object that keeps the name and the data. *)
Definition object_id (o : Object) : string * ObData := (obj_name o, data o).

(** The constraints lines 249-252 leave on the star field. *)
Definition expected_constraints (props : Props) (camera : nat) : list Constraint :=
  if camera_lock props then [mkConstraint "COPY_LOCATION" (Some camera)] else [].

Section Views.
Context {gen : PRNG}.

(** The scene has no perspective camera: no active camera, or an active
    camera whose projection type is not ["PERSP"]. *)
Definition no_perspective_camera (s : Session gen) : Prop :=
  scene_camera s = None \/
  exists camera o cam,
    scene_camera s = Some camera /\
    nth_error (objects s) camera = Some o /\
    data o = CameraData cam /\
    camera_type cam <> "PERSP".

Definition objects_core (s : Session gen) : list (string * ObData * list Constraint) :=
  map object_core (objects s).

Definition objects_id (s : Session gen) : list (string * ObData) :=
  map object_id (objects s).

(** A view that cannot tell an object from one with the same [core],
    and does not look at the world. *)
Definition object_blind {C V : Type} (core : Object -> C) (view : Session gen -> V)
    : Prop :=
  (forall obj f s, (forall o, core (f o) = core o) ->
                   view (set_objects (update obj f) s) = view s) /\
  (forall w s, view (set_world w s) = view s).

(** A view that the material stage cannot change: it does not look at
    the materials nor at the node groups. *)
Definition shader_blind {V : Type} (view : Session gen -> V) : Prop :=
  (forall f s, view (set_materials f s) = view s) /\
  (forall f s, view (set_node_groups f s) = view s).

(** The object that [name] denotes, if there is one, carries the mesh
    that [name ++ "_mesh"] denotes.  This is how the script leaves the
    objects it creates, and what it takes for granted when it finds
    them again. *)
Definition reuse_ready (name : string) (s : Session gen) : Prop :=
  forall obj,
    index_where (named obj_name name) (objects s) = Some obj ->
    exists o m,
      nth_error (objects s) obj = Some o /\
      data o = MeshData m /\
      index_where (named mesh_name (name ++ "_mesh")%string) (meshes s) = Some m.

(** [grows F m]: when [m] returns, the registry of node groups has gone
    from [groups] to [F groups]. *)
Definition grows {A : Type} (F : list NodeTree -> list NodeTree)
    (m : M (Session gen) A) : Prop :=
  forall s a s', m s = (Returns a, s') -> node_groups s' = F (node_groups s).

(** A view of the session that shows none of the registries, nor the
    collection, nor the world. *)
Definition registry_blind {V : Type} (view : Session gen -> V) : Prop :=
  (forall f s, view (set_meshes f s) = view s) /\
  (forall f s, view (set_objects f s) = view s) /\
  (forall f s, view (set_collection_objects f s) = view s) /\
  (forall f s, view (set_materials f s) = view s) /\
  (forall f s, view (set_node_groups f s) = view s) /\
  (forall w s, view (set_world w s) = view s).

(** The scene camera is an object that carries the camera [cam]. *)
Definition camera_is (camera : nat) (cam : Camera) (s : Session gen) : Prop :=
  exists o, nth_error (objects s) camera = Some o /\ data o = CameraData cam.

(** The names of the objects that [create_or_reuse_mesh_object name]
    makes: [name] when no object carries it, none otherwise. *)
Definition created (name : string) (s : Session gen) : list string :=
  match index_where (named obj_name name) (objects s) with
  | Some _ => []
  | None => [name]
  end.

End Views.

(** The tree lines 146-240 build for the material.  The nodes, in the
    order of their creation: material output (0), emission (1), the
    light path product (2), light path (3), the intensity product (4),
    the group nodes of "Random Intensity" (5) and "Random Splitter" (6),
    object info (7), the group node of "Random Star Color" (8).  The
    group nodes refer to the groups [group], [group + 1], [group + 2];
    the nine links are the one of line 157, the six of lines 208-214 and
    the two of lines 238-240; [strength] is the second factor of the
    intensity product; the last component gives the [hide] flag of every
    output socket. *)
Definition star_shader_wiring (strength : R) (group : nat) (t : NodeTree) : Prop :=
  map bl_idname (nodes t)
  = ["ShaderNodeOutputMaterial"; "ShaderNodeEmission"; "ShaderNodeMath";
     "ShaderNodeLightPath"; "ShaderNodeMath"; "ShaderNodeGroup"; "ShaderNodeGroup";
     "ShaderNodeObjectInfo"; "ShaderNodeGroup"] /\
  map node_tree (nodes t)
  = [None; None; None; None; None; Some group; Some (group + 1)%nat; None;
     Some (group + 2)%nat] /\
  links t
  = [mkLink 3 0 2 0;    (* light path "Is Camera Ray" -> light path product, 0 *)
     mkLink 7 5 6 0;    (* object info "Random" -> splitter "Random" *)
     mkLink 6 0 5 0;    (* splitter "Random 1" -> intensity group "Random" *)
     mkLink 5 0 4 0;    (* intensity group "Intensity" -> intensity product, 0 *)
     mkLink 4 0 2 1;    (* intensity product -> light path product, 1 *)
     mkLink 2 0 1 1;    (* light path product -> emission "Strength" *)
     mkLink 1 0 0 0;    (* emission "Emission" -> material output "Surface" *)
     mkLink 6 1 8 0;    (* splitter "Random 2" -> colour group "Random" *)
     mkLink 8 0 1 0] /\ (* colour group "Color" -> emission "Color" *)
  option_map default_value
    (match nth_error (nodes t) 4 with
     | Some n => nth_error (inputs n) 1
     | None => None
     end) = Some strength /\
  map (fun n => map hide (outputs n)) (nodes t)
  = [[]; [false]; [false];
     [false; true; true; true; true; true; true; true; true; true; true; true; true];
     [false]; [false]; [false; false];
     [true; true; true; true; true; false];
     [false]].

(** ** Drivers

    The variables of the curve that drives component [axis] of [path],
    none when there is no such curve. *)
Definition curve_variables (path : string) (axis : nat) (curves : list FCurve)
    : list DriverVariable :=
  match find (drives path axis) curves with
  | Some fc => variables fc
  | None => []
  end.

(** The drivers of the object that [name] denotes, none when no object
    carries the name. *)
Definition drivers_of (name : string) (objs : list Object) : list FCurve :=
  match find (named obj_name name) objs with
  | Some o => drivers o
  | None => []
  end.

(** The curves that drive something else than one of the three
    components of [path]. *)
Definition other_curves (path : string) (curves : list FCurve) : list FCurve :=
  filter (fun fc => negb ((data_path fc =? path) && (array_index fc <? 3)%nat)) curves.

(** A change of a curve that keeps what it drives. *)
Definition keeps_axis (g : FCurve -> FCurve) : Prop :=
  forall fc, data_path (g fc) = data_path fc /\ array_index (g fc) = array_index fc.

(** The curves of an object after [driver_add] and a loop that applies
    [g] to each curve returned. *)
Definition driven_curves (path : string) (g : FCurve -> FCurve) (curves : list FCurve)
    : list FCurve :=
  fold_left (fun F h => update h g F) (snd (driver_curves path [0; 1; 2]%nat curves))
    (fst (driver_curves path [0; 1; 2]%nat curves)).

(** [fcurve.driver.variables.new()] with its assignments, and the
    assignment to [fcurve.driver.expression]. *)
Definition add_variable_to (v : DriverVariable) (fc : FCurve) : FCurve :=
  mkFCurve (data_path fc) (array_index fc) (variables fc ++ [v]) (expression fc).

Definition with_expression (e : string) (fc : FCurve) : FCurve :=
  mkFCurve (data_path fc) (array_index fc) (variables fc) e.

(** What lines 257-268 do to a curve of the star field, and lines
    273-311 to a curve of the template. *)
Definition stars_curve (cam : Camera) (fc : FCurve) : FCurve :=
  with_expression "0.9 * s"
    (add_variable_to
       (mkDriverVariable "s" "SINGLE_PROP" "CAMERA" (CameraId cam) "clip_end") fc).

Definition template_curve (cam : Camera) (fc : FCurve) : FCurve :=
  with_expression "50 / f * 2202.907 / max(x, y) / p * 100"
    (add_variable_to
       (mkDriverVariable "p" "SINGLE_PROP" "SCENE" SceneId "render.resolution_percentage")
       (add_variable_to
          (mkDriverVariable "y" "SINGLE_PROP" "SCENE" SceneId "render.resolution_y")
          (add_variable_to
             (mkDriverVariable "x" "SINGLE_PROP" "SCENE" SceneId "render.resolution_x")
             (add_variable_to
                (mkDriverVariable "f" "SINGLE_PROP" "CAMERA" (CameraId cam) "lens")
                fc)))).

(** A computation that leaves the state it found when it raises. *)
Definition unchanged_on_raise {S A : Type} (m : M S A) : Prop :=
  forall s e s', m s = (Raises e, s') -> s' = s.

(** Value entering the input socket [input] of the first node of type
    [node_type] of a group called with the arguments [args]. *)
Definition socket_value (t : NodeTree) (args : string -> option R)
    (node_type input : string) : option R :=
  match index_where (fun n => bl_idname n =? node_type) (nodes t) with
  | None => None
  | Some node =>
      match nth_error (nodes t) node with
      | None => None
      | Some n =>
          match find_socket (Name input) (inputs n) with
          | None => None
          | Some i => input_value (output_value (List.length (nodes t)) t args) t node i
          end
      end
  end.

(** Third coordinate of a position. *)
Definition height_of (p : vec3) : R := snd p.

(** The interface sockets that the variadic [sockets] of
    [make_group_inputs] and [make_group_outputs] declare: a type at each
    even position, a name at the odd position that follows. *)
Definition declared_sockets (direction : string) (sockets : list string)
    : list InterfaceSocket :=
  map (fun i => mkInterfaceSocket (nth (2 * i + 1) sockets "") direction
                  ("NodeSocket" ++ nth (2 * i) sockets "")%string)
      (seq 0 (List.length sockets / 2)).

(** Every type among the variadic [sockets], with the prefix the script
    puts before it, names a socket type of the host. *)
Definition socket_types_known (sockets : list string) : bool :=
  forallb (fun i => mem ("NodeSocket" ++ nth (2 * i) sockets "")%string
                      interface_socket_types)
    (seq 0 (List.length sockets / 2)).

(** The tree after one [interface.new_socket]. *)
Definition declare (item : InterfaceSocket) (t : NodeTree) : NodeTree :=
  set_interface (interface t ++ [item])
    (set_nodes (map (follow_interface item) (nodes t)) t).

(** One step of [hide_node_outputs] on the output sockets of a node:
    socket [j] is hidden unless a link leaves it. *)
Definition hide_step (node : nat) (ls : list Link) (outs : list Socket) (j : nat)
    : list Socket :=
  if existsb (link_leaves (node, j)) ls then outs else update j (set_hide true) outs.

(** ** Concrete scenes

    A scene with one perspective camera and nothing else, the same scene
    with an orthographic camera, and a parameter bundle. *)

(** A small linear congruential generator, used to run the model on
    concrete scenes. *)
Definition lcg_modulus : Z := 2147483648.

Definition lcg_step (g : Z) : Z := ((1103515245 * g + 12345) mod lcg_modulus)%Z.

Definition lcg_random (g : Z) : R * Z :=
  ((IZR (g mod lcg_modulus) / IZR lcg_modulus)%R, lcg_step g).

Lemma lcg_random_range (g : Z) : (0 <= fst (lcg_random g) < 1)%R.
Proof.
  unfold lcg_random; simpl fst.
  assert (Hm : (0 < IZR lcg_modulus)%R) by (apply IZR_lt; reflexivity).
  assert (Hb : (0 <= g mod lcg_modulus < lcg_modulus)%Z)
    by (apply Z.mod_pos_bound; reflexivity).
  destruct Hb as [Hlo Hhi].
  apply IZR_le in Hlo. apply IZR_lt in Hhi.
  split.
  - apply Rmult_le_pos; [exact Hlo | left; apply Rinv_0_lt_compat; exact Hm].
  - apply (Rmult_lt_reg_r (IZR lcg_modulus)); [exact Hm |].
    unfold Rdiv. rewrite Rmult_assoc, Rinv_l by lra. lra.
Qed.

Definition lcg : PRNG :=
  {| rng_state := Z;
     rng_seed := fun a => (a mod lcg_modulus)%Z;
     rng_random := lcg_random;
     rng_random_range := lcg_random_range |}.

Definition camera_object (projection : string) : Object :=
  mkObject "Camera" (CameraData (mkCamera "Camera" projection)) None [] [] None
    "NONE" false true false.

Definition scene_with_camera (projection : string) : Session lcg :=
  @mkSession lcg [] [camera_object projection] [] [] [0%nat] (Some 0%nat)
    (Some (mkWorld true (0.05, 0.05, 0.05)%R)) 0%Z.

Definition fresh_scene : Session lcg := scene_with_camera "PERSP".

(** A scene that holds a mesh object of its own beside the camera. *)
Definition cube_scene : Session lcg :=
  @mkSession lcg [mkMesh "Cube" [(1, 1, 1)%R] [] []]
    [camera_object "PERSP";
     mkObject "Cube" (MeshData 0) None [] [] None "NONE" false true false]
    [] [] [0%nat; 1%nat] (Some 0%nat) (Some (mkWorld true (0.05, 0.05, 0.05)%R)) 0%Z.

(** The same scene in a context without a world. *)
Definition worldless_scene : Session lcg :=
  @mkSession lcg [] [camera_object "PERSP"] [] [] [0%nat] (Some 0%nat) None 0%Z.

Definition some_props : Props := mkProps 42 (3 # 1000) false 1 true true.

(** The same bundle without the camera lock, and a bundle with the
    density of the specification's scenario. *)
Definition unlocked_props : Props := mkProps 42 (3 # 1000) false 1 false true.

Definition dense_props : Props := mkProps 42 2 false 1 true true.

(** A tree with a group input node and a group output node, for the
    four-argument chain of line 196. *)
Definition two_node_tree : NodeTree :=
  snd ((make_group_inputs 0 0 ["Float"; "Random"] ;;
        make_group_outputs 600 0 ["Float"; "Random 1"]) (new_tree "Random Splitter")).

(** A tree with a light path node linked to a math node, as lines
    155-157 build it, and its light path node. *)
Definition light_path_tree : NodeTree :=
  snd ((math_lightpath <- make_math_node "MULTIPLY" (-400) 0 0.5 0.5 ;;
        light_path <- make_node "ShaderNodeLightPath" (-600) 100 ;;
        connect_nodes
          [PyNode light_path; PyStr "Is Camera Ray"; PyInt 0; PyNode math_lightpath])
         (new_tree "Shader Nodetree")).

Definition light_path_node : Node :=
  nth 1 (nodes light_path_tree) (mkNode "" (0, 0)%Z "" None [] []).

(** The session a call leaves, whatever its outcome. *)
Definition after {gen : PRNG} (props : Props) (s : Session gen) : Session gen :=
  snd (generate_starscape props s).

(** * Results *)

(** ** Floating-point rounding *)

Local Open Scope Q_scope.

Lemma two_power_pos (z : Z) : 0 < 2 ^ z.
Proof. apply Qpower_0_lt. reflexivity. Qed.

Lemma two_power_nonzero (z : Z) : ~ 2 ^ z == 0.
Proof. intros E. pose proof (two_power_pos z) as P. rewrite E in P. discriminate P. Qed.

Lemma two_power_succ (z : Z) : 2 ^ (z + 1) == 2 ^ z * 2.
Proof. rewrite Qpower_plus by discriminate. reflexivity. Qed.

Lemma two_power_pred (z : Z) : 2 ^ (z - 1) == 2 ^ z / 2.
Proof. rewrite Qpower_minus by discriminate. reflexivity. Qed.

Lemma log2_bounds (n : Z) :
  (0 < n)%Z ->
  2 ^ Z.log2 n <= inject_Z n /\ inject_Z n < 2 ^ Z.log2 n * 2.
Proof.
  intros Hn. destruct (Z.log2_spec n Hn) as [Hlo Hhi].
  pose proof (Z.log2_nonneg n) as Hnn.
  rewrite <- two_power_succ. change 2 with (inject_Z 2).
  rewrite <- !Zpower_Qpower by lia. rewrite <- Zle_Qle, <- Zlt_Qlt.
  split; [exact Hlo |]. replace (Z.log2 n + 1)%Z with (Z.succ (Z.log2 n)) by lia.
  exact Hhi.
Qed.

(** [binade] finds the power of two at or below [|x|]. *)
Lemma binade_spec (x : Q) :
  ~ x == 0 -> 2 ^ binade x <= Qabs x /\ Qabs x < 2 ^ (binade x + 1).
Proof.
  intros Hx. unfold binade.
  set (n := Z.abs (Qnum x)). set (d := Z.pos (Qden x)).
  assert (Hn : (0 < n)%Z).
  { unfold n. destruct x as [[| p | p] q]; simpl; try lia.
    exfalso. apply Hx. reflexivity. }
  assert (Hd : (0 < d)%Z) by (unfold d; lia).
  destruct (log2_bounds n Hn) as [An1 An2]. destruct (log2_bounds d Hd) as [Bd1 Bd2].
  assert (Habs : Qabs x == inject_Z n / inject_Z d).
  { unfold n, d. destruct x as [xn xd]. simpl. rewrite (Qmake_Qdiv (Z.abs xn) xd).
    reflexivity. }
  set (e := (Z.log2 n - Z.log2 d)%Z).
  assert (He : 2 ^ e == 2 ^ Z.log2 n / 2 ^ Z.log2 d)
    by (unfold e; apply Qpower_minus; discriminate).
  pose proof (two_power_pos (Z.log2 n)) as PA.
  pose proof (two_power_pos (Z.log2 d)) as PB.
  set (A := 2 ^ Z.log2 n) in *. set (B := 2 ^ Z.log2 d) in *.
  assert (Pd : 0 < inject_Z d) by (apply Qlt_le_trans with (y := B); assumption).
  assert (Hup : Qabs x < 2 ^ e * 2).
  { rewrite Habs, He. apply Qlt_shift_div_r; [exact Pd |].
    setoid_replace (A / B * 2 * inject_Z d) with (2 * A * inject_Z d / B) by field;
      [| intros E; rewrite E in PB; discriminate PB].
    apply Qlt_shift_div_l; [exact PB |]. nra. }
  assert (Hlow : 2 ^ e / 2 <= Qabs x).
  { rewrite Habs, He. apply Qle_shift_div_l; [exact Pd |].
    setoid_replace (A / B / 2 * inject_Z d) with (A * inject_Z d / (2 * B)) by field;
      [| intros E; rewrite E in PB; discriminate PB].
    apply Qle_shift_div_r; [nra |]. nra. }
  destruct (Qle_bool (2 ^ e) (Qabs x)) eqn:E.
  - apply Qle_bool_iff in E. split; [exact E |]. rewrite two_power_succ. exact Hup.
  - split.
    + rewrite two_power_pred. exact Hlow.
    + replace (e - 1 + 1)%Z with e by lia. apply Qnot_le_lt. intros H.
      apply Qle_bool_iff in H. rewrite H in E. discriminate.
Qed.

Lemma binade_unique (x : Q) (e : Z) :
  2 ^ e <= Qabs x -> Qabs x < 2 ^ (e + 1) -> ~ x == 0 -> binade x = e.
Proof.
  intros Hlo Hhi Hx. destruct (binade_spec x Hx) as [Blo Bhi].
  assert (H1 : (e < binade x + 1)%Z).
  { apply (Qpower_lt_compat_l_inv 2); [| reflexivity].
    apply Qle_lt_trans with (y := Qabs x); assumption. }
  assert (H2 : (binade x < e + 1)%Z).
  { apply (Qpower_lt_compat_l_inv 2); [| reflexivity].
    apply Qle_lt_trans with (y := Qabs x); assumption. }
  lia.
Qed.

Lemma binade_comp (x y : Q) : x == y -> ~ x == 0 -> binade x = binade y.
Proof.
  intros H Hx. symmetry. destruct (binade_spec x Hx) as [Blo Bhi].
  apply binade_unique; [rewrite <- H; exact Blo | rewrite <- H; exact Bhi |].
  intros E. apply Hx. rewrite H. exact E.
Qed.

(** The rounding functions do not see how a rational is written. *)
Lemma py_round_comp (x y : Q) : x == y -> py_round x = py_round y.
Proof.
  intros H. unfold py_round. rewrite (Qfloor_comp _ _ H).
  assert (E : x - inject_Z (Qfloor y) == y - inject_Z (Qfloor y)) by (rewrite H; reflexivity).
  rewrite (Qcompare_comp _ _ E _ _ (Qeq_refl (1 # 2))). reflexivity.
Qed.

Lemma round_double_comp (x y : Q) : x == y -> round_double x = round_double y.
Proof.
  intros H. unfold round_double.
  destruct (Qeq_bool x 0) eqn:Ex.
  - apply Qeq_bool_eq in Ex. assert (Ey : Qeq_bool y 0 = true).
    { apply Qeq_eq_bool. rewrite <- H. exact Ex. }
    rewrite Ey. reflexivity.
  - assert (Hx : ~ x == 0) by (apply Qeq_bool_neq; exact Ex).
    assert (Ey : Qeq_bool y 0 = false).
    { destruct (Qeq_bool y 0) eqn:E; [| reflexivity].
      apply Qeq_bool_eq in E. exfalso. apply Hx. rewrite H. exact E. }
    rewrite Ey. cbv zeta. rewrite <- (binade_comp x y H Hx).
    rewrite (py_round_comp (x / 2 ^ (binade x - 52)) (y / 2 ^ (binade x - 52)));
      [reflexivity | apply Qdiv_comp; [exact H | reflexivity]].
Qed.

(** Halving is exact. *)
Lemma binade_half (x : Q) : ~ x == 0 -> binade (x / 2) = (binade x - 1)%Z.
Proof.
  intros Hx. destruct (binade_spec x Hx) as [Blo Bhi].
  assert (Habs : Qabs (x / 2) == Qabs x / 2).
  { exact (Qabs_Qmult x (/ 2)). }
  apply binade_unique.
  - rewrite Habs, two_power_pred. apply Qle_shift_div_l; [reflexivity |].
    setoid_replace (2 ^ binade x / 2 * 2) with (2 ^ binade x) by field. exact Blo.
  - rewrite Habs. replace (binade x - 1 + 1)%Z with (binade x) by lia.
    apply Qlt_shift_div_r; [reflexivity |].
    rewrite two_power_succ in Bhi.
    apply Qlt_le_trans with (y := 2 ^ binade x * 2); [exact Bhi |].
    pose proof (two_power_pos (binade x)). nra.
  - intros E. apply Hx. setoid_replace x with (x / 2 * 2) by field. rewrite E. reflexivity.
Qed.

Lemma round_double_half (x : Q) : round_double (x / 2) == round_double x / 2.
Proof.
  unfold round_double. destruct (Qeq_bool x 0) eqn:Ex.
  - apply Qeq_bool_eq in Ex.
    assert (E2 : Qeq_bool (x / 2) 0 = true) by (apply Qeq_eq_bool; rewrite Ex; reflexivity).
    rewrite E2. reflexivity.
  - assert (Hx : ~ x == 0) by (apply Qeq_bool_neq; exact Ex).
    assert (E2 : Qeq_bool (x / 2) 0 = false).
    { destruct (Qeq_bool (x / 2) 0) eqn:E; [| reflexivity].
      apply Qeq_bool_eq in E. exfalso. apply Hx.
      setoid_replace x with (x / 2 * 2) by field. rewrite E. reflexivity. }
    rewrite E2. cbv zeta. rewrite (binade_half x Hx).
    replace (binade x - 1 - 52)%Z with (binade x - 52 - 1)%Z by lia.
    pose proof (two_power_pos (binade x - 52)) as Hp.
    rewrite (py_round_comp (x / 2 / 2 ^ (binade x - 52 - 1)) (x / 2 ^ (binade x - 52))).
    + rewrite two_power_pred. field.
    + rewrite two_power_pred. field. intros E. rewrite E in Hp. discriminate Hp.
Qed.

Lemma round_double_nonneg (x : Q) : 0 <= x -> 0 <= round_double x.
Proof.
  intros Hx. unfold round_double. destruct (Qeq_bool x 0); [discriminate |].
  cbv zeta. pose proof (two_power_pos (binade x - 52)) as Hp.
  apply Qmult_le_0_compat; [| apply Qlt_le_weak; exact Hp].
  change 0 with (inject_Z 0). rewrite <- Zle_Qle.
  assert (H : 0 <= x / 2 ^ (binade x - 52)).
  { apply Qle_shift_div_l; [exact Hp |]. rewrite Qmult_0_l. exact Hx. }
  revert H. generalize (x / 2 ^ (binade x - 52)). intros q Hq.
  assert (Hf : (0 <= Qfloor q)%Z).
  { change 0%Z with (Qfloor 0). apply Qfloor_resp_le. exact Hq. }
  unfold py_round.
  destruct (Qcompare (q - inject_Z (Qfloor q)) (1 # 2)); [| lia | lia].
  destruct (Z.even (Qfloor q)); lia.
Qed.

Lemma py_round_inject_Z (k : Z) : py_round (inject_Z k) = k.
Proof.
  unfold py_round. rewrite Qfloor_Z.
  assert (H : inject_Z k - inject_Z k < 1 # 2).
  { setoid_replace (inject_Z k - inject_Z k) with 0 by ring. reflexivity. }
  apply Qlt_alt in H. unfold Qcompare in *. cbv zeta. rewrite H. reflexivity.
Qed.

(** A number with at most 53 significant bits is not changed by the
    rounding. *)
Lemma round_double_exact (x : Q) : is_double x -> round_double x == x.
Proof.
  intros (m & e & Hm & Hx).
  rewrite (round_double_comp x (inject_Z m * 2 ^ e) Hx), Hx. clear x Hx.
  destruct (Z.eq_dec m 0) as [-> | Hm0].
  { assert (E : inject_Z 0 * 2 ^ e == 0) by apply Qmult_0_l.
    rewrite (round_double_comp _ _ E), E. reflexivity. }
  assert (Hpos : (0 < Z.abs m)%Z) by lia.
  destruct (log2_bounds (Z.abs m) Hpos) as [Blo Bhi].
  pose proof (Z.log2_nonneg (Z.abs m)) as Hb0.
  assert (Hb52 : (Z.log2 (Z.abs m) < 53)%Z) by (apply Z.log2_lt_pow2; lia).
  set (b := Z.log2 (Z.abs m)) in *.
  pose proof (two_power_pos e) as Pe.
  assert (Hne : ~ inject_Z m * 2 ^ e == 0).
  { intros E. apply Qmult_integral in E. destruct E as [E | E].
    - apply Hm0. unfold Qeq in E. simpl in E. lia.
    - rewrite E in Pe. discriminate Pe. }
  assert (Habs : Qabs (inject_Z m * 2 ^ e) == inject_Z (Z.abs m) * 2 ^ e).
  { rewrite Qabs_Qmult. rewrite (Qabs_pos (2 ^ e)) by (apply Qlt_le_weak; exact Pe).
    destruct m; reflexivity. }
  assert (Hbin : binade (inject_Z m * 2 ^ e) = (b + e)%Z).
  { apply binade_unique; [| | exact Hne]; rewrite Habs.
    - rewrite Qpower_plus by discriminate.
      apply Qmult_le_compat_r; [exact Blo | apply Qlt_le_weak; exact Pe].
    - rewrite two_power_succ, Qpower_plus by discriminate.
      setoid_replace (2 ^ b * 2 ^ e * 2) with (2 ^ b * 2 * 2 ^ e) by ring.
      apply Qmult_lt_compat_r; [exact Pe | exact Bhi]. }
  unfold round_double.
  assert (E0 : Qeq_bool (inject_Z m * 2 ^ e) 0 = false).
  { destruct (Qeq_bool (inject_Z m * 2 ^ e) 0) eqn:E; [| reflexivity].
    apply Qeq_bool_eq in E. contradiction. }
  rewrite E0. cbv zeta. rewrite Hbin.
  assert (Hp : 2 ^ (52 - b) * 2 ^ (b + e - 52) == 2 ^ e).
  { rewrite <- Qpower_plus by discriminate.
    replace (52 - b + (b + e - 52))%Z with e by lia. reflexivity. }
  assert (Hz : inject_Z (m * 2 ^ (52 - b)) == inject_Z m * 2 ^ (52 - b)).
  { rewrite inject_Z_mult, Zpower_Qpower by lia. reflexivity. }
  pose proof (two_power_nonzero (b + e - 52)) as Pu.
  assert (Hq : inject_Z m * 2 ^ e / 2 ^ (b + e - 52) == inject_Z (m * 2 ^ (52 - b))).
  { rewrite Hz, <- Hp. field. exact Pu. }
  rewrite (py_round_comp _ _ Hq), py_round_inject_Z.
  rewrite Hz, <- Qmult_assoc, Hp. reflexivity.
Qed.

(** A single-precision density, which is what a float property of the
    host holds, has an exact product with 1000. *)
Lemma single_precision_product (m e : Z) :
  (Z.abs m < 2 ^ 24)%Z -> is_double (1000 * (inject_Z m * 2 ^ e)).
Proof.
  intros Hm. exists (1000 * m)%Z, e. split; [lia |].
  rewrite inject_Z_mult. change (inject_Z 1000) with 1000. ring.
Qed.

(** When the product is exact the count is the one of exact
    arithmetic. *)
Lemma star_count_exact (density : Q) (hemi : bool) :
  is_double (1000 * density) ->
  star_count density hemi
  = (if hemi then py_round (1000 * density / 2) else py_round (1000 * density)).
Proof.
  intros Hd. pose proof (round_double_exact _ Hd) as He.
  unfold star_count, float_mul, float_div. cbv zeta. destruct hemi.
  - apply py_round_comp. rewrite round_double_half.
    rewrite (round_double_comp _ _ He), He. reflexivity.
  - apply py_round_comp. exact He.
Qed.

Local Close Scope Q_scope.

(** ** The variadic wiring helper *)

Lemma clean_ret {S A : Type} (a : A) : clean (@ret S A a).
Proof. intros s r s' H. inversion H. exact I. Qed.

Lemma clean_bind {S A B : Type} (m : M S A) (k : A -> M S B) :
  clean m -> (forall a, clean (k a)) -> clean (bind m k).
Proof.
  intros Hm Hk s r s' H. unfold bind in H.
  destruct (m s) as [[a | e] s1] eqn:E.
  - exact (Hk a _ _ _ H).
  - inversion H; subst. exact (Hm _ _ _ E).
Qed.

Lemma clean_from_option {S A : Type} (e : exn) (o : option A) :
  not_exception (@Raises A e) -> clean (@from_option S A e o).
Proof.
  intros He s r s' H. destruct o; inversion H; subst; [exact I | exact He].
Qed.

Lemma clean_modify {S : Type} (f : S -> S) : clean (modify f).
Proof. intros s r s' H. inversion H. exact I. Qed.

Lemma clean_for_each {S A : Type} (xs : list A) (body : A -> M S unit) :
  (forall x, clean (body x)) -> clean (for_each xs body).
Proof.
  intros Hb. induction xs as [| x xs IH]; simpl.
  - apply clean_ret.
  - apply clean_bind; [apply Hb | intros _; exact IH].
Qed.

Lemma clean_get_node (node : nat) : clean (get_node node).
Proof.
  intros t r t' H. unfold get_node in H.
  exact (clean_from_option RuntimeError _ I _ _ _ H).
Qed.

Lemma clean_node_socket (side : Node -> list Socket) (node : nat) (k : key) :
  clean (n <- get_node node ;;
         i <- from_option (lookup_error k) (find_socket k (side n)) ;;
         ret (node, i)).
Proof.
  apply clean_bind; [apply clean_get_node | intros n].
  apply clean_bind; [| intros i; apply clean_ret].
  apply clean_from_option. destruct k; exact I.
Qed.

Lemma clean_as_node (v : pyval) : clean (as_node v).
Proof. intros t r t' H. destruct v; inversion H; exact I. Qed.

Lemma clean_as_key (v : pyval) : clean (as_key v).
Proof. intros t r t' H. destruct v; inversion H; exact I. Qed.

(** Once the arity test has passed, the loop of [connect_nodes] can only
    stop on an error of the host. *)
Lemma clean_connect_loop (args : list pyval) (steps : list nat) :
  clean (for_each steps (connect_link args)).
Proof.
  apply clean_for_each. intros i. unfold connect_link.
  repeat (apply clean_bind;
          [first [ apply clean_from_option; exact I
                 | apply clean_as_node
                 | apply clean_as_key
                 | apply (clean_node_socket inputs)
                 | apply (clean_node_socket outputs) ]
          | intros ?]).
  apply clean_modify.
Qed.

Lemma connect_step (args : list pyval) (t : NodeTree) (i : nat) (l : Link) :
  requested_link t args i = Some l ->
  connect_link args i t = (Returns tt, add_link l t).
Proof.
  unfold requested_link, and_then. intros H.
  destruct (nth_error args (3 * i)) as [[a | |] |] eqn:Ea; try discriminate.
  cbn [node_of] in H.
  destruct (nth_error args (3 * (i + 1))) as [[b | |] |] eqn:Eb; try discriminate.
  cbn [node_of] in H.
  destruct (nth_error args (3 * i + 1)) as [output |] eqn:Eo; try discriminate.
  destruct (key_of output) as [ko |] eqn:Eko; try discriminate.
  destruct (nth_error args (3 * i + 2)) as [input |] eqn:Ei; try discriminate.
  destruct (key_of input) as [ki |] eqn:Eki; try discriminate.
  destruct (nth_error (nodes t) a) as [node_a |] eqn:Ena; try discriminate.
  destruct (nth_error (nodes t) b) as [node_b |] eqn:Enb; try discriminate.
  destruct (find_socket ko (outputs node_a)) as [so |] eqn:Eso; try discriminate.
  destruct (find_socket ki (inputs node_b)) as [si |] eqn:Esi; try discriminate.
  inversion H; subst l. clear H.
  unfold connect_link, bind, item. rewrite Ea, Eb, Eo, Ei. cbn [from_option ret as_node].
  assert (Ki : as_key input t = (Returns ki, t))
    by (destruct input; inversion Eki; reflexivity).
  assert (Ko : as_key output t = (Returns ko, t))
    by (destruct output; inversion Eko; reflexivity).
  rewrite Ki. unfold node_input, node_output, bind, get_node.
  rewrite Enb. cbn [from_option ret]. rewrite Esi. cbn [from_option ret].
  rewrite Ko, Ena. cbn [from_option ret]. rewrite Eso. reflexivity.
Qed.

Lemma connect_loop_links (args : list pyval) (steps : list nat) :
  forall t t',
    link_chain t args steps = Some t' ->
    for_each steps (connect_link args) t = (Returns tt, t').
Proof.
  induction steps as [| i rest IH]; intros t t' H; simpl in H.
  - inversion H. reflexivity.
  - unfold and_then in H.
    destruct (requested_link t args i) as [l |] eqn:El; [| discriminate].
    cbn [for_each]. unfold bind at 1. rewrite (connect_step args t i l El).
    apply IH. exact H.
Qed.

Lemma arity_test (argc : Z) :
  ((argc <? 4)%Z || negb (((argc - 4) mod 3 =? 0)%Z))%bool = true <-> arity_fails argc.
Proof.
  unfold arity_fails. rewrite orb_true_iff, Z.ltb_lt, negb_true_iff, Z.eqb_neq.
  tauto.
Qed.

(** C7 (as stated) fails: one variadic argument satisfies
    [(argc - 4) mod 3 = 0] in Python's arithmetic, and [connect_nodes]
    raises. *)
Lemma connect_nodes_one_argument :
  ((Z.of_nat (List.length [PyNode 0]) - 4) mod 3 = 0)%Z /\
  connect_nodes [PyNode 0] (mkNodeTree "tree" [] [] [])
  = (Raises (Exception "Invalid number of arguments!"), mkNodeTree "tree" [] [] []).
Proof. split; reflexivity. Qed.

(** C7 (amended): [connect_nodes] raises its exception exactly when
    [argc < 4] or [(argc - 4) mod 3 <> 0]; the tree is then untouched (no
    link precedes the exception).  When the arity is accepted it makes
    the [(argc - 1) / 3] links of the chain, in order, and returns,
    provided the nodes and sockets named in the chain exist; the only
    failures left are lookup errors of the host. *)
Theorem connect_nodes_arity (args : list pyval) (t : NodeTree) :
  let argc := Z.of_nat (List.length args) in
  (arity_fails argc <->
   fst (connect_nodes args t) = Raises (Exception "Invalid number of arguments!")) /\
  (arity_fails argc -> snd (connect_nodes args t) = t) /\
  (~ arity_fails argc -> not_exception (fst (connect_nodes args t))) /\
  (~ arity_fails argc ->
   forall t', link_chain t args (seq 0 (range_len ((argc - 1) / 3))) = Some t' ->
              connect_nodes args t = (Returns tt, t')).
Proof.
  intros argc. unfold connect_nodes. fold argc.
  destruct ((argc <? 4)%Z || negb (((argc - 4) mod 3 =? 0)%Z))%bool eqn:E.
  - assert (Hf : arity_fails argc) by (apply arity_test; exact E).
    repeat split; try reflexivity; tauto.
  - assert (Hf : ~ arity_fails argc)
      by (rewrite <- arity_test, E; discriminate).
    pose proof (clean_connect_loop args (seq 0 (range_len ((argc - 1) / 3))) t) as Hc.
    pose proof (connect_loop_links args (seq 0 (range_len ((argc - 1) / 3))) t) as Hl.
    destruct (for_each (seq 0 (range_len ((argc - 1) / 3))) (connect_link args) t)
      as [r t1] eqn:R.
    specialize (Hc _ _ eq_refl). simpl.
    split; [split | split; [| split]].
    + intros Hbad. contradiction.
    + intros Hr. subst r. destruct Hc.
    + intros Hbad. contradiction.
    + intros _. exact Hc.
    + intros _ t' Ht'. apply Hl. exact Ht'.
Qed.

(** ** The camera test *)

Section Generation.
Context {gen : PRNG}.

(** C2: without a perspective camera [generate_starscape] returns
    [False] without raising, and the session it leaves is the session it
    found: meshes, objects, materials, node groups, constraints, drivers,
    world and generator state are all unchanged. *)
Theorem generate_without_camera (props : Props) (s : Session gen) :
  no_perspective_camera s ->
  generate_starscape props s = (Returns false, s).
Proof.
  intros [Hnone | (camera & o & cam & Hcam & Hobj & Hdata & Htype)];
    unfold generate_starscape, bind, gets.
  - rewrite Hnone. reflexivity.
  - rewrite Hcam. unfold data_type, bind, get_object.
    rewrite Hobj. simpl. rewrite Hdata. simpl.
    apply String.eqb_neq in Htype. rewrite Htype. reflexivity.
Qed.

(** ** Star positions *)

Lemma star_at_shift (hemi : bool) (g : rng_state) (i : nat) :
  star_at hemi g (S i)
  = star_at hemi (snd (rng_random (snd (rng_random g)))) i.
Proof.
  unfold star_at, draw.
  replace (2 * S i)%nat with (S (S (2 * i))) by lia.
  replace (2 * i + 1)%nat with (S (2 * i)) by lia.
  replace (S (S (2 * i)) + 1)%nat with (S (S (S (2 * i)))) by lia.
  reflexivity.
Qed.

(** The loop appends to [vertices] the stars of the stream that starts
    at the current generator state, and moves the generator by two draws
    per star; nothing else in the session changes. *)
Lemma star_loop_stream (n : nat) (hemi : bool) :
  forall (vertices : list vec3) (s : Session gen),
    star_loop n hemi vertices s
    = (Returns (vertices ++ map (star_at hemi (random_state s)) (seq 0 n)),
       set_random_state (advance (random_state s) (2 * n)) s).
Proof.
  induction n as [| n IH]; intros vertices s.
  - simpl. rewrite app_nil_r. destruct s; reflexivity.
  - cbn [star_loop].
    unfold bind at 1. unfold random_spherical_coordinates, bind, random_random, ret.
    destruct (rng_random (random_state s)) as [u1 g1] eqn:E1.
    cbn [random_state set_random_state].
    destruct (rng_random g1) as [u2 g2] eqn:E2.
    cbn [fst snd].
    assert (H0 : star_at hemi (random_state s) 0
                 = (let '(x, y, z) :=
                      spherical_to_cartesian_coordinates 1 (u1 * 2 * PI)
                        (asin (2 * u2 - 1)) in
                    (x, y, if hemi then Rabs z else z))).
    { unfold star_at, draw. cbn [advance Nat.mul Nat.add].
      rewrite E1. cbn [fst snd]. rewrite E2. reflexivity. }
    destruct (spherical_to_cartesian_coordinates 1 (u1 * 2 * PI) (asin (2 * u2 - 1)))
      as [[x y] z] eqn:Ec.
    rewrite IH. cbn [random_state set_random_state].
    f_equal.
    + f_equal. rewrite <- app_assoc. f_equal.
      cbn [seq map]. rewrite H0. f_equal.
      rewrite <- seq_shift, map_map. cbn [app]. f_equal. symmetry.
      apply map_ext. intros i. rewrite star_at_shift, E1. cbn [snd].
      rewrite E2. reflexivity.
    + replace (2 * S n)%nat with (S (S (2 * n))) by lia.
      cbn [advance]. rewrite E1. cbn [snd]. rewrite E2. reflexivity.
Qed.

(** The whole stage: seeding, then the loop. *)
Lemma star_positions_stream (props : Props) (s : Session gen) :
  let n := range_len (star_count (star_density props) (hemisphere props)) in
  let g := rng_seed (random_seed props) in
  star_positions props s
  = (Returns (map (star_at (hemisphere props) g) (seq 0 n)),
     set_random_state (advance g (2 * n)) s).
Proof.
  intros n g. unfold star_positions, bind, random_seed_call, modify.
  rewrite star_loop_stream. cbn [random_state set_random_state app].
  unfold n, star_count, g. destruct (hemisphere props); reflexivity.
Qed.

Lemma py_round_nonneg (x : Q) : (0 <= x)%Q -> (0 <= py_round x)%Z.
Proof.
  intros Hx. assert (Hf : (0 <= Qfloor x)%Z).
  { change 0%Z with (Qfloor 0). apply Qfloor_resp_le. exact Hx. }
  unfold py_round.
  destruct (Qcompare (x - inject_Z (Qfloor x)) (1 # 2)); [| lia | lia].
  destruct (Z.even (Qfloor x)); lia.
Qed.

Lemma star_count_nonneg (density : Q) (hemi : bool) :
  (0 <= density)%Q -> (0 <= star_count density hemi)%Z.
Proof.
  intros Hd. unfold star_count, float_mul, float_div. cbv zeta.
  assert (H1 : (0 <= round_double (1000 * density))%Q).
  { apply round_double_nonneg. apply Qmult_le_0_compat; [discriminate | exact Hd]. }
  destruct hemi; apply py_round_nonneg; [| exact H1].
  apply round_double_nonneg.
  apply Qle_shift_div_l; [reflexivity |]. rewrite Qmult_0_l. exact H1.
Qed.

(** C3 (amended): for every [star_density >= 0] whose product with 1000
    is exact in float arithmetic (it has at most 53 significant bits, as
    for every single-precision density) the run produces
    [round(1000 * star_density)] positions without the hemisphere
    option and [round(1000 * star_density / 2)] positions with it (the
    product is halved first and rounded once); a density of 2 without
    the option gives 2000 positions. *)
Theorem star_positions_count (props : Props) (s : Session gen) :
  (0 <= star_density props)%Q ->
  is_double (1000 * star_density props) ->
  exists vs s',
    star_positions props s = (Returns vs, s') /\
    Z.of_nat (List.length vs)
    = (if hemisphere props then py_round (1000 * star_density props / 2)
       else py_round (1000 * star_density props)) /\
    (star_density props = 2%Q -> hemisphere props = false ->
     List.length vs = 2000%nat).
Proof.
  intros Hd Hexact. rewrite star_positions_stream.
  eexists. eexists. split; [reflexivity |].
  rewrite length_map, length_seq. unfold range_len. split.
  - rewrite Z2Nat.id by (apply star_count_nonneg; exact Hd).
    apply star_count_exact. exact Hexact.
  - intros H2 Hh. rewrite H2, Hh. reflexivity.
Qed.

(** C4: the positions depend on the seed, the density and the hemisphere
    flag only.  Two runs that agree on these give the same sequence,
    whatever the sessions they start from (the generator is re-seeded),
    and star [i] of the sequence is made of draws [2i] and [2i+1] of the
    one stream seeded with [random_seed]. *)
Theorem star_positions_deterministic (props1 props2 : Props)
    (s1 s2 : Session gen) :
  random_seed props1 = random_seed props2 ->
  star_density props1 = star_density props2 ->
  hemisphere props1 = hemisphere props2 ->
  fst (star_positions props1 s1) = fst (star_positions props2 s2) /\
  fst (star_positions props1 s1)
  = Returns (map (star_at (hemisphere props1) (rng_seed (random_seed props1)))
               (seq 0 (range_len
                  (star_count (star_density props1) (hemisphere props1))))).
Proof.
  intros Hseed Hdensity Hhemi.
  rewrite !star_positions_stream. cbn [fst].
  rewrite Hseed, Hdensity, Hhemi. split; reflexivity.
Qed.

Lemma star_at_on_unit_sphere (hemi : bool) (g : rng_state) (i : nat) :
  on_unit_sphere (star_at hemi g i).
Proof.
  unfold star_at, spherical_to_cartesian_coordinates, on_unit_sphere.
  set (phi := (draw g (2 * i) * 2 * PI)%R).
  set (theta := asin (2 * draw g (2 * i + 1) - 1)).
  pose proof (sin2_cos2 phi) as Hphi.
  pose proof (sin2_cos2 theta) as Htheta.
  unfold Rsqr in Hphi, Htheta.
  assert (Hz : forall z : R,
    ((if hemi then Rabs z else z) * (if hemi then Rabs z else z) = z * z)%R).
  { intros z. destruct hemi; [| reflexivity].
    pose proof (Rsqr_abs z) as Ha. unfold Rsqr in Ha. symmetry. exact Ha. }
  rewrite Hz.
  replace (1 * cos phi * cos theta * (1 * cos phi * cos theta)
           + 1 * sin phi * cos theta * (1 * sin phi * cos theta)
           + 1 * sin theta * (1 * sin theta))%R
    with ((sin phi * sin phi + cos phi * cos phi) * (cos theta * cos theta)
          + sin theta * sin theta)%R by ring.
  rewrite Hphi. lra.
Qed.

(** C9: the stage returns, and every position it returns satisfies
    [x * x + y * y + z * z = 1] in real arithmetic, with or without the
    hemisphere option. *)
Theorem stars_on_unit_sphere (props : Props) (s : Session gen) :
  exists vs s',
    star_positions props s = (Returns vs, s') /\ Forall on_unit_sphere vs.
Proof.
  rewrite star_positions_stream.
  eexists. eexists. split; [reflexivity |].
  apply Forall_forall. intros p Hp. apply in_map_iff in Hp.
  destruct Hp as (i & <- & _). apply star_at_on_unit_sphere.
Qed.

(** ** What a stage leaves alone *)

Lemma preserves_ret {S A V : Type} (view : S -> V) (a : A) :
  preserves view (ret a).
Proof. intros s r s' H. inversion H. reflexivity. Qed.

Lemma preserves_raise {S A V : Type} (view : S -> V) (e : exn) :
  preserves view (@raise S A e).
Proof. intros s r s' H. inversion H. reflexivity. Qed.

Lemma preserves_gets {S A V : Type} (view : S -> V) (f : S -> A) :
  preserves view (gets f).
Proof. intros s r s' H. inversion H. reflexivity. Qed.

Lemma preserves_from_option {S A V : Type} (view : S -> V) (e : exn) (o : S -> option A) :
  preserves view (fun s => from_option e (o s) s).
Proof. intros s r s' H. destruct (o s); inversion H; reflexivity. Qed.

Lemma preserves_modify {S V : Type} (view : S -> V) (f : S -> S) :
  (forall s, view (f s) = view s) -> preserves view (modify f).
Proof. intros Hf s r s' H. inversion H. apply Hf. Qed.

Lemma preserves_bind {S A B V : Type} (view : S -> V) (m : M S A) (k : A -> M S B) :
  preserves view m -> (forall a, preserves view (k a)) -> preserves view (bind m k).
Proof.
  intros Hm Hk s r s' H. unfold bind in H.
  destruct (m s) as [[a | e] s1] eqn:E.
  - rewrite (Hk a _ _ _ H). exact (Hm _ _ _ E).
  - inversion H; subst. exact (Hm _ _ _ E).
Qed.

Lemma preserves_try {S A V : Type} (view : S -> V) (m h : M S A) :
  preserves view m -> preserves view h -> preserves view (try_except_KeyError m h).
Proof.
  intros Hm Hh s r s' H. unfold try_except_KeyError in H.
  destruct (m s) as [[a | e] s1] eqn:E.
  - inversion H; subst. exact (Hm _ _ _ E).
  - destruct e; try (inversion H; subst; exact (Hm _ _ _ E)).
    rewrite (Hh _ _ _ H). exact (Hm _ _ _ E).
Qed.

Lemma preserves_for_each {S A V : Type} (view : S -> V) (xs : list A)
    (body : A -> M S unit) :
  (forall x, preserves view (body x)) -> preserves view (for_each xs body).
Proof.
  intros Hb. induction xs as [| x xs IH]; simpl.
  - apply preserves_ret.
  - apply preserves_bind; [apply Hb | intros _; exact IH].
Qed.

Lemma preserves_zoom {S T A V : Type} (view : S -> V) (get : S -> option T)
    (put : T -> S -> S) (m : M T A) :
  (forall t s, view (put t s) = view s) -> preserves view (zoom get put m).
Proof.
  intros Hput s r s' H. unfold zoom in H.
  destruct (get s) as [t |]; [| inversion H; reflexivity].
  destruct (m t) as [r1 t']. inversion H. apply Hput.
Qed.

Lemma map_update {A B : Type} (g : A -> B) (f : A -> A) (i : nat) (l : list A) :
  (forall x, g (f x) = g x) -> map g (update i f l) = map g l.
Proof.
  intros Hf. revert i. induction l as [| x l IH]; intros i; [reflexivity |].
  destruct i; simpl; [rewrite Hf | rewrite IH]; reflexivity.
Qed.

Lemma nth_error_update {A : Type} (f : A -> A) (i : nat) (l : list A) (x : A) :
  nth_error l i = Some x -> nth_error (update i f l) i = Some (f x).
Proof.
  revert i. induction l as [| y l IH]; intros i H; destruct i; simpl in *;
    try discriminate.
  - inversion H. reflexivity.
  - apply IH. exact H.
Qed.

(** The primitives of the session, by what they touch. *)

Lemma preserves_object_set {V : Type} (view : Session gen -> V) (obj : nat)
    (f : Object -> Object) :
  (forall s, view (set_objects (update obj f) s) = view s) ->
  preserves view (object_set obj f).
Proof. intros H. apply preserves_modify. exact H. Qed.

Lemma preserves_get_object {V : Type} (view : Session gen -> V) (obj : nat) :
  preserves view (get_object obj).
Proof. apply (preserves_from_option view RuntimeError). Qed.

Lemma preserves_lookup {A V : Type} (view : Session gen -> V) (name_of : A -> string)
    (registry : Session gen -> list A) (name : string) :
  preserves view (lookup name_of registry name).
Proof. apply (preserves_from_option view KeyError). Qed.

Lemma preserves_group_interface {V : Type} (view : Session gen -> V) (group : nat) :
  preserves view (group_interface group).
Proof. apply (preserves_from_option view RuntimeError). Qed.

Lemma preserves_data_id_data {V : Type} (view : Session gen -> V) (obj : nat) :
  preserves view (data_id_data obj).
Proof.
  apply preserves_bind; [apply preserves_get_object | intros o].
  destruct (data o); first [apply preserves_ret | apply preserves_raise].
Qed.

Lemma objects_core_update (obj : nat) (f : Object -> Object) (s : Session gen) :
  (forall o, object_core (f o) = object_core o) ->
  objects_core (set_objects (update obj f) s) = objects_core s.
Proof. intros H. unfold objects_core. simpl. apply map_update. exact H. Qed.

Lemma driver_add_frame {V : Type} (view : Session gen -> V) (obj : nat)
    (path : string) :
  object_blind object_core view -> preserves view (driver_add obj path).
Proof.
  intros [Hv _]. unfold driver_add.
  apply preserves_bind; [apply preserves_get_object | intros o].
  destruct (driver_curves path [0; 1; 2]%nat (drivers o)) as [curves handles].
  apply preserves_bind; [| intros; apply preserves_ret].
  apply preserves_object_set. intros s. apply Hv. intros []; reflexivity.
Qed.

Lemma fcurve_set_frame {V : Type} (view : Session gen -> V) (obj fcurve : nat)
    (f : FCurve -> FCurve) :
  object_blind object_core view -> preserves view (fcurve_set obj fcurve f).
Proof.
  intros [Hv _]. apply preserves_object_set. intros s. apply Hv.
  intros []; reflexivity.
Qed.

Lemma install_drivers_frame {V : Type} (view : Session gen -> V)
    (stars_obj template_obj camera : nat) :
  object_blind object_core view ->
  preserves view (install_drivers stars_obj template_obj camera).
Proof.
  intros Hv. unfold install_drivers.
  repeat first
    [ apply driver_add_frame; exact Hv
    | apply fcurve_set_frame; exact Hv
    | apply preserves_data_id_data
    | apply preserves_for_each; intros ?
    | apply preserves_bind; [| intros ?] ].
Qed.

Lemma world_set_frame {V : Type} (view : Session gen -> V) (f : World -> World) :
  (forall w s, view (set_world w s) = view s) -> preserves view (world_set f).
Proof.
  intros Hw s r s' H. unfold world_set in H.
  destruct (world s); inversion H; [apply Hw | reflexivity].
Qed.

Lemma bind_scene_frame {V : Type} (view : Session gen -> V) (props : Props)
    (stars_obj template_obj : nat) :
  object_blind object_core view ->
  preserves view (bind_scene props stars_obj template_obj).
Proof.
  intros [Hv Hw]. unfold bind_scene.
  repeat (apply preserves_bind;
          [apply preserves_object_set; intros s; apply Hv;
           intros []; reflexivity | intros ?]).
  destruct (clear_world_bg props); [| apply preserves_ret].
  apply preserves_bind; [| intros ?]; apply world_set_frame; exact Hw.
Qed.

Lemma install_constraint_frame {V : Type} (view : Session gen -> V) (props : Props)
    (stars_obj camera : nat) :
  object_blind (fun o => (obj_name o, data o)) view ->
  preserves view (install_constraint props stars_obj camera).
Proof.
  intros [Hv _]. unfold install_constraint, constraints_clear, constraints_new,
    constraint_set_target.
  apply preserves_bind;
    [apply preserves_object_set; intros s; apply Hv; intros []; reflexivity
    | intros ?].
  destruct (camera_lock props); [| apply preserves_ret].
  apply preserves_bind; [| intros ?].
  - apply preserves_bind; [apply preserves_get_object | intros o].
    apply preserves_bind; [| intros ?; apply preserves_ret].
    apply preserves_object_set; intros s; apply Hv; intros []; reflexivity.
  - apply preserves_object_set; intros s; apply Hv; intros []; reflexivity.
Qed.

Lemma objects_core_blind : object_blind object_core objects_core.
Proof. split; [intros; apply objects_core_update; assumption | reflexivity]. Qed.

Lemma field_blind {C V : Type} (core : Object -> C) (view : Session gen -> V) :
  (forall f s, view (set_objects f s) = view s) ->
  (forall w s, view (set_world w s) = view s) ->
  object_blind core view.
Proof. intros Ho Hw. split; [intros; apply Ho | exact Hw]. Qed.

Lemma bind_returns {S A B : Type} (m : M S A) (k : A -> M S B) (s s' : S) (b : B) :
  bind m k s = (Returns b, s') ->
  exists a s1, m s = (Returns a, s1) /\ k a s1 = (Returns b, s').
Proof.
  unfold bind. destruct (m s) as [[a | e] s1]; intros H; [| discriminate].
  exists a, s1. split; [reflexivity | exact H].
Qed.

Lemma from_pydata_frame {V : Type} (view : Session gen -> V) (obj : nat)
    (vs : list vec3) (es : list (nat * nat)) (fs : list (list nat)) :
  (forall f s, view (set_meshes f s) = view s) ->
  preserves view (from_pydata obj vs es fs).
Proof.
  intros Hv. unfold from_pydata.
  apply preserves_bind; [apply preserves_get_object | intros o].
  destruct (data o); try apply preserves_raise.
  apply preserves_modify. intros s. apply Hv.
Qed.

Lemma on_tree_frame {A V : Type} (view : Session gen -> V) (r : TreeRef)
    (m : M NodeTree A) :
  shader_blind view -> preserves view (on_tree r m).
Proof.
  intros [Hm Hg]. apply preserves_zoom. intros t s.
  destruct r; [apply Hm | apply Hg].
Qed.

Lemma materials_new_frame {V : Type} (view : Session gen -> V) (name : string) :
  shader_blind view -> preserves view (materials_new name).
Proof. intros [Hm _] s r s' H. inversion H. apply Hm. Qed.

Lemma node_groups_new_frame {V : Type} (view : Session gen -> V) (name type : string) :
  shader_blind view -> preserves view (node_groups_new name type).
Proof. intros [_ Hg] s r s' H. inversion H. apply Hg. Qed.

Lemma make_group_node_in_frame {V : Type} (view : Session gen -> V) (nodes : TreeRef)
    (group : nat) (x y : Z) :
  shader_blind view -> preserves view (make_group_node_in nodes group x y).
Proof.
  intros Hv. apply preserves_bind; [apply preserves_group_interface | intros iface].
  apply on_tree_frame. exact Hv.
Qed.

Lemma build_shader_frame {V : Type} (view : Session gen -> V) (props : Props) :
  shader_blind view -> preserves view (build_shader props).
Proof.
  intros Hv. unfold build_shader.
  repeat first
    [ apply on_tree_frame; exact Hv
    | apply make_group_node_in_frame; exact Hv
    | apply node_groups_new_frame; exact Hv
    | apply materials_new_frame; exact Hv
    | apply preserves_lookup
    | apply preserves_try
    | apply preserves_modify; intros ?; apply Hv
    | apply preserves_bind; [| intros ?] ].
Qed.

(** ** Lookups by name *)

Lemma index_where_app_some {A : Type} (p : A -> bool) (l tail : list A) (i : nat) :
  index_where p l = Some i -> index_where p (l ++ tail) = Some i.
Proof.
  revert i. induction l as [| x l IH]; intros i H; simpl in *; [discriminate |].
  destruct (p x); [exact H |].
  destruct (index_where p l) as [j |]; [| discriminate].
  rewrite (IH j eq_refl). exact H.
Qed.

Lemma index_where_app_none {A : Type} (p : A -> bool) (l : list A) (x : A) :
  index_where p l = None ->
  index_where p (l ++ [x]) = if p x then Some (List.length l) else None.
Proof.
  induction l as [| y l IH]; intros H; simpl in *.
  - destruct (p x); reflexivity.
  - destruct (p y); [discriminate |].
    destruct (index_where p l); [discriminate |].
    rewrite (IH eq_refl). destruct (p x); reflexivity.
Qed.

Lemma index_where_nth {A : Type} (p : A -> bool) (l : list A) (i : nat) :
  index_where p l = Some i -> exists x, nth_error l i = Some x /\ p x = true.
Proof.
  revert i. induction l as [| y l IH]; intros i H; simpl in *; [discriminate |].
  destruct (p y) eqn:E.
  - inversion H. exists y. split; [reflexivity | exact E].
  - destruct (index_where p l) as [j |]; [| discriminate].
    inversion H. exact (IH j eq_refl).
Qed.

Lemma index_where_map {A B : Type} (g : A -> B) (p : B -> bool) (l : list A) :
  index_where p (map g l) = index_where (fun x => p (g x)) l.
Proof.
  induction l as [| x l IH]; simpl; [reflexivity |]. rewrite IH. reflexivity.
Qed.

Lemma unique_name_free {A : Type} (name_of : A -> string) (name : string)
    (l : list A) :
  index_where (named name_of name) l = None ->
  unique_name (map name_of l) name = name.
Proof.
  intros H. unfold unique_name.
  assert (Hm : mem name (map name_of l) = false).
  { induction l as [| x l IH]; [reflexivity |]. simpl in *.
    unfold named in H at 1. rewrite String.eqb_sym.
    destruct (name_of x =? name); [discriminate |].
    destruct (index_where (named name_of name) l); [discriminate |].
    apply IH. reflexivity. }
  rewrite Hm. reflexivity.
Qed.

(** ** [create_or_reuse_mesh_object], in one step *)

Lemma create_or_reuse_run (name : string) (s : Session gen) :
  create_or_reuse_mesh_object name s
  = let mname := (name ++ "_mesh")%string in
    let (mesh, s1) :=
      match index_where (named mesh_name mname) (meshes s) with
      | Some m => (m, set_meshes (update m (fun me => mkMesh (mesh_name me) [] [] [])) s)
      | None => (List.length (meshes s),
                 set_meshes (fun l => l ++ [mkMesh mname [] [] []]) s)
      end in
    match index_where (named obj_name name) (objects s) with
    | Some obj => (Returns obj, s1)
    | None =>
        (Returns (List.length (objects s)),
         set_collection_objects (fun l => l ++ [List.length (objects s)])
           (set_objects (fun l => l ++ [new_object name mesh]) s1))
    end.
Proof.
  unfold create_or_reuse_mesh_object, bind, try_except_KeyError, lookup.
  fold (named mesh_name (name ++ "_mesh")%string).
  fold (named obj_name name).
  destruct (index_where (named mesh_name (name ++ "_mesh")%string) (meshes s))
    as [m |] eqn:Em; cbn -[String.append];
    try rewrite (unique_name_free mesh_name _ _ Em);
    (destruct (index_where (named obj_name name) (objects s)) as [o |] eqn:Eo;
     cbn -[String.append]; [reflexivity |]);
    rewrite (unique_name_free obj_name name _ Eo); reflexivity.
Qed.

(** The object it returns is the one that the name denotes afterwards,
    and the objects that were there are still there, unchanged. *)
Lemma create_or_reuse_objects (name : string) (s : Session gen) :
  exists obj s' tail,
    create_or_reuse_mesh_object name s = (Returns obj, s') /\
    index_where (named obj_name name) (objects s') = Some obj /\
    objects s' = objects s ++ tail /\
    Forall (fun o => obj_name o = name) tail.
Proof.
  rewrite create_or_reuse_run. cbv zeta.
  destruct (index_where (named mesh_name (name ++ "_mesh")%string) (meshes s))
    as [m |];
    destruct (index_where (named obj_name name) (objects s)) as [o |] eqn:Eo.
  - exists o. eexists. exists []. rewrite app_nil_r.
    repeat split; [exact Eo | constructor].
  - eexists. eexists. eexists. split; [reflexivity |]. cbn.
    rewrite (index_where_app_none _ _ _ Eo). unfold named at 1. cbn.
    rewrite String.eqb_refl. repeat split. repeat constructor.
  - exists o. eexists. exists []. rewrite app_nil_r.
    repeat split; [exact Eo | constructor].
  - eexists. eexists. eexists. split; [reflexivity |]. cbn.
    rewrite (index_where_app_none _ _ _ Eo). unfold named at 1. cbn.
    rewrite String.eqb_refl. repeat split. repeat constructor.
Qed.

(** ** The steps of a successful call *)

Lemma generate_steps (props : Props) (s s' : Session gen) :
  generate_starscape props s = (Returns true, s') ->
  exists camera vs s1 stars_obj s2 s3 template_obj s4 s5 s6 shader s7 s8 s9,
    scene_camera s = Some camera /\
    star_positions props s = (Returns vs, s1) /\
    create_or_reuse_mesh_object "Starscape" s1 = (Returns stars_obj, s2) /\
    from_pydata stars_obj vs [] [] s2 = (Returns tt, s3) /\
    create_or_reuse_mesh_object "Star_Template" s3 = (Returns template_obj, s4) /\
    from_pydata template_obj template_vertices template_edges template_faces s4
    = (Returns tt, s5) /\
    build_shader props s5 = (Returns tt, s6) /\
    lookup material_name materials "Star Shader" s6 = (Returns shader, s6) /\
    object_set template_obj (set_active_material (Some shader)) s6
    = (Returns tt, s7) /\
    install_constraint props stars_obj camera s7 = (Returns tt, s8) /\
    install_drivers stars_obj template_obj camera s8 = (Returns tt, s9) /\
    bind_scene props stars_obj template_obj s9 = (Returns tt, s').
Proof.
  unfold generate_starscape. intros H.
  apply bind_returns in H. destruct H as (camera & s0 & Hc & H).
  inversion Hc; subst s0. clear Hc.
  destruct camera as [camera |]; [| discriminate].
  apply bind_returns in H. destruct H as (ty & s0 & Hty & H).
  assert (s0 = s).
  { unfold data_type, bind, get_object in Hty.
    destruct (nth_error (objects s) camera) as [o |]; [| discriminate].
    simpl in Hty. destruct (data o); inversion Hty; reflexivity. }
  subst s0.
  destruct (negb (ty =? "PERSP")); [discriminate |].
  apply bind_returns in H. destruct H as (vs & s1 & P1 & H).
  apply bind_returns in H. destruct H as (stars_obj & s2 & P2 & H).
  apply bind_returns in H. destruct H as ([] & s3 & P3 & H).
  apply bind_returns in H. destruct H as (template_obj & s4 & P4 & H).
  apply bind_returns in H. destruct H as ([] & s5 & P5 & H).
  apply bind_returns in H. destruct H as ([] & s6 & P6 & H).
  apply bind_returns in H. destruct H as (shader & s6' & P7 & H).
  assert (s6' = s6).
  { unfold lookup in P7.
    destruct (index_where _ _); inversion P7; reflexivity. }
  subst s6'.
  apply bind_returns in H. destruct H as ([] & s7 & P8 & H).
  apply bind_returns in H. destruct H as ([] & s8 & P9 & H).
  apply bind_returns in H. destruct H as ([] & s9 & P10 & H).
  apply bind_returns in H. destruct H as ([] & s10 & P11 & H).
  inversion H; subst s10.
  exists camera, vs, s1, stars_obj, s2, s3, template_obj, s4, s5, s6, shader,
    s7, s8, s9.
  repeat split; assumption.
Qed.

(** ** The camera-follow constraint *)

Lemma objects_id_of_core (s : Session gen) :
  objects_id s = map fst (objects_core s).
Proof. unfold objects_id, objects_core. rewrite map_map. reflexivity. Qed.

Lemma objects_id_update (obj : nat) (f : Object -> Object) (s : Session gen) :
  (forall o, object_id (f o) = object_id o) ->
  objects_id (set_objects (update obj f) s) = objects_id s.
Proof. intros H. unfold objects_id. simpl. apply map_update. exact H. Qed.

Lemma index_where_objects_id (name : string) (s : Session gen) :
  index_where (named obj_name name) (objects s)
  = index_where (fun c => fst c =? name) (objects_id s).
Proof. unfold objects_id. rewrite index_where_map. reflexivity. Qed.

Lemma install_constraint_run (props : Props) (stars_obj camera : nat)
    (s : Session gen) (o : Object) :
  nth_error (objects s) stars_obj = Some o ->
  exists s' o',
    install_constraint props stars_obj camera s = (Returns tt, s') /\
    nth_error (objects s') stars_obj = Some o' /\
    constraints o' = expected_constraints props camera /\
    objects_id s' = objects_id s /\
    meshes s' = meshes s /\ node_groups s' = node_groups s.
Proof.
  intros Ho. unfold install_constraint, expected_constraints, constraints_clear,
    constraints_new, constraint_set_target, object_set, get_object, bind, modify.
  destruct (camera_lock props).
  - cbn [objects set_objects].
    rewrite (nth_error_update _ _ _ _ Ho). cbn [from_option ret].
    eexists. eexists. split; [reflexivity |]. cbn [objects set_objects].
    split; [| split; [| split; [| split; reflexivity]]].
    + apply nth_error_update. apply nth_error_update.
      apply nth_error_update. exact Ho.
    + reflexivity.
    + rewrite !objects_id_update; (reflexivity || (intros []; reflexivity)).
  - eexists. eexists. split; [reflexivity |]. cbn [objects set_objects].
    split; [| split; [| split; [| split; reflexivity]]].
    + apply nth_error_update. exact Ho.
    + reflexivity.
    + rewrite objects_id_update; (reflexivity || (intros []; reflexivity)).
Qed.

(** C10: after a successful call the object that the name ["Starscape"]
    denotes carries exactly one constraint, a [COPY_LOCATION] whose
    target is the scene camera, when [camera_lock] is set, and no
    constraint when it is not; this holds whatever constraints the
    object had before the call. *)
Theorem camera_follow_constraint (props : Props) (s s' : Session gen) :
  generate_starscape props s = (Returns true, s') ->
  exists camera stars_obj o,
    scene_camera s = Some camera /\
    index_where (named obj_name "Starscape") (objects s') = Some stars_obj /\
    nth_error (objects s') stars_obj = Some o /\
    constraints o
    = (if camera_lock props then [mkConstraint "COPY_LOCATION" (Some camera)]
       else []).
Proof.
  intros H. apply generate_steps in H.
  destruct H as (camera & vs & s1 & stars_obj & s2 & s3 & template_obj & s4 & s5
                 & s6 & shader & s7 & s8 & s9 & Hcam & P1 & P2 & P3 & P4 & P5 & P6
                 & P7 & P8 & P9 & P10 & P11).
  exists camera, stars_obj.
  (* the star object, once created or found *)
  destruct (create_or_reuse_objects "Starscape" s1)
    as (obj0 & s2' & tail2 & E2 & Hidx2 & _ & _).
  rewrite P2 in E2. inversion E2; subst obj0 s2'. clear E2.
  assert (O3 : objects s3 = objects s2)
    by (apply (from_pydata_frame objects _ _ _ _ (fun _ _ => eq_refl) _ _ _ P3)).
  destruct (create_or_reuse_objects "Star_Template" s3)
    as (obj0 & s4' & tail4 & E4 & _ & O4 & _).
  rewrite P4 in E4. inversion E4; subst obj0 s4'. clear E4.
  assert (O5 : objects s5 = objects s4)
    by (apply (from_pydata_frame objects _ _ _ _ (fun _ _ => eq_refl) _ _ _ P5)).
  assert (O6 : objects s6 = objects s5).
  { apply (build_shader_frame objects props) with (r := Returns tt); [| exact P6].
    split; reflexivity. }
  assert (I7 : objects_id s7 = objects_id s6).
  { apply (preserves_object_set objects_id template_obj
             (set_active_material (Some shader))) with (r := Returns tt);
      [| exact P8].
    intros s0. apply objects_id_update. intros []; reflexivity. }
  assert (Hidx7 : index_where (named obj_name "Starscape") (objects s7)
                  = Some stars_obj).
  { rewrite index_where_objects_id, I7, <- index_where_objects_id.
    rewrite O6, O5, O4. apply index_where_app_some. rewrite O3. exact Hidx2. }
  destruct (index_where_nth _ _ _ Hidx7) as (o7 & Ho7 & _).
  destruct (install_constraint_run props stars_obj camera s7 o7 Ho7)
    as (s8' & o8 & E8 & Ho8 & Hc8 & I8 & _).
  rewrite P9 in E8. inversion E8; subst s8'. clear E8.
  assert (C9 : objects_core s9 = objects_core s8)
    by (exact (install_drivers_frame _ _ _ _ objects_core_blind _ _ _ P10)).
  assert (C' : objects_core s' = objects_core s9)
    by (exact (bind_scene_frame _ _ _ _ objects_core_blind _ _ _ P11)).
  rewrite C9 in C'.
  assert (Hn : nth_error (objects_core s') stars_obj = Some (object_core o8)).
  { rewrite C'. unfold objects_core. rewrite nth_error_map, Ho8. reflexivity. }
  unfold objects_core in Hn. rewrite nth_error_map in Hn.
  destruct (nth_error (objects s') stars_obj) as [o |] eqn:Ho; [| discriminate].
  exists o. split; [exact Hcam |]. split; [| split; [reflexivity |]].
  - rewrite index_where_objects_id, objects_id_of_core, C', <- objects_id_of_core.
    rewrite I8, <- index_where_objects_id. exact Hidx7.
  - simpl in Hn. inversion Hn as [[Hname Hdata Hcons]].
    rewrite Hcons, Hc8. reflexivity.
Qed.

(** ** Meshes filled by the script *)

Lemma nth_error_app_last {A : Type} (l : list A) (x : A) :
  nth_error (l ++ [x]) (List.length l) = Some x.
Proof. rewrite nth_error_app2, Nat.sub_diag by lia. reflexivity. Qed.

Lemma update_app_last {A : Type} (f : A -> A) (l : list A) (x : A) :
  update (List.length l) f (l ++ [x]) = l ++ [f x].
Proof. induction l as [| y l IH]; simpl; [| rewrite IH]; reflexivity. Qed.

Lemma named_true {A : Type} (name_of : A -> string) (name : string) (d : A) :
  named name_of name d = true -> name_of d = name.
Proof. unfold named. apply String.eqb_eq. Qed.

Lemma index_where_update {A : Type} (p : A -> bool) (f : A -> A) (i : nat)
    (l : list A) :
  (forall x, p (f x) = p x) -> index_where p (update i f l) = index_where p l.
Proof.
  intros Hf. revert i. induction l as [| x l IH]; intros i; [reflexivity |].
  destruct i; simpl; [rewrite Hf | rewrite IH]; reflexivity.
Qed.

(** [create_or_reuse_mesh_object] followed by [from_pydata], when the
    object can be reused: the object carries the mesh of its name, and
    the mesh holds exactly the geometry handed over. *)
Lemma fill_mesh_object (name : string) (vs : list vec3) (es : list (nat * nat))
    (fs : list (list nat)) (s : Session gen) :
  reuse_ready name s ->
  exists obj s1 s2 o m,
    create_or_reuse_mesh_object name s = (Returns obj, s1) /\
    from_pydata obj vs es fs s1 = (Returns tt, s2) /\
    index_where (named obj_name name) (objects s2) = Some obj /\
    nth_error (objects s2) obj = Some o /\
    data o = MeshData m /\
    index_where (named mesh_name (name ++ "_mesh")%string) (meshes s2) = Some m /\
    nth_error (meshes s2) m = Some (mkMesh (name ++ "_mesh")%string vs es fs).
Proof.
  intros Hready. rewrite create_or_reuse_run. cbv zeta.
  unfold from_pydata, bind, get_object, modify.
  destruct (index_where (named mesh_name (name ++ "_mesh")%string) (meshes s))
    as [m |] eqn:Em;
    destruct (index_where (named obj_name name) (objects s)) as [obj |] eqn:Eo.
  - (* mesh and object found *)
    destruct (Hready obj Eo) as (o & m' & Ho & Hd & Hm').
    rewrite Em in Hm'. inversion Hm'; subst m'.
    destruct (index_where_nth _ _ _ Em) as (me & Hme & Hname).
    apply named_true in Hname.
    exists obj. eexists. eexists. exists o, m.
    split; [reflexivity |]. cbn [objects set_meshes].
    rewrite Ho. cbn [from_option ret]. rewrite Hd.
    split; [reflexivity |]. cbn [objects meshes set_meshes].
    repeat split; try assumption.
    + rewrite !index_where_update by reflexivity. exact Em.
    + rewrite (nth_error_update _ _ _ _ (nth_error_update _ _ _ _ Hme)).
      cbn. rewrite Hname. reflexivity.
  - (* mesh found, object created *)
    destruct (index_where_nth _ _ _ Em) as (me & Hme & Hname).
    apply named_true in Hname.
    eexists. eexists. eexists. exists (new_object name m), m.
    split; [reflexivity |]. cbn [objects set_meshes set_objects set_collection_objects].
    rewrite nth_error_app_last. cbn [from_option ret data new_object].
    split; [reflexivity |].
    cbn [objects meshes set_meshes set_objects set_collection_objects].
    repeat split.
    + rewrite (index_where_app_none _ _ _ Eo). unfold named at 1. cbn.
      rewrite String.eqb_refl. reflexivity.
    + apply nth_error_app_last.
    + rewrite !index_where_update by reflexivity. exact Em.
    + rewrite (nth_error_update _ _ _ _ (nth_error_update _ _ _ _ Hme)).
      cbn. rewrite Hname. reflexivity.
  - (* object without its mesh: excluded *)
    destruct (Hready obj Eo) as (o & m' & _ & _ & Hm').
    rewrite Em in Hm'. discriminate.
  - (* both created *)
    eexists. eexists. eexists.
    exists (new_object name (List.length (meshes s))), (List.length (meshes s)).
    split; [reflexivity |]. cbn [objects set_meshes set_objects set_collection_objects].
    rewrite nth_error_app_last. cbn [from_option ret data new_object].
    split; [reflexivity |].
    cbn [objects meshes set_meshes set_objects set_collection_objects].
    repeat split.
    + rewrite (index_where_app_none _ _ _ Eo). unfold named at 1. cbn.
      rewrite String.eqb_refl. reflexivity.
    + apply nth_error_app_last.
    + rewrite update_app_last, (index_where_app_none _ _ _ Em).
      unfold named at 1. cbn [mesh_name]. rewrite String.eqb_refl. reflexivity.
    + rewrite update_app_last. apply nth_error_app_last.
Qed.

Lemma object_blind_core {V : Type} (view : Session gen -> V) :
  object_blind object_id view -> object_blind object_core view.
Proof.
  intros [Hv Hw]. split; [| exact Hw]. intros obj f s Hf. apply Hv.
  intros o. specialize (Hf o). unfold object_core in Hf. unfold object_id.
  congruence.
Qed.

Lemma objects_id_blind : object_blind object_id objects_id.
Proof. split; [intros; apply objects_id_update; assumption | reflexivity]. Qed.

(** Everything that follows the two [from_pydata] calls leaves alone
    what does not depend on materials, node groups, the world, or on
    more of an object than its name and data. *)
Lemma after_geometry {V : Type} (view : Session gen -> V) (props : Props)
    (stars_obj template_obj camera shader : nat) (s5 s6 s7 s8 s9 s' : Session gen) :
  shader_blind view -> object_blind object_id view ->
  build_shader props s5 = (Returns tt, s6) ->
  object_set template_obj (set_active_material (Some shader)) s6 = (Returns tt, s7) ->
  install_constraint props stars_obj camera s7 = (Returns tt, s8) ->
  install_drivers stars_obj template_obj camera s8 = (Returns tt, s9) ->
  bind_scene props stars_obj template_obj s9 = (Returns tt, s') ->
  view s' = view s5.
Proof.
  intros Hs Ho P6 P8 P9 P10 P11.
  rewrite (bind_scene_frame view _ _ _ (object_blind_core _ Ho) _ _ _ P11).
  rewrite (install_drivers_frame view _ _ _ (object_blind_core _ Ho) _ _ _ P10).
  rewrite (install_constraint_frame view _ _ _ Ho _ _ _ P9).
  rewrite <- (build_shader_frame view props Hs _ _ _ P6).
  apply (preserves_object_set view template_obj (set_active_material (Some shader)))
    with (r := Returns tt); [| exact P8].
  intros s. apply (proj1 Ho). intros []; reflexivity.
Qed.

Lemma index_where_app_miss {A : Type} (p : A -> bool) (l tail : list A) :
  Forall (fun x => p x = false) tail ->
  index_where p (l ++ tail) = index_where p l.
Proof.
  intros Ht. induction l as [| x l IH]; simpl.
  - induction Ht as [| y tail Hy _ IHt]; [reflexivity |].
    simpl. rewrite Hy, IHt. reflexivity.
  - rewrite IH. reflexivity.
Qed.

(** A stage that only adds objects and meshes of other names keeps an
    object reusable. *)
Lemma reuse_ready_transfer (name : string) (s s2 : Session gen) (tail : list Object) :
  objects s2 = objects s ++ tail ->
  Forall (fun o => named obj_name name o = false) tail ->
  (forall m,
      index_where (named mesh_name (name ++ "_mesh")%string) (meshes s) = Some m ->
      index_where (named mesh_name (name ++ "_mesh")%string) (meshes s2) = Some m) ->
  reuse_ready name s -> reuse_ready name s2.
Proof.
  intros Hobj Htail Hmesh Hready obj Hidx.
  rewrite Hobj, (index_where_app_miss _ _ _ Htail) in Hidx.
  destruct (Hready obj Hidx) as (o & m & Ho & Hd & Hm).
  exists o, m. split; [| split; [exact Hd | exact (Hmesh m Hm)]].
  rewrite Hobj, nth_error_app1; [exact Ho |].
  apply nth_error_Some. rewrite Ho. discriminate.
Qed.

(** [from_pydata] neither renames a mesh nor touches the objects. *)
Lemma from_pydata_names (obj : nat) (vs : list vec3) (es : list (nat * nat))
    (fs : list (list nat)) (s s' : Session gen) (r : outcome unit) (name : string) :
  from_pydata obj vs es fs s = (r, s') ->
  objects s' = objects s /\
  index_where (named mesh_name name) (meshes s')
  = index_where (named mesh_name name) (meshes s).
Proof.
  unfold from_pydata, bind, get_object, modify. intros H.
  destruct (nth_error (objects s) obj) as [o |]; [| inversion H; split; reflexivity].
  cbn [from_option ret] in H.
  destruct (data o); inversion H; split; try reflexivity.
  cbn [meshes set_meshes]. apply index_where_update. reflexivity.
Qed.

(** The star stage keeps the template reusable. *)
Lemma star_stage_keeps_template (vs : list vec3) (s1 s2 s3 : Session gen)
    (stars_obj : nat) (r : outcome unit) :
  create_or_reuse_mesh_object "Starscape" s1 = (Returns stars_obj, s2) ->
  from_pydata stars_obj vs [] [] s2 = (r, s3) ->
  reuse_ready "Star_Template" s1 -> reuse_ready "Star_Template" s3.
Proof.
  intros P2 P3 Hready.
  destruct (from_pydata_names _ _ _ _ _ _ _ "Star_Template_mesh" P3) as [O3 M3].
  rewrite create_or_reuse_run in P2. cbv zeta in P2.
  change ("Starscape" ++ "_mesh")%string with "Starscape_mesh" in P2.
  destruct (index_where (named mesh_name "Starscape_mesh") (meshes s1)) as [m |] eqn:Em;
    destruct (index_where (named obj_name "Starscape") (objects s1)) as [o |] eqn:Eo;
    inversion P2; subst; clear P2.
  - apply (reuse_ready_transfer _ s1 _ []); [| constructor | | exact Hready].
    + rewrite O3, app_nil_r. reflexivity.
    + intros m0 H0. cbn [String.append] in *. rewrite M3.
      cbn [meshes set_meshes set_objects set_collection_objects].
      rewrite index_where_update by reflexivity. exact H0.
  - apply (reuse_ready_transfer _ s1 _ [new_object "Starscape" m]);
      [| repeat constructor | | exact Hready].
    + rewrite O3. reflexivity.
    + intros m0 H0. cbn [String.append] in *. rewrite M3.
      cbn [meshes set_meshes set_objects set_collection_objects].
      rewrite index_where_update by reflexivity. exact H0.
  - apply (reuse_ready_transfer _ s1 _ []); [| constructor | | exact Hready].
    + rewrite O3, app_nil_r. reflexivity.
    + intros m0 H0. cbn [String.append] in *. rewrite M3.
      cbn [meshes set_meshes set_objects set_collection_objects].
      apply index_where_app_some. exact H0.
  - apply (reuse_ready_transfer _ s1 _ [new_object "Starscape" (List.length (meshes s1))]);
      [| repeat constructor | | exact Hready].
    + rewrite O3. reflexivity.
    + intros m0 H0. cbn [String.append] in *. rewrite M3.
      cbn [meshes set_meshes set_objects set_collection_objects].
      apply index_where_app_some. exact H0.
Qed.

(** ** The star template *)

Lemma reuse_ready_ext (name : string) (s s' : Session gen) :
  objects s' = objects s -> meshes s' = meshes s ->
  reuse_ready name s -> reuse_ready name s'.
Proof. unfold reuse_ready. intros -> ->. tauto. Qed.

Lemma template_shape :
  (List.length template_vertices = 3 /\ List.length template_edges = 3 /\
   List.length template_faces = 1)%nat /\
  triangle_height template_vertices = (3 * 0.0002)%R /\
  triangle_half_base template_vertices = (sqrt 3 * 0.0002)%R /\
  isoceles template_vertices.
Proof.
  unfold template_vertices, triangle_height, triangle_half_base, isoceles, distance2.
  cbn [List.length snd]. repeat split; lra.
Qed.

(** C8 (amended): whenever the template object can be reused (it is
    absent, or carries the mesh of its name, as after any earlier
    successful call), a successful call leaves the object named
    ["Star_Template"] with a mesh that is exactly the fixed triangle:
    3 vertices, 3 edges, 1 face, isoceles, of height [3 s] (apex at
    [2 s], base at [-s]) and half-base [sqrt 3 * s] for [s = 0.0002];
    and the object can be reused again. *)
Theorem star_template_mesh (props : Props) (s s' : Session gen) :
  reuse_ready "Star_Template" s ->
  generate_starscape props s = (Returns true, s') ->
  exists obj o m me,
    index_where (named obj_name "Star_Template") (objects s') = Some obj /\
    nth_error (objects s') obj = Some o /\
    data o = MeshData m /\
    nth_error (meshes s') m = Some me /\
    vertices me = template_vertices /\
    edges me = template_edges /\
    faces me = template_faces /\
    (List.length (vertices me) = 3 /\ List.length (edges me) = 3 /\
     List.length (faces me) = 1)%nat /\
    triangle_height (vertices me) = (3 * 0.0002)%R /\
    triangle_half_base (vertices me) = (sqrt 3 * 0.0002)%R /\
    isoceles (vertices me) /\
    reuse_ready "Star_Template" s'.
Proof.
  intros Hready H. apply generate_steps in H.
  destruct H as (camera & vs & s1 & stars_obj & s2 & s3 & template_obj & s4 & s5
                 & s6 & shader & s7 & s8 & s9 & Hcam & P1 & P2 & P3 & P4 & P5 & P6
                 & P7 & P8 & P9 & P10 & P11).
  rewrite star_positions_stream in P1. inversion P1; subst vs s1. clear P1.
  assert (Hready3 : reuse_ready "Star_Template" s3).
  { apply (star_stage_keeps_template _ _ _ _ _ _ P2 P3).
    apply (reuse_ready_ext _ s); [reflexivity | reflexivity | exact Hready]. }
  destruct (fill_mesh_object "Star_Template" template_vertices template_edges
              template_faces s3 Hready3)
    as (obj & s4' & s5' & o5 & m & E4 & E5 & Hidx & Ho5 & Hd5 & Hm5 & Hme5).
  rewrite P4 in E4. inversion E4; subst obj s4'. clear E4.
  rewrite P5 in E5. inversion E5; subst s5'. clear E5.
  assert (M' : meshes s' = meshes s5).
  { apply (after_geometry meshes props stars_obj template_obj camera shader
             s5 s6 s7 s8 s9 s'); try assumption.
    - split; reflexivity.
    - apply field_blind; reflexivity. }
  assert (I' : objects_id s' = objects_id s5).
  { apply (after_geometry objects_id props stars_obj template_obj camera shader
             s5 s6 s7 s8 s9 s'); try assumption.
    - split; reflexivity.
    - apply objects_id_blind. }
  assert (Hn : nth_error (objects_id s') template_obj = Some (object_id o5)).
  { rewrite I'. unfold objects_id. rewrite nth_error_map, Ho5. reflexivity. }
  unfold objects_id in Hn. rewrite nth_error_map in Hn.
  destruct (nth_error (objects s') template_obj) as [o |] eqn:Ho; [| discriminate].
  simpl in Hn. inversion Hn as [[Hname Hdata]].
  assert (Hidx' : index_where (named obj_name "Star_Template") (objects s')
                  = Some template_obj).
  { rewrite index_where_objects_id, I', <- index_where_objects_id. exact Hidx. }
  exists template_obj, o, m, (mkMesh "Star_Template_mesh" template_vertices
                               template_edges template_faces).
  destruct template_shape as (Hlen & Hheight & Hbase & Hiso).
  split; [exact Hidx' |]. split; [exact Ho |].
  split; [rewrite Hdata; exact Hd5 |].
  split; [rewrite M'; exact Hme5 |].
  cbn [vertices edges faces].
  repeat (split; [first [reflexivity | assumption | apply Hlen] |]).
  intros obj Hobj. rewrite Hidx' in Hobj. inversion Hobj; subst obj.
  exists o, m. split; [exact Ho |]. split; [rewrite Hdata; exact Hd5 |].
  rewrite M'. exact Hm5.
Qed.

(** ** Node groups added by a call *)

Lemma grows_of_preserves {A : Type} (m : M (Session gen) A) :
  preserves node_groups m -> grows (fun groups => groups) m.
Proof. intros Hp s a s' H. exact (Hp _ _ _ H). Qed.

Lemma grows_bind_preserves {A B : Type} (F : list NodeTree -> list NodeTree)
    (m : M (Session gen) A) (k : A -> M (Session gen) B) :
  preserves node_groups m -> (forall a, grows F (k a)) -> grows F (bind m k).
Proof.
  intros Hm Hk s b s' H. apply bind_returns in H.
  destruct H as (a & s1 & H1 & H2).
  rewrite (Hk a _ _ _ H2), (Hm _ _ _ H1). reflexivity.
Qed.

(** A new group and the block that fills it. *)
Lemma grows_new_group {B : Type} (G : list NodeTree -> list NodeTree)
    (name type : string) (block : M NodeTree unit)
    (rest : nat -> M (Session gen) B) :
  (forall group, grows G (rest group)) ->
  grows (fun groups => G (add_group name block groups))
    (group <- node_groups_new name type ;;
     on_tree (GroupTree group) block ;;
     rest group).
Proof.
  intros Hrest s b s' H. unfold bind at 1 in H. unfold node_groups_new in H.
  apply bind_returns in H. destruct H as ([] & s1 & H1 & H2).
  rewrite (Hrest _ _ _ _ H2). f_equal.
  unfold on_tree, zoom, get_tree in H1. cbn [node_groups set_node_groups] in H1.
  rewrite nth_error_app_last in H1.
  unfold add_group, built, new_tree.
  destruct (block (mkNodeTree (unique_name (map tree_name (node_groups s)) name)
                     [] [] [])) as [r t'].
  inversion H1. cbn [put_tree node_groups set_node_groups snd].
  apply (update_app_last (fun _ => t')).
Qed.

Lemma on_material_tree_groups {A : Type} (shader : nat) (m : M NodeTree A) :
  preserves node_groups (on_tree (MaterialTree shader) m).
Proof. apply preserves_zoom. reflexivity. Qed.

Lemma make_group_node_in_groups (shader group : nat) (x y : Z) :
  preserves node_groups (make_group_node_in (MaterialTree shader) group x y).
Proof.
  apply preserves_bind; [apply preserves_group_interface | intros iface].
  apply on_material_tree_groups.
Qed.

Ltac material_step :=
  apply grows_bind_preserves;
  [ solve [ apply on_material_tree_groups
          | apply make_group_node_in_groups
          | apply preserves_modify; reflexivity
          | apply preserves_try;
            [apply preserves_lookup | intros ? ? ? H; inversion H; reflexivity] ]
  | intros ? ].

(** The material stage adds the three groups, in this order, each built
    by its block from an empty tree. *)
Lemma build_shader_groups (props : Props) :
  grows (fun groups =>
           add_group "Random Star Color" random_star_color_nodes
             (add_group "Random Splitter" random_splitter_nodes
                (add_group "Random Intensity" random_intensity_nodes groups)))
    (build_shader props).
Proof.
  unfold build_shader.
  repeat material_step.
  apply (grows_new_group
           (fun groups => add_group "Random Star Color" random_star_color_nodes
                            (add_group "Random Splitter" random_splitter_nodes groups))).
  intros group1. repeat material_step.
  apply (grows_new_group
           (fun groups => add_group "Random Star Color" random_star_color_nodes groups)).
  intros group2. repeat material_step.
  apply (grows_new_group (fun groups => groups)).
  intros group3. repeat material_step.
  apply grows_of_preserves. apply on_material_tree_groups.
Qed.

Lemma create_or_reuse_groups (name : string) :
  preserves node_groups (create_or_reuse_mesh_object name).
Proof.
  intros s r s' H. rewrite create_or_reuse_run in H. cbv zeta in H.
  destruct (index_where _ (meshes s)); destruct (index_where _ (objects s));
    inversion H; reflexivity.
Qed.

Lemma node_groups_object_blind {C : Type} (core : Object -> C) :
  object_blind core (@node_groups gen).
Proof. apply field_blind; reflexivity. Qed.

(** A successful call adds exactly the three groups to the registry. *)
Lemma generate_groups (props : Props) (s s' : Session gen) :
  generate_starscape props s = (Returns true, s') ->
  node_groups s'
  = add_group "Random Star Color" random_star_color_nodes
      (add_group "Random Splitter" random_splitter_nodes
         (add_group "Random Intensity" random_intensity_nodes (node_groups s))).
Proof.
  intros H. apply generate_steps in H.
  destruct H as (camera & vs & s1 & stars_obj & s2 & s3 & template_obj & s4 & s5
                 & s6 & shader & s7 & s8 & s9 & Hcam & P1 & P2 & P3 & P4 & P5 & P6
                 & P7 & P8 & P9 & P10 & P11).
  rewrite star_positions_stream in P1. inversion P1; subst vs s1. clear P1.
  rewrite (bind_scene_frame node_groups _ _ _
             (node_groups_object_blind _) _ _ _ P11).
  rewrite (install_drivers_frame node_groups _ _ _
             (node_groups_object_blind _) _ _ _ P10).
  rewrite (install_constraint_frame node_groups _ _ _
             (node_groups_object_blind _) _ _ _ P9).
  rewrite (preserves_object_set node_groups template_obj
             (set_active_material (Some shader)) (fun _ => eq_refl) _ _ _ P8).
  rewrite (build_shader_groups props _ _ _ P6).
  rewrite (from_pydata_frame node_groups template_obj template_vertices
             template_edges template_faces (fun _ _ => eq_refl) _ _ _ P5).
  rewrite (create_or_reuse_groups _ _ _ _ P4).
  rewrite (from_pydata_frame node_groups stars_obj _ [] [] (fun _ _ => eq_refl)
             _ _ _ P3).
  rewrite (create_or_reuse_groups _ _ _ _ P2).
  reflexivity.
Qed.

End Generation.

(** ** What the groups compute *)

Lemma safe_divide_nonzero (a b : R) : b <> 0%R -> safe_divide a b = (a / b)%R.
Proof. intros Hb. unfold safe_divide. destruct (Req_dec_T b 0); [contradiction | reflexivity]. Qed.

Lemma safe_log_natural (a : R) : (0 < a)%R -> safe_log a (exp 1) = ln a.
Proof.
  intros Ha. unfold safe_log.
  destruct (Rle_dec a 0) as [Hle | _]; [lra |].
  pose proof (exp_pos 1) as He.
  destruct (Rle_dec (exp 1) 0) as [Hle | _]; [lra |].
  rewrite ln_exp, safe_divide_nonzero by lra. field.
Qed.

Lemma fmod_one (a : R) : (0 <= a)%R -> fmod a 1 = frac_part a.
Proof.
  intros Ha. unfold fmod, truncate, frac_part.
  replace (a / 1)%R with a by field.
  destruct (Rle_dec 0 a) as [_ | Hn]; [ring | contradiction].
Qed.

Ltac run_group :=
  lazy -[Rplus Rmult Rminus Ropp Rdiv Rinv IZR exp ln Rpower Rle_dec Rlt_dec
         Req_dec_T Int_part Q2R safe_divide safe_log fmod truncate].

Lemma intensity_group_value (name : string) (r : R) :
  (0 < r)%R ->
  group_value (built name random_intensity_nodes) (random_input r) "Intensity"
  = Some (intensity_of r).
Proof.
  intros Hr. run_group.
  destruct (Rlt_dec 0 2.512) as [_ | Hn]; [| exfalso; apply Hn; lra].
  unfold intensity_of.
  rewrite (safe_divide_nonzero (r * 9100) 3.56) by lra.
  rewrite safe_log_natural by lra.
  rewrite safe_divide_nonzero by lra. reflexivity.
Qed.

Lemma intensity_group_name (name : string) :
  tree_name (built name random_intensity_nodes) = name.
Proof. reflexivity. Qed.

Lemma intensity_decreasing (r1 r2 : R) :
  (0 < r1)%R -> (r1 < r2)%R -> (intensity_of r2 < intensity_of r1)%R.
Proof.
  intros H1 H12. unfold intensity_of, Rpower. apply exp_increasing.
  assert (Hbase : (0 < ln 2.512)%R).
  { rewrite <- ln_1. apply ln_increasing; lra. }
  assert (Hln : (ln (r1 * 9100 / 3.56) < ln (r2 * 9100 / 3.56))%R).
  { apply ln_increasing; lra. }
  replace (ln (r2 * 9100 / 3.56) / -1.21)%R
    with (- (100 / 121) * ln (r2 * 9100 / 3.56))%R by lra.
  replace (ln (r1 * 9100 / 3.56) / -1.21)%R
    with (- (100 / 121) * ln (r1 * 9100 / 3.56))%R by lra.
  nra.
Qed.

Lemma splitter_group_values (name : string) (r : R) :
  group_value (built name random_splitter_nodes) (random_input r) "Random 1" = Some r /\
  group_value (built name random_splitter_nodes) (random_input r) "Random 2"
  = Some (fmod (r * 1000) 1).
Proof.
  split; run_group; [reflexivity |].
  destruct (Req_dec_T 1 0) as [H | _]; [lra | reflexivity].
Qed.

Lemma splitter_group_name (name : string) :
  tree_name (built name random_splitter_nodes) = name.
Proof. reflexivity. Qed.

Lemma nth_error_add_group_last (name : string) (block : M NodeTree unit)
    (groups : list NodeTree) :
  nth_error (add_group name block groups) (List.length groups)
  = Some (built (unique_name (map tree_name groups) name) block).
Proof.
  unfold add_group. rewrite nth_error_app2, Nat.sub_diag by lia. reflexivity.
Qed.

Lemma nth_error_add_group_before (name : string) (block : M NodeTree unit)
    (groups : list NodeTree) (i : nat) (t : NodeTree) :
  nth_error groups i = Some t -> nth_error (add_group name block groups) i = Some t.
Proof.
  intros H. unfold add_group. rewrite nth_error_app1; [exact H |].
  apply nth_error_Some. rewrite H. discriminate.
Qed.

Lemma length_add_group (name : string) (block : M NodeTree unit)
    (groups : list NodeTree) :
  List.length (add_group name block groups) = S (List.length groups).
Proof. unfold add_group. rewrite length_app. simpl. lia. Qed.

Section Groups.
Context {gen : PRNG}.

(** C5: in the "Random Intensity" group that a successful call adds to
    the registry, the output [Intensity] for an input [r] in (0,1) is
    [2.512 ^ (ln ((r * 9100) / 3.56) / -1.21)], and this function is
    strictly decreasing on (0,1). *)
Theorem random_intensity_decreasing (props : Props) (s s' : Session gen) :
  generate_starscape props s = (Returns true, s') ->
  exists group,
    nth_error (node_groups s') (List.length (node_groups s)) = Some group /\
    tree_name group
    = unique_name (map tree_name (node_groups s)) "Random Intensity" /\
    (forall r, (0 < r < 1)%R ->
       group_value group (random_input r) "Intensity"
       = Some (Rpower 2.512 (ln (r * 9100 / 3.56) / -1.21))) /\
    (forall r1 r2 v1 v2, (0 < r1)%R -> (r1 < r2)%R -> (r2 < 1)%R ->
       group_value group (random_input r1) "Intensity" = Some v1 ->
       group_value group (random_input r2) "Intensity" = Some v2 ->
       (v2 < v1)%R).
Proof.
  intros H. apply generate_groups in H.
  exists (built (unique_name (map tree_name (node_groups s)) "Random Intensity")
            random_intensity_nodes).
  split; [| split; [| split]].
  - rewrite H. do 2 apply nth_error_add_group_before.
    apply nth_error_add_group_last.
  - apply intensity_group_name.
  - intros r [Hr _]. apply intensity_group_value. exact Hr.
  - intros r1 r2 v1 v2 H1 H12 H2 E1 E2.
    rewrite intensity_group_value in E1 by lra.
    rewrite intensity_group_value in E2 by lra.
    inversion E1. inversion E2. apply intensity_decreasing; assumption.
Qed.

(** C6: in the "Random Splitter" group that a successful call adds to
    the registry, for an input [r] in [0,1) the output [Random 1] is
    [r] and the output [Random 2] is the remainder of [r * 1000] modulo
    1, which is the fractional part of [r * 1000] and lies in [0,1). *)
Theorem random_splitter_outputs (props : Props) (s s' : Session gen) :
  generate_starscape props s = (Returns true, s') ->
  exists group,
    nth_error (node_groups s') (S (List.length (node_groups s))) = Some group /\
    tree_name group
    = unique_name
        (map tree_name
           (add_group "Random Intensity" random_intensity_nodes (node_groups s)))
        "Random Splitter" /\
    forall r, (0 <= r < 1)%R ->
      group_value group (random_input r) "Random 1" = Some r /\
      group_value group (random_input r) "Random 2" = Some (fmod (r * 1000) 1) /\
      fmod (r * 1000) 1 = frac_part (r * 1000) /\
      (0 <= fmod (r * 1000) 1 < 1)%R.
Proof.
  intros H. apply generate_groups in H.
  exists (built (unique_name
                   (map tree_name
                      (add_group "Random Intensity" random_intensity_nodes
                         (node_groups s))) "Random Splitter")
            random_splitter_nodes).
  split; [| split].
  - rewrite H. apply nth_error_add_group_before.
    rewrite <- (length_add_group "Random Intensity" random_intensity_nodes).
    apply nth_error_add_group_last.
  - apply splitter_group_name.
  - intros r [Hlo Hhi].
    destruct (splitter_group_values
                (unique_name
                   (map tree_name
                      (add_group "Random Intensity" random_intensity_nodes
                         (node_groups s))) "Random Splitter") r) as [E1 E2].
    split; [exact E1 |]. split; [exact E2 |].
    assert (Hf : fmod (r * 1000) 1 = frac_part (r * 1000))
      by (apply fmod_one; lra).
    split; [exact Hf |]. rewrite Hf.
    destruct (base_fp (r * 1000)) as [Hge Hlt]. lra.
Qed.
End Groups.

(** ** Concrete runs *)

Lemma run_returns {S A : Type} (m : M S A) (s : S) (a : A) :
  fst (m s) = Returns a -> m s = (Returns a, snd (m s)).
Proof. destruct (m s) as [r s']. simpl. intros ->. reflexivity. Qed.

Lemma fresh_scene_generates :
  generate_starscape some_props fresh_scene
  = (Returns true, after some_props fresh_scene).
Proof.
  apply (run_returns (generate_starscape some_props) fresh_scene true).
  reflexivity.
Qed.

(** C1 fails on the code: a second call on the scene left by a first call
    reuses the two objects, the two meshes and the material, but makes
    three more node groups.  The host renames them with a numeric suffix,
    so one group still carries each of the three names, but the registry
    holds two groups per logical name: the group nodes of the material
    point to the new ones and the groups of the first call stay behind,
    neither reused nor replaced. *)
Theorem regeneration_duplicates_node_groups :
  let s1 := after some_props fresh_scene in
  let s2 := after some_props s1 in
  fst (generate_starscape some_props fresh_scene) = Returns true /\
  fst (generate_starscape some_props s1) = Returns true /\
  map obj_name (objects s1) = ["Camera"; "Starscape"; "Star_Template"] /\
  map obj_name (objects s2) = ["Camera"; "Starscape"; "Star_Template"] /\
  map mesh_name (meshes s2) = ["Starscape_mesh"; "Star_Template_mesh"] /\
  map material_name (materials s2) = ["Star Shader"] /\
  map tree_name (node_groups s1)
  = ["Random Intensity"; "Random Splitter"; "Random Star Color"] /\
  map tree_name (node_groups s2)
  = ["Random Intensity"; "Random Splitter"; "Random Star Color";
     "Random Intensity.001"; "Random Splitter.001"; "Random Star Color.001"] /\
  count_where (named tree_name "Random Intensity") (node_groups s2) = 1%nat /\
  count_where (fun t => String.prefix "Random Intensity" (tree_name t)) (node_groups s2)
  = 2%nat /\
  map (fun m => option_map (fun t => filter (fun g => match g with Some _ => true | None => false end)
                                       (map node_tree (nodes t)))
                  (material_tree m)) (materials s2)
  = [Some [Some 3; Some 4; Some 5]%nat].
Proof. lazy. repeat split. Qed.

Section Regeneration.
Context {gen : PRNG}.

(** The same in general: every successful call adds three datablocks to
    the registry of node groups. *)
Lemma generate_adds_three_groups (props : Props) (s s' : Session gen) :
  generate_starscape props s = (Returns true, s') ->
  List.length (node_groups s') = (List.length (node_groups s) + 3)%nat.
Proof.
  intros H. rewrite (generate_groups props s s' H), !length_add_group. lia.
Qed.
End Regeneration.

(** C3 (as stated) fails: with a density of 0.0029 and the hemisphere
    option, rounding [2.9] gives 3 and rounding its half gives 2, but the
    script rounds [1.45] and produces one position.  The two densities
    are the double and the single-precision number nearest to 0.0029:
    what Python reads from the literal, and what a float property of the
    host holds. *)
Lemma halved_count_differs :
  Forall (fun density =>
      let props := mkProps 42 density true 1 true true in
      py_round (1000 * star_density props) = 3%Z /\
      star_count (star_density props) false = 3%Z /\
      py_round (inject_Z (star_count (star_density props) false) / 2) = 2%Z /\
      exists vs,
        fst (star_positions props fresh_scene) = Returns vs /\
        List.length vs = 1%nat)
    [(208967022709991 # 72057594037927936)%Q; (12455405 # 4294967296)%Q].
Proof.
  repeat (apply Forall_cons || apply Forall_nil); cbv zeta;
    (split; [reflexivity |]; split; [vm_compute; reflexivity |];
     split; [vm_compute; reflexivity |];
     rewrite star_positions_stream; eexists; split; [reflexivity |];
     rewrite length_map, length_seq; vm_compute; reflexivity).
Qed.

(** The product is rounded before the count is taken.  The doubles
    nearest to 0.0025 and to 0.001 lie a little above them, and so do
    their exact products with 1000; the float products are [2.5] and
    [1.0], and the counts are the ones of a tie: 2 without the hemisphere
    option, and 0 with it. *)
Example star_count_rounds_the_product :
  star_count (5764607523034235 # 2305843009213693952) false = 2%Z /\
  py_round (1000 * (5764607523034235 # 2305843009213693952)) = 3%Z /\
  star_count (1152921504606847 # 1152921504606846976) true = 0%Z /\
  py_round (1000 * (1152921504606847 # 1152921504606846976) / 2) = 1%Z.
Proof. vm_compute. repeat split. Qed.

(** C8 (as stated) fails: the apex is at [2 s] and the base at [-s], so
    the height of the template is [3 s], not [4 s]. *)
Lemma template_height_is_not_4s :
  triangle_height template_vertices = (3 * 0.0002)%R /\
  triangle_height template_vertices <> (4 * 0.0002)%R.
Proof.
  unfold template_vertices, triangle_height. split; lra.
Qed.

(** ** The theorems at work on concrete scenes *)

Lemma connect_nodes_arity_witness :
  connect_nodes [PyNode 0; PyStr "Random"; PyStr "Random 1"; PyNode 1] two_node_tree
  = (Returns tt, add_link (mkLink 0 0 1 0) two_node_tree).
Proof.
  apply (proj2 (proj2 (proj2
           (connect_nodes_arity
              [PyNode 0; PyStr "Random"; PyStr "Random 1"; PyNode 1] two_node_tree)))).
  - intros [H | H]; [discriminate H | apply H; reflexivity].
  - reflexivity.
Defined.

Lemma generate_without_camera_witness :
  no_perspective_camera (scene_with_camera "ORTHO") /\
  generate_starscape some_props (scene_with_camera "ORTHO")
  = (Returns false, scene_with_camera "ORTHO").
Proof.
  assert (H : no_perspective_camera (scene_with_camera "ORTHO")).
  { right. exists 0%nat, (camera_object "ORTHO"), (mkCamera "Camera" "ORTHO").
    repeat split. discriminate. }
  split; [exact H |].
  apply (generate_without_camera some_props (scene_with_camera "ORTHO") H).
Defined.

Lemma star_positions_count_witness :
  exists vs s',
    star_positions dense_props fresh_scene = (Returns vs, s') /\
    Z.of_nat (List.length vs)
    = (if hemisphere dense_props then py_round (1000 * star_density dense_props / 2)
       else py_round (1000 * star_density dense_props)) /\
    (star_density dense_props = 2%Q -> hemisphere dense_props = false ->
     List.length vs = 2000%nat).
Proof.
  apply (star_positions_count dense_props fresh_scene).
  - unfold Qle. simpl. lia.
  - exists 2000%Z, 0%Z. split; reflexivity.
Defined.

Lemma star_positions_deterministic_witness :
  fst (star_positions some_props fresh_scene)
  = fst (star_positions unlocked_props (after some_props fresh_scene)) /\
  fst (star_positions some_props fresh_scene)
  = Returns (map (star_at (gen := lcg) (hemisphere some_props)
                    (rng_seed (random_seed some_props)))
               (seq 0 (range_len
                  (star_count (star_density some_props) (hemisphere some_props))))).
Proof.
  apply (star_positions_deterministic some_props unlocked_props fresh_scene
           (after some_props fresh_scene)); reflexivity.
Defined.

Lemma star_template_mesh_witness :
  exists obj o m me,
    index_where (named obj_name "Star_Template")
      (objects (after some_props fresh_scene)) = Some obj /\
    nth_error (objects (after some_props fresh_scene)) obj = Some o /\
    data o = MeshData m /\
    nth_error (meshes (after some_props fresh_scene)) m = Some me /\
    vertices me = template_vertices /\
    edges me = template_edges /\
    faces me = template_faces /\
    (List.length (vertices me) = 3 /\ List.length (edges me) = 3 /\
     List.length (faces me) = 1)%nat /\
    triangle_height (vertices me) = (3 * 0.0002)%R /\
    triangle_half_base (vertices me) = (sqrt 3 * 0.0002)%R /\
    isoceles (vertices me) /\
    reuse_ready "Star_Template" (after some_props fresh_scene).
Proof.
  apply (star_template_mesh some_props fresh_scene (after some_props fresh_scene)).
  - intros obj H. simpl in H. discriminate.
  - exact fresh_scene_generates.
Defined.

Lemma random_intensity_decreasing_witness :
  exists group,
    nth_error (node_groups (after some_props fresh_scene))
      (List.length (node_groups fresh_scene)) = Some group /\
    tree_name group
    = unique_name (map tree_name (node_groups fresh_scene)) "Random Intensity" /\
    (forall r, (0 < r < 1)%R ->
       group_value group (random_input r) "Intensity"
       = Some (Rpower 2.512 (ln (r * 9100 / 3.56) / -1.21))) /\
    (forall r1 r2 v1 v2, (0 < r1)%R -> (r1 < r2)%R -> (r2 < 1)%R ->
       group_value group (random_input r1) "Intensity" = Some v1 ->
       group_value group (random_input r2) "Intensity" = Some v2 ->
       (v2 < v1)%R).
Proof.
  apply (random_intensity_decreasing some_props fresh_scene
           (after some_props fresh_scene)).
  exact fresh_scene_generates.
Defined.

Lemma random_splitter_outputs_witness :
  exists group,
    nth_error (node_groups (after some_props fresh_scene))
      (S (List.length (node_groups fresh_scene))) = Some group /\
    tree_name group
    = unique_name
        (map tree_name
           (add_group "Random Intensity" random_intensity_nodes
              (node_groups fresh_scene)))
        "Random Splitter" /\
    forall r, (0 <= r < 1)%R ->
      group_value group (random_input r) "Random 1" = Some r /\
      group_value group (random_input r) "Random 2" = Some (fmod (r * 1000) 1) /\
      fmod (r * 1000) 1 = frac_part (r * 1000) /\
      (0 <= fmod (r * 1000) 1 < 1)%R.
Proof.
  apply (random_splitter_outputs some_props fresh_scene
           (after some_props fresh_scene)).
  exact fresh_scene_generates.
Defined.

(** Regeneration without the camera lock, on the scene where a first
    call installed the constraint: the constraint is gone. *)
Lemma camera_follow_constraint_witness :
  exists camera stars_obj o,
    scene_camera (after some_props fresh_scene) = Some camera /\
    index_where (named obj_name "Starscape")
      (objects (after unlocked_props (after some_props fresh_scene)))
    = Some stars_obj /\
    nth_error (objects (after unlocked_props (after some_props fresh_scene))) stars_obj
    = Some o /\
    constraints o
    = (if camera_lock unlocked_props
       then [mkConstraint "COPY_LOCATION" (Some camera)]
       else []).
Proof.
  apply (camera_follow_constraint unlocked_props (after some_props fresh_scene)
           (after unlocked_props (after some_props fresh_scene))).
  apply (run_returns (generate_starscape unlocked_props)
           (after some_props fresh_scene) true).
  reflexivity.
Defined.

(** The constraint list of the star field after a first call with the
    lock, and after a second call without it. *)
Example constraint_installed_then_removed :
  map constraints (objects (after some_props fresh_scene))
  = [[]; [mkConstraint "COPY_LOCATION" (Some 0%nat)]; []] /\
  map constraints (objects (after unlocked_props (after some_props fresh_scene)))
  = [[]; []; []].
Proof. split; reflexivity. Qed.

(** * Further properties of the script *)

(** ** Sampling on the sphere *)

(** X1: the conversion of line 29 puts the point at distance [|radius|]
    of the origin, whatever the angles. *)
Theorem spherical_to_cartesian_norm (radius phi theta : R) :
  let '(x, y, z) := spherical_to_cartesian_coordinates radius phi theta in
  (x * x + y * y + z * z = radius * radius)%R.
Proof.
  unfold spherical_to_cartesian_coordinates.
  pose proof (sin2_cos2 phi) as Hphi. pose proof (sin2_cos2 theta) as Htheta.
  unfold Rsqr in Hphi, Htheta.
  replace (radius * cos phi * cos theta * (radius * cos phi * cos theta)
           + radius * sin phi * cos theta * (radius * sin phi * cos theta)
           + radius * sin theta * (radius * sin theta))%R
    with (radius * radius
          * ((sin phi * sin phi + cos phi * cos phi) * (cos theta * cos theta)
             + sin theta * sin theta))%R by ring.
  rewrite Hphi. rewrite Rmult_1_l, Rplus_comm, Htheta. ring.
Qed.

Lemma nth_error_seq_some (n : nat) :
  forall a i j, nth_error (seq a n) i = Some j -> j = (a + i)%nat.
Proof.
  induction n as [| n IH]; intros a i j H; destruct i; simpl in H; try discriminate.
  - inversion H. lia.
  - apply IH in H. lia.
Qed.

Section Sampling.
Context {gen : PRNG}.

(** X2: [random_spherical_coordinates] takes two numbers from the
    generator and no more; the longitude lies in [[0, 2 pi)], the
    latitude in [[-pi/2, pi/2]], and the sine of the latitude is
    [2 u - 1] for the second number [u]: the height of the point is
    spread evenly over [[-1, 1)]. *)
Theorem random_spherical_coordinates_range (s : Session gen) :
  exists phi theta,
    random_spherical_coordinates s
    = (Returns (phi, theta), set_random_state (advance (random_state s) 2) s) /\
    phi = (draw (random_state s) 0 * 2 * PI)%R /\
    (0 <= phi < 2 * PI)%R /\
    (- (PI / 2) <= theta <= PI / 2)%R /\
    sin theta = (2 * draw (random_state s) 1 - 1)%R /\
    (-1 <= sin theta < 1)%R.
Proof.
  unfold random_spherical_coordinates, bind, random_random, ret, draw.
  cbn [advance].
  pose proof (rng_random_range (random_state s)) as H1.
  destruct (rng_random (random_state s)) as [u1 g1] eqn:E1.
  cbn [random_state set_random_state fst snd] in *.
  pose proof (rng_random_range g1) as H2.
  destruct (rng_random g1) as [u2 g2] eqn:E2.
  cbn [fst snd] in *.
  exists (u1 * 2 * PI)%R, (asin (2 * u2 - 1)).
  pose proof PI_RGT_0 as Hpi.
  assert (Hs : sin (asin (2 * u2 - 1)) = (2 * u2 - 1)%R)
    by (apply sin_asin; lra).
  repeat split; try reflexivity; try (rewrite Hs; lra);
    try apply asin_bound; nra.
Qed.

(** X3: the third coordinate of star [i] is [2 u - 1], or its absolute
    value under the hemisphere option, where [u] is draw [2i + 1] of the
    stream; with the option no star lies below the horizon. *)
Theorem star_heights (props : Props) (s : Session gen) :
  exists vs s',
    star_positions props s = (Returns vs, s') /\
    (forall i p, nth_error vs i = Some p ->
       let z := (2 * draw (rng_seed (random_seed props)) (2 * i + 1) - 1)%R in
       height_of p = (if hemisphere props then Rabs z else z) /\
       (-1 <= height_of p <= 1)%R) /\
    (hemisphere props = true -> Forall (fun p => (0 <= height_of p)%R) vs).
Proof.
  rewrite star_positions_stream. eexists. eexists. split; [reflexivity |].
  assert (Hz : forall i,
    let z := (2 * draw (rng_seed (random_seed props)) (2 * i + 1) - 1)%R in
    height_of (star_at (hemisphere props) (rng_seed (random_seed props)) i)
    = (if hemisphere props then Rabs z else z) /\ (-1 <= z < 1)%R).
  { intros i. cbv zeta. unfold star_at, spherical_to_cartesian_coordinates, height_of.
    cbn [snd]. unfold draw.
    pose proof (rng_random_range
                  (advance (rng_seed (random_seed props)) (2 * i + 1))) as Hu.
    set (u := fst (rng_random (advance (rng_seed (random_seed props)) (2 * i + 1))))
      in *.
    assert (Hs : (1 * sin (asin (2 * u - 1)) = 2 * u - 1)%R)
      by (rewrite Rmult_1_l; apply sin_asin; lra).
    rewrite Hs. split; [reflexivity | lra]. }
  split.
  - intros i p Hp. rewrite nth_error_map in Hp.
    destruct (nth_error (seq 0 _) i) as [j |] eqn:Ej; [| discriminate].
    inversion Hp; subst p. clear Hp.
    apply nth_error_seq_some in Ej. simpl in Ej.
    subst j. destruct (Hz i) as [Hh Hr]. cbv zeta in *. split; [exact Hh |].
    rewrite Hh. destruct (hemisphere props); [| lra].
    unfold Rabs. destruct (Rcase_abs _); lra.
  - intros Hhemi. apply Forall_forall. intros p Hp. apply in_map_iff in Hp.
    destruct Hp as (i & <- & _). destruct (Hz i) as [Hh _]. cbv zeta in Hh.
    rewrite Hh, Hhemi. apply Rabs_pos.
Qed.
End Sampling.

(** ** The number of stars at the edges *)

Lemma py_round_nonpos (x : Q) : (x <= 0)%Q -> (py_round x <= 0)%Z.
Proof.
  intros Hx.
  assert (Hf : (Qfloor x <= 0)%Z).
  { change 0%Z with (Qfloor 0). apply Qfloor_resp_le. exact Hx. }
  unfold py_round.
  destruct (Z.eq_dec (Qfloor x) 0) as [H0 | Hneg].
  - rewrite H0.
    assert (Hlt : (x - inject_Z 0 < 1 # 2)%Q).
    { apply Qle_lt_trans with (y := 0%Q); [| reflexivity].
      unfold Qminus. rewrite Qplus_0_r. exact Hx. }
    destruct (Qcompare (x - inject_Z 0) (1 # 2)) eqn:E; [simpl; lia | lia |].
    apply Qgt_alt in E. exfalso. apply (Qlt_irrefl (1 # 2)).
    apply Qlt_trans with (y := (x - inject_Z 0)%Q); assumption.
  - destruct (Qcompare (x - inject_Z (Qfloor x)) (1 # 2)); [| lia | lia].
    destruct (Z.even (Qfloor x)); lia.
Qed.

Lemma round_double_nonpos (x : Q) : (x <= 0)%Q -> (round_double x <= 0)%Q.
Proof.
  intros Hx. unfold round_double. destruct (Qeq_bool x 0); [discriminate |].
  cbv zeta. pose proof (two_power_pos (binade x - 52)) as Hp.
  assert (H : (x / 2 ^ (binade x - 52) <= 0)%Q).
  { apply Qle_shift_div_r; [exact Hp |]. rewrite Qmult_0_l. exact Hx. }
  apply py_round_nonpos in H. rewrite Zle_Qle in H.
  change (inject_Z 0) with 0%Q in H.
  revert H Hp. generalize (inject_Z (py_round (x / 2 ^ (binade x - 52)))).
  generalize (2 ^ (binade x - 52))%Q. intros u q Hq Hu. nra.
Qed.

Section Edges.
Context {gen : PRNG}.

(** X4: a density that is zero or negative gives no star at all: the
    loop body never runs, the vertex list is empty and the generator is
    left freshly seeded. *)
Theorem no_stars_without_density (props : Props) (s : Session gen) :
  (star_density props <= 0)%Q ->
  star_positions props s
  = (Returns [], set_random_state (rng_seed (random_seed props)) s).
Proof.
  intros Hd. rewrite star_positions_stream.
  assert (Hn : range_len (star_count (star_density props) (hemisphere props)) = O).
  { unfold range_len, star_count, float_mul, float_div. cbv zeta.
    assert (H1 : (round_double (1000 * star_density props) <= 0)%Q).
    { apply round_double_nonpos.
      rewrite <- (Qmult_0_r 1000). apply Qmult_le_l; [reflexivity | exact Hd]. }
    assert (H2 : (round_double (round_double (1000 * star_density props) / 2) <= 0)%Q).
    { apply round_double_nonpos.
      apply Qle_shift_div_r; [reflexivity |]. rewrite Qmult_0_l. exact H1. }
    destruct (hemisphere props);
      [pose proof (py_round_nonpos _ H2) | pose proof (py_round_nonpos _ H1)];
      lia. }
  rewrite Hn. reflexivity.
Qed.
End Edges.

Lemma no_stars_without_density_witness :
  star_positions (mkProps 7 (-1) true 1 true true) fresh_scene
  = (Returns [], set_random_state (gen := lcg) (rng_seed 7) fresh_scene).
Proof.
  apply (no_stars_without_density (mkProps 7 (-1) true 1 true true) fresh_scene).
  discriminate.
Defined.

(** ** More on what the groups compute *)

Lemma intensity_below_one (r : R) :
  (0 < r)%R ->
  (0 < intensity_of r)%R /\
  (intensity_of r < 1 <-> 3.56 / 9100 < r)%R /\
  (intensity_of r = 1 <-> r = 3.56 / 9100)%R.
Proof.
  intros Hr. unfold intensity_of, Rpower.
  assert (Hbase : (0 < ln 2.512)%R) by (rewrite <- ln_1; apply ln_increasing; lra).
  assert (Ha : (0 < r * 9100 / 3.56)%R) by lra.
  set (a := (r * 9100 / 3.56)%R) in *.
  replace (ln a / -1.21)%R with (- (100 / 121) * ln a)%R by lra.
  assert (Hcmp : (r = 3.56 / 9100 <-> a = 1)%R) by (unfold a; split; intros; lra).
  assert (Hlt : (3.56 / 9100 < r <-> 1 < a)%R) by (unfold a; split; intros; lra).
  split; [apply exp_pos |]. split.
  - rewrite Hlt. rewrite <- exp_0 at 1. split; intros H.
    + apply exp_lt_inv in H. apply ln_lt_inv; [lra | exact Ha |].
      rewrite ln_1. nra.
    + apply exp_increasing. apply ln_increasing in H; [| lra].
      rewrite ln_1 in H. nra.
  - rewrite Hcmp. rewrite <- exp_0 at 1. split; intros H.
    + apply exp_inv in H. apply ln_inv; [exact Ha | lra |]. rewrite ln_1. nra.
    + rewrite H, ln_1. f_equal. ring.
Qed.

(** X5: the "Random Intensity" group gives a positive intensity for every
    positive input; the intensity is below 1 exactly when the input is
    above [3.56 / 9100] and equals 1 exactly there.  For an input that is
    zero or negative the logarithm node gives 0 and the intensity is 1. *)
Theorem random_intensity_range (name : string) (r : R) :
  ((r <= 0)%R ->
   group_value (built name random_intensity_nodes) (random_input r) "Intensity"
   = Some 1%R) /\
  ((0 < r)%R ->
   exists v,
     group_value (built name random_intensity_nodes) (random_input r) "Intensity"
     = Some v /\
     (0 < v)%R /\ (v < 1 <-> 3.56 / 9100 < r)%R /\ (v = 1 <-> r = 3.56 / 9100)%R).
Proof.
  split.
  - intros Hr. run_group.
    destruct (Rlt_dec 0 2.512) as [_ | Hn]; [| exfalso; apply Hn; lra].
    f_equal. rewrite (safe_divide_nonzero (r * 9100) 3.56) by lra.
    unfold safe_log. destruct (Rle_dec (r * 9100 / 3.56) 0) as [_ | Hn];
      [| exfalso; apply Hn; lra].
    rewrite safe_divide_nonzero by lra.
    replace (0 / -1.21)%R with 0%R by lra. apply Rpower_O. lra.
  - intros Hr. exists (intensity_of r).
    split; [apply intensity_group_value; exact Hr |].
    apply intensity_below_one. exact Hr.
Qed.

Lemma star_color_temperature (name : string) (r : R) :
  socket_value (built name random_star_color_nodes) (random_input r)
    "ShaderNodeBlackbody" "Temperature"
  = Some (r * 17000 + 3000)%R.
Proof. run_group. reflexivity. Qed.

(** X6: in the "Random Star Color" group the temperature that enters the
    blackbody node for an input [r] is [r * 17000 + 3000], between 3000
    and 20000 for [r] in [[0,1)], and the [Color] output of the group is
    the output of the blackbody node. *)
Theorem star_color_temperature_range (name : string) (r : R) :
  socket_value (built name random_star_color_nodes) (random_input r)
    "ShaderNodeBlackbody" "Temperature"
  = Some (r * 17000 + 3000)%R /\
  ((0 <= r < 1)%R -> (3000 <= r * 17000 + 3000 < 20000)%R) /\
  (let t := built name random_star_color_nodes in
   exists blackbody out n_black n_out color_out color_in,
     index_where (fun n => bl_idname n =? "ShaderNodeBlackbody") (nodes t)
     = Some blackbody /\
     index_where (fun n => bl_idname n =? "NodeGroupOutput") (nodes t) = Some out /\
     nth_error (nodes t) blackbody = Some n_black /\
     nth_error (nodes t) out = Some n_out /\
     find_socket (Name "Color") (outputs n_black) = Some color_out /\
     find_socket (Name "Color") (inputs n_out) = Some color_in /\
     find (link_enters (out, color_in)) (links t)
     = Some (mkLink blackbody color_out out color_in)).
Proof.
  split; [apply star_color_temperature |]. split; [intros; lra |].
  cbv zeta. do 6 eexists. repeat split; reflexivity.
Qed.

(** ** More on [connect_nodes] *)

Lemma accepted_arity (argc : Z) :
  ~ arity_fails argc ->
  (0 < (argc - 1) / 3 /\ argc = 3 * ((argc - 1) / 3) + 1)%Z.
Proof.
  unfold arity_fails. intros H.
  assert (H4 : (4 <= argc)%Z) by lia.
  assert (Hm : ((argc - 4) mod 3 = 0)%Z) by lia.
  pose proof (Z.div_mod (argc - 4) 3 ltac:(lia)) as Hd.
  rewrite Hm in Hd.
  assert (Hq : ((argc - 1) / 3 = (argc - 4) / 3 + 1)%Z).
  { replace (argc - 1)%Z with ((argc - 4) + 1 * 3)%Z by lia.
    rewrite Z.div_add by lia. reflexivity. }
  assert (Hpos : (0 <= (argc - 4) / 3)%Z) by (apply Z.div_pos; lia).
  lia.
Qed.

(** X7: when the arity test passes, the chain has at least one link, the
    variadic arguments are exactly the [3 n + 1] values that the [n]
    steps read, and no step reads outside the argument list. *)
Theorem connect_nodes_reads_in_bounds (args : list pyval) :
  let argc := Z.of_nat (List.length args) in
  let n := range_len ((argc - 1) / 3) in
  ~ arity_fails argc ->
  (1 <= n)%nat /\
  List.length args = (3 * n + 1)%nat /\
  forall i, (i < n)%nat ->
    nth_error args (3 * i) <> None /\
    nth_error args (3 * i + 1) <> None /\
    nth_error args (3 * i + 2) <> None /\
    nth_error args (3 * (i + 1)) <> None.
Proof.
  intros argc n Hok. destruct (accepted_arity argc Hok) as [Hpos Heq].
  assert (Hn : Z.of_nat n = ((argc - 1) / 3)%Z)
    by (unfold n, range_len; apply Z2Nat.id; lia).
  assert (Hlen : List.length args = (3 * n + 1)%nat) by (unfold argc in *; lia).
  split; [lia |]. split; [exact Hlen |].
  intros i Hi. repeat split; apply nth_error_Some; lia.
Qed.

Lemma connect_nodes_reads_in_bounds_witness :
  (1 <= range_len ((Z.of_nat (List.length
      [PyNode 0; PyStr "Random"; PyStr "Random 1"; PyNode 1]) - 1) / 3))%nat.
Proof.
  apply (connect_nodes_reads_in_bounds
           [PyNode 0; PyStr "Random"; PyStr "Random 1"; PyNode 1]).
  intros [H | H]; [discriminate H | apply H; reflexivity].
Defined.

(** What a tree is apart from its links. *)
Lemma connect_link_keeps_nodes (args : list pyval) (i : nat) :
  preserves (fun t => (tree_name t, nodes t, interface t)) (connect_link args i).
Proof.
  unfold connect_link, item, as_node, as_key, node_input, node_output, get_node,
    links_new.
  repeat first
    [ apply preserves_modify; intros ?; reflexivity
    | apply preserves_ret
    | apply preserves_raise
    | apply (preserves_from_option _ _ (fun _ => _))
    | apply preserves_bind; [| intros ?]
    | match goal with
      | |- preserves _ (match ?v with _ => _ end) => destruct v
      end ].
Qed.

(** X8: whatever its outcome, [connect_nodes] changes nothing but the
    links: the nodes with their sockets and default values, the interface
    and the name of the tree are the ones it found. *)
Theorem connect_nodes_only_links (args : list pyval) (t : NodeTree) :
  let t' := snd (connect_nodes args t) in
  tree_name t' = tree_name t /\ nodes t' = nodes t /\ interface t' = interface t.
Proof.
  cbv zeta.
  assert (H : preserves (fun t => (tree_name t, nodes t, interface t))
                (connect_nodes args)).
  { unfold connect_nodes.
    destruct ((_ <? 4)%Z || _)%bool; [apply preserves_raise |].
    apply preserves_for_each. intros i. apply connect_link_keeps_nodes. }
  destruct (connect_nodes args t) as [r t'] eqn:E.
  specialize (H _ _ _ E). simpl in *. inversion H. repeat split; assumption.
Qed.

Lemma unchanged_on_raise_bind {S A B : Type} (m : M S A) (k : A -> M S B) :
  preserves (fun s => s) m -> (forall a, unchanged_on_raise (k a)) ->
  unchanged_on_raise (bind m k).
Proof.
  intros Hm Hk s e s' H. unfold bind in H.
  destruct (m s) as [[a | e1] s1] eqn:E; pose proof (Hm _ _ _ E) as Hs; simpl in Hs;
    subst s1.
  - exact (Hk a _ _ _ H).
  - inversion H. reflexivity.
Qed.

Lemma read_only_node_socket (side : Node -> list Socket) (node : nat) (k : key) :
  preserves (fun t : NodeTree => t)
    (n <- get_node node ;;
     i <- from_option (lookup_error k) (find_socket k (side n)) ;;
     ret (node, i)).
Proof.
  unfold get_node.
  apply preserves_bind; [apply (preserves_from_option _ _ (fun _ => _)) | intros n].
  apply preserves_bind; [| intros ?; apply preserves_ret].
  destruct (find_socket k (side n)); [apply preserves_ret | apply preserves_raise].
Qed.

Lemma read_only_item {A : Type} (l : list A) (i : nat) :
  preserves (fun t : NodeTree => t) (item l i).
Proof. unfold item. destruct (nth_error l i); [apply preserves_ret | apply preserves_raise]. Qed.

Lemma read_only_as_node (v : pyval) : preserves (fun t : NodeTree => t) (as_node v).
Proof. destruct v; first [apply preserves_ret | apply preserves_raise]. Qed.

Lemma read_only_as_key (v : pyval) : preserves (fun t : NodeTree => t) (as_key v).
Proof. destruct v; first [apply preserves_ret | apply preserves_raise]. Qed.

Lemma connect_link_raises_unchanged (args : list pyval) (i : nat) :
  unchanged_on_raise (connect_link args i).
Proof.
  unfold connect_link.
  repeat (apply unchanged_on_raise_bind;
          [first [ apply read_only_item
                 | apply read_only_as_node
                 | apply read_only_as_key
                 | apply (read_only_node_socket inputs)
                 | apply (read_only_node_socket outputs) ]
          | intros ?]).
  intros t e t' H. discriminate H.
Qed.

Lemma from_option_returns {S A : Type} (e : exn) (o : option A) (s s' : S) (a : A) :
  from_option e o s = (Returns a, s') -> o = Some a /\ s' = s.
Proof. destruct o; intros H; inversion H. split; reflexivity. Qed.

Lemma connect_link_returns (args : list pyval) (t t' : NodeTree) (i : nat) (u : unit) :
  connect_link args i t = (Returns u, t') ->
  exists l, requested_link t args i = Some l.
Proof.
  unfold connect_link, item, node_input, node_output, get_node. intros H.
  apply bind_returns in H. destruct H as (node_a & t1 & E1 & H).
  apply from_option_returns in E1. destruct E1 as [Ea ->].
  apply bind_returns in H. destruct H as (node_b & t1 & E1 & H).
  apply from_option_returns in E1. destruct E1 as [Eb ->].
  apply bind_returns in H. destruct H as (output & t1 & E1 & H).
  apply from_option_returns in E1. destruct E1 as [Eo ->].
  apply bind_returns in H. destruct H as (input & t1 & E1 & H).
  apply from_option_returns in E1. destruct E1 as [Ei ->].
  apply bind_returns in H. destruct H as (b & t1 & E1 & H).
  destruct node_b as [b0 | |]; inversion E1; subst b0 t1. clear E1.
  apply bind_returns in H. destruct H as (ki & t1 & E1 & H).
  assert (Eki : key_of input = Some ki /\ t1 = t)
    by (destruct input; inversion E1; split; reflexivity).
  destruct Eki as [Eki ->]. clear E1.
  apply bind_returns in H. destruct H as (socket_in & t1 & E1 & H).
  apply bind_returns in E1. destruct E1 as (nb & t2 & E2 & E1).
  apply from_option_returns in E2. destruct E2 as [Enb ->].
  apply bind_returns in E1. destruct E1 as (si & t2 & E2 & E1).
  apply from_option_returns in E2. destruct E2 as [Esi ->].
  inversion E1; subst socket_in t1. clear E1.
  apply bind_returns in H. destruct H as (a & t1 & E1 & H).
  destruct node_a as [a0 | |]; inversion E1; subst a0 t1. clear E1.
  apply bind_returns in H. destruct H as (ko & t1 & E1 & H).
  assert (Eko : key_of output = Some ko /\ t1 = t)
    by (destruct output; inversion E1; split; reflexivity).
  destruct Eko as [Eko ->]. clear E1.
  apply bind_returns in H. destruct H as (socket_out & t1 & E1 & H).
  apply bind_returns in E1. destruct E1 as (na & t2 & E2 & E1).
  apply from_option_returns in E2. destruct E2 as [Ena ->].
  apply bind_returns in E1. destruct E1 as (so & t2 & E2 & E1).
  apply from_option_returns in E2. destruct E2 as [Eso ->].
  exists (mkLink a so b si).
  unfold requested_link, and_then.
  rewrite Ea, Eb, Eo, Ei. cbn [node_of]. rewrite Eko, Eki, Ena, Enb, Eso, Esi.
  reflexivity.
Qed.

Lemma connect_link_fails (args : list pyval) (t : NodeTree) (i : nat) :
  requested_link t args i = None ->
  exists e, connect_link args i t = (Raises e, t) /\ not_exception (@Raises unit e).
Proof.
  intros H. destruct (connect_link args i t) as [[u | e] t'] eqn:E.
  - apply connect_link_returns in E. destruct E as [l El]. congruence.
  - exists e. rewrite (connect_link_raises_unchanged args i _ _ _ E).
    split; [reflexivity |].
    apply (clean_connect_loop args [i] t (Raises e) t').
    cbn [for_each]. unfold bind. rewrite E. reflexivity.
Qed.

(** X9: [connect_nodes] is not atomic.  When the first [k] links of the
    chain can be made and link [k] names a node or a socket that does
    not exist, the call raises a lookup error of the host and the tree
    keeps the [k] links made so far. *)
Theorem connect_nodes_partial_chain (args : list pyval) (t t1 : NodeTree) (k : nat) :
  let argc := Z.of_nat (List.length args) in
  ~ arity_fails argc ->
  (k < range_len ((argc - 1) / 3))%nat ->
  link_chain t args (seq 0 k) = Some t1 ->
  requested_link t1 args k = None ->
  exists e,
    connect_nodes args t = (Raises e, t1) /\ not_exception (@Raises unit e).
Proof.
  intros argc Hok Hk Hpre Hfail. unfold connect_nodes. fold argc.
  destruct ((argc <? 4)%Z || negb (((argc - 4) mod 3 =? 0)%Z))%bool eqn:E.
  - exfalso. apply Hok. apply arity_test. exact E.
  - set (n := range_len ((argc - 1) / 3)) in *.
    replace n with (k + S (n - S k))%nat by lia.
    rewrite seq_app. cbn [seq Nat.add].
    assert (Happ : forall (xs ys : list nat) (t0 t2 : NodeTree),
      for_each xs (connect_link args) t0 = (Returns tt, t2) ->
      for_each (xs ++ ys) (connect_link args) t0
      = for_each ys (connect_link args) t2).
    { induction xs as [| x xs IH]; intros ys t0 t2 H; cbn [for_each app] in *.
      - inversion H. reflexivity.
      - unfold bind in *. destruct (connect_link args x t0) as [[[] | e] t3];
          [| discriminate]. apply IH. exact H. }
    rewrite (Happ _ _ _ _ (connect_loop_links args (seq 0 k) t t1 Hpre)).
    cbn [for_each]. unfold bind at 1.
    destruct (connect_link_fails args t1 k Hfail) as (e & He & Hclean).
    rewrite He. exists e. split; [reflexivity | exact Hclean].
Qed.

Lemma connect_nodes_partial_chain_witness :
  exists e,
    connect_nodes
      [PyNode 0; PyStr "Random"; PyStr "Random 1"; PyNode 1;
       PyInt 0; PyStr "Missing"; PyNode 0] two_node_tree
    = (Raises e, add_link (mkLink 0 0 1 0) two_node_tree) /\
    not_exception (@Raises unit e).
Proof.
  apply (connect_nodes_partial_chain
           [PyNode 0; PyStr "Random"; PyStr "Random 1"; PyNode 1;
            PyInt 0; PyStr "Missing"; PyNode 0] two_node_tree
           (add_link (mkLink 0 0 1 0) two_node_tree) 1).
  - intros [H | H]; [discriminate H | apply H; reflexivity].
  - simpl. lia.
  - reflexivity.
  - reflexivity.
Defined.

(** ** Group inputs and outputs *)

Lemma known_socket_type (sockets : list string) (i : nat) :
  socket_types_known sockets = true ->
  (i < List.length sockets / 2)%nat ->
  mem ("NodeSocket" ++ nth (2 * i) sockets "")%string interface_socket_types = true.
Proof.
  unfold socket_types_known. intros H Hi.
  rewrite forallb_forall in H. apply (H i). apply in_seq. lia.
Qed.

Lemma declare_loop (direction : string) (sockets : list string) (k : nat) :
  socket_types_known sockets = true ->
  forall (a : nat) (t : NodeTree),
    (2 * (a + k) <= List.length sockets)%nat ->
    for_each (seq a k) (fun i =>
      name <- item sockets (2 * i + 1) ;;
      type <- item sockets (2 * i) ;;
      interface_new_socket name direction ("NodeSocket" ++ type)%string) t
    = (Returns tt,
       fold_left (fun t0 it => declare it t0)
         (map (fun i => mkInterfaceSocket (nth (2 * i + 1) sockets "") direction
                          ("NodeSocket" ++ nth (2 * i) sockets "")%string)
              (seq a k)) t).
Proof.
  intros Hknown.
  induction k as [| k IH]; intros a t Hlen; [reflexivity |].
  cbn [seq for_each map fold_left]. unfold bind at 1. unfold bind at 1. unfold item.
  assert (H1 : nth_error sockets (2 * a + 1) = Some (nth (2 * a + 1) sockets ""))
    by (apply nth_error_nth'; lia).
  assert (H0 : nth_error sockets (2 * a) = Some (nth (2 * a) sockets ""))
    by (apply nth_error_nth'; lia).
  rewrite H1. cbn [from_option ret]. unfold bind at 1. rewrite H0.
  cbn [from_option ret]. unfold interface_new_socket.
  rewrite (known_socket_type sockets a Hknown)
    by (apply Nat.div_le_lower_bound; lia).
  unfold modify. rewrite IH by lia. reflexivity.
Qed.

Lemma declare_all_fields (items : list InterfaceSocket) :
  forall t,
    let t' := fold_left (fun t0 it => declare it t0) items t in
    tree_name t' = tree_name t /\
    links t' = links t /\
    interface t' = interface t ++ items /\
    nodes t'
    = map (fun n => fold_left (fun n0 it => follow_interface it n0) items n) (nodes t).
Proof.
  induction items as [| it items IH]; intros t; cbn [fold_left].
  - rewrite app_nil_r, map_id. repeat split; reflexivity.
  - destruct (IH (declare it t)) as (Hn & Hl & Hi & Hnodes). cbv zeta.
    rewrite Hn, Hl, Hi, Hnodes. unfold declare. cbn.
    rewrite <- app_assoc, map_map. repeat split; reflexivity.
Qed.

Lemma follow_inputs (items : list InterfaceSocket) :
  Forall (fun it => in_out it = "INPUT") items ->
  forall n, bl_idname n = "NodeGroupInput" ->
    fold_left (fun n0 it => follow_interface it n0) items n
    = set_outputs (outputs n ++ map (fun it => plain_socket (item_name it)) items) n.
Proof.
  intros Hall. induction Hall as [| it items Hit _ IH]; intros n Hn; cbn [fold_left map].
  - rewrite app_nil_r. destruct n; reflexivity.
  - unfold follow_interface at 2. rewrite Hn, Hit. cbn [String.eqb Ascii.eqb Bool.eqb andb].
    rewrite IH by exact Hn. cbn [outputs set_outputs]. rewrite <- app_assoc.
    destruct n; reflexivity.
Qed.

Lemma follow_outputs (items : list InterfaceSocket) :
  Forall (fun it => in_out it = "OUTPUT") items ->
  forall n, bl_idname n = "NodeGroupOutput" ->
    fold_left (fun n0 it => follow_interface it n0) items n
    = set_inputs (inputs n ++ map (fun it => plain_socket (item_name it)) items) n.
Proof.
  intros Hall. induction Hall as [| it items Hit _ IH]; intros n Hn; cbn [fold_left map].
  - rewrite app_nil_r. destruct n; reflexivity.
  - unfold follow_interface at 2. rewrite Hn, Hit. cbn [String.eqb Ascii.eqb Bool.eqb andb].
    rewrite IH by exact Hn. cbn [inputs set_inputs]. rewrite <- app_assoc.
    destruct n; reflexivity.
Qed.

Lemma interface_sockets_app (direction : string) (iface items : list InterfaceSocket) :
  Forall (fun it => in_out it = direction) items ->
  interface_sockets direction (iface ++ items)
  = interface_sockets direction iface
    ++ map (fun it => plain_socket (item_name it)) items.
Proof.
  intros Hall. unfold interface_sockets. rewrite filter_app, map_app. f_equal.
  induction Hall as [| it items Hit _ IH]; [reflexivity |].
  cbn [filter]. rewrite Hit, String.eqb_refl. cbn [map]. rewrite IH. reflexivity.
Qed.

Lemma declared_direction (direction : string) (sockets : list string) :
  Forall (fun it => in_out it = direction) (declared_sockets direction sockets).
Proof.
  unfold declared_sockets. apply Forall_forall. intros it Hit.
  apply in_map_iff in Hit. destruct Hit as (i & <- & _). reflexivity.
Qed.

Lemma pair_test (n : nat) :
  ((Z.of_nat n mod 2 =? 0)%Z = true <-> (n mod 2 = 0)%nat) /\
  ((Z.of_nat n mod 2 =? 0)%Z = false <-> (n mod 2 = 1)%nat).
Proof.
  change 2%Z with (Z.of_nat 2). rewrite <- Nat2Z.inj_mod.
  pose proof (Nat.mod_upper_bound n 2 ltac:(lia)) as Hb.
  split; [rewrite Z.eqb_eq | rewrite Z.eqb_neq]; lia.
Qed.

(** X10: [make_group_inputs] with an odd number of socket arguments
    raises before it touches the tree.  With an even number of them,
    each type being a socket type of the host, it adds one group input
    node at [(x, y)], returns it, and declares the sockets in the order
    given, each pair being a type and a name; the outputs of the new node
    are the inputs of the interface, the links stay as they were. *)
Theorem make_group_inputs_declares (x y : Z) (sockets : list string) (t : NodeTree) :
  ((List.length sockets mod 2 = 1)%nat ->
   make_group_inputs x y sockets t
   = (Raises (Exception "Invalid number of arguments!"), t)) /\
  ((List.length sockets mod 2 = 0)%nat ->
   socket_types_known sockets = true ->
   exists t' n,
     make_group_inputs x y sockets t = (Returns (List.length (nodes t)), t') /\
     tree_name t' = tree_name t /\
     links t' = links t /\
     interface t' = interface t ++ declared_sockets "INPUT" sockets /\
     List.length (nodes t') = S (List.length (nodes t)) /\
     nth_error (nodes t') (List.length (nodes t)) = Some n /\
     bl_idname n = "NodeGroupInput" /\
     location n = (x, y) /\
     inputs n = [] /\
     outputs n = interface_sockets "INPUT" (interface t')).
Proof.
  destruct (pair_test (List.length sockets)) as [Heven Hodd].
  unfold make_group_inputs. split; [intros H | intros H Hknown].
  - apply Hodd in H. rewrite H. reflexivity.
  - apply Heven in H. rewrite H. cbn [negb].
    unfold bind at 1. unfold nodes_new.
    change (node_template (interface t) "NodeGroupInput")
      with (Some (mkNode "NodeGroupInput" (0, 0)%Z "" None []
                    (interface_sockets "INPUT" (interface t)))).
    unfold bind at 1. unfold node_set at 1, modify.
    cbn [nodes set_nodes]. rewrite update_app_last. cbn [set_location].
    unfold bind at 1.
    rewrite (declare_loop "INPUT" sockets (List.length sockets / 2) Hknown 0)
      by (pose proof (Nat.div_mod_eq (List.length sockets) 2); lia).
    fold (declared_sockets "INPUT" sockets).
    match goal with
    | |- context [fold_left _ _ ?t0] =>
        destruct (declare_all_fields (declared_sockets "INPUT" sockets) t0)
          as (Hn & Hl & Hi & Hnodes)
    end.
    cbv zeta in *. cbn [tree_name links interface nodes set_nodes] in *.
    eexists. eexists. split; [reflexivity |].
    rewrite Hn, Hl, Hi, Hnodes.
    split; [reflexivity |]. split; [reflexivity |]. split; [reflexivity |].
    split; [rewrite length_map, length_app; simpl; lia |].
    rewrite nth_error_map, nth_error_app_last. cbn [option_map].
    rewrite follow_inputs by (reflexivity || apply declared_direction).
    cbn [outputs set_outputs bl_idname location inputs].
    rewrite interface_sockets_app by apply declared_direction.
    repeat split; reflexivity.
Qed.

(** X11: [make_group_outputs] behaves in the same way on the other side
    of the interface: an odd number of socket arguments raises with the
    tree untouched; an even number of them, each type being a socket
    type of the host, adds one group output node whose inputs are the
    outputs of the interface, extended by the declared sockets in
    order. *)
Theorem make_group_outputs_declares (x y : Z) (sockets : list string) (t : NodeTree) :
  ((List.length sockets mod 2 = 1)%nat ->
   make_group_outputs x y sockets t
   = (Raises (Exception "Invalid number of arguments!"), t)) /\
  ((List.length sockets mod 2 = 0)%nat ->
   socket_types_known sockets = true ->
   exists t' n,
     make_group_outputs x y sockets t = (Returns (List.length (nodes t)), t') /\
     tree_name t' = tree_name t /\
     links t' = links t /\
     interface t' = interface t ++ declared_sockets "OUTPUT" sockets /\
     List.length (nodes t') = S (List.length (nodes t)) /\
     nth_error (nodes t') (List.length (nodes t)) = Some n /\
     bl_idname n = "NodeGroupOutput" /\
     location n = (x, y) /\
     outputs n = [] /\
     inputs n = interface_sockets "OUTPUT" (interface t')).
Proof.
  destruct (pair_test (List.length sockets)) as [Heven Hodd].
  unfold make_group_outputs. split; [intros H | intros H Hknown].
  - apply Hodd in H. rewrite H. reflexivity.
  - apply Heven in H. rewrite H. cbn [negb].
    unfold bind at 1. unfold nodes_new.
    change (node_template (interface t) "NodeGroupOutput")
      with (Some (mkNode "NodeGroupOutput" (0, 0)%Z "" None
                    (interface_sockets "OUTPUT" (interface t)) [])).
    unfold bind at 1. unfold node_set at 1, modify.
    cbn [nodes set_nodes]. rewrite update_app_last. cbn [set_location].
    unfold bind at 1.
    rewrite (declare_loop "OUTPUT" sockets (List.length sockets / 2) Hknown 0)
      by (pose proof (Nat.div_mod_eq (List.length sockets) 2); lia).
    fold (declared_sockets "OUTPUT" sockets).
    match goal with
    | |- context [fold_left _ _ ?t0] =>
        destruct (declare_all_fields (declared_sockets "OUTPUT" sockets) t0)
          as (Hn & Hl & Hi & Hnodes)
    end.
    cbv zeta in *. cbn [tree_name links interface nodes set_nodes] in *.
    eexists. eexists. split; [reflexivity |].
    rewrite Hn, Hl, Hi, Hnodes.
    split; [reflexivity |]. split; [reflexivity |]. split; [reflexivity |].
    split; [rewrite length_map, length_app; simpl; lia |].
    rewrite nth_error_map, nth_error_app_last. cbn [option_map].
    rewrite follow_outputs by (reflexivity || apply declared_direction).
    cbn [outputs set_inputs bl_idname location inputs].
    rewrite interface_sockets_app by apply declared_direction.
    repeat split; reflexivity.
Qed.

(** ** Hiding the unused outputs *)

Lemma length_update {A : Type} (f : A -> A) (i : nat) (l : list A) :
  List.length (update i f l) = List.length l.
Proof.
  revert i. induction l as [| x l IH]; intros i; [reflexivity |].
  destruct i; simpl; [| rewrite IH]; reflexivity.
Qed.

Lemma update_update {A : Type} (f g : A -> A) (i : nat) (l : list A) :
  update i g (update i f l) = update i (fun x => g (f x)) l.
Proof.
  revert i. induction l as [| x l IH]; intros i; [reflexivity |].
  destruct i; simpl; [| rewrite IH]; reflexivity.
Qed.

Lemma update_ext {A : Type} (f g : A -> A) (i : nat) (l : list A) :
  (forall x, f x = g x) -> update i f l = update i g l.
Proof.
  intros H. revert i. induction l as [| x l IH]; intros i; [reflexivity |].
  destruct i; simpl; [rewrite H | rewrite IH]; reflexivity.
Qed.

Lemma update_id {A : Type} (i : nat) (l : list A) : update i (fun x => x) l = l.
Proof.
  revert i. induction l as [| x l IH]; intros i; [reflexivity |].
  destruct i; simpl; [| rewrite IH]; reflexivity.
Qed.

Lemma nth_error_update_at {A : Type} (f : A -> A) (i j : nat) (l : list A) :
  nth_error (update i f l) j
  = if (i =? j)%nat then option_map f (nth_error l j) else nth_error l j.
Proof.
  revert i j. induction l as [| x l IH]; intros i j.
  - destruct j; destruct (i =? _)%nat; reflexivity.
  - destruct i, j; simpl; try reflexivity. apply IH.
Qed.

Lemma hide_loop (node : nat) (js : list nat) :
  forall t,
    for_each js (fun j =>
      is_linked <- gets (fun t0 => existsb (link_leaves (node, j)) (links t0)) ;;
      if negb is_linked then
        node_set node (fun n => set_outputs (update j (set_hide true) (outputs n)) n)
      else ret tt) t
    = (Returns tt,
       set_nodes (update node (fun n =>
                    set_outputs (fold_left (hide_step node (links t)) js (outputs n)) n)
                    (nodes t)) t).
Proof.
  induction js as [| j js IH]; intros t.
  - cbn [for_each fold_left]. unfold ret. f_equal.
    rewrite (update_ext _ (fun n => n)) by (intros []; reflexivity).
    rewrite update_id. destruct t; reflexivity.
  - cbn [for_each fold_left]. unfold bind at 1. unfold bind at 1. unfold gets.
    unfold hide_step at 2.
    destruct (existsb (link_leaves (node, j)) (links t)) eqn:E; cbn [negb].
    + unfold ret. apply IH.
    + unfold node_set, modify. rewrite IH. cbn [links nodes set_nodes]. f_equal.
      unfold set_nodes. cbn [tree_name links interface nodes]. f_equal.
      rewrite update_update. apply update_ext. intros []; reflexivity.
Qed.

Lemma hide_fold (node : nat) (ls : list Link) (js : list nat) :
  forall outs j,
    nth_error (fold_left (hide_step node ls) js outs) j
    = if (existsb (Nat.eqb j) js && negb (existsb (link_leaves (node, j)) ls))%bool
      then option_map (set_hide true) (nth_error outs j)
      else nth_error outs j.
Proof.
  induction js as [| a js IH]; intros outs j; [reflexivity |].
  cbn [fold_left existsb]. rewrite IH. unfold hide_step.
  destruct (existsb (link_leaves (node, a)) ls) eqn:Ea.
  - destruct (Nat.eqb_spec j a) as [-> | Hne]; cbn [orb]; [| reflexivity].
    rewrite Ea. cbn [negb]. rewrite !andb_false_r. reflexivity.
  - rewrite nth_error_update_at. rewrite (Nat.eqb_sym a j).
    destruct (Nat.eqb_spec j a) as [-> | Hne]; cbn [orb]; [| reflexivity].
    rewrite Ea. cbn [negb andb].
    destruct (existsb (Nat.eqb a) js); cbn [andb];
      destruct (nth_error outs a) as [[] |]; reflexivity.
Qed.

(** X12: [hide_node_outputs] hides exactly the output sockets of the node
    that no link leaves; a linked output keeps its flag, and nothing else
    changes: not the other nodes, not the links, not the inputs, names or
    default values of the node itself. *)
Theorem hide_node_outputs_effect (node : nat) (t : NodeTree) (n : Node) :
  nth_error (nodes t) node = Some n ->
  exists t' n',
    hide_node_outputs node t = (Returns tt, t') /\
    tree_name t' = tree_name t /\ links t' = links t /\ interface t' = interface t /\
    List.length (nodes t') = List.length (nodes t) /\
    (forall m, m <> node -> nth_error (nodes t') m = nth_error (nodes t) m) /\
    nth_error (nodes t') node = Some n' /\
    set_outputs (outputs n) n' = n /\
    forall j,
      nth_error (outputs n') j
      = option_map (fun so =>
                      if existsb (link_leaves (node, j)) (links t) then so
                      else set_hide true so)
          (nth_error (outputs n) j).
Proof.
  intros Hn. unfold hide_node_outputs, bind at 1, get_node.
  rewrite Hn. cbn [from_option ret]. rewrite hide_loop.
  eexists. eexists. split; [reflexivity |]. cbn [tree_name links interface nodes set_nodes].
  split; [reflexivity |]. split; [reflexivity |]. split; [reflexivity |].
  split; [apply length_update |].
  split; [intros m Hm; rewrite nth_error_update_at;
          destruct (Nat.eqb_spec node m); [congruence | reflexivity] |].
  split; [apply nth_error_update; exact Hn |].
  split; [destruct n; reflexivity |].
  intros j. cbn [outputs set_outputs]. rewrite hide_fold.
  destruct (nth_error (outputs n) j) as [so |] eqn:Ej; cbn [option_map].
  - assert (Hin : existsb (Nat.eqb j) (seq 0 (List.length (outputs n))) = true).
    { apply existsb_exists. exists j. split; [| apply Nat.eqb_refl].
      apply in_seq. assert (j < List.length (outputs n))%nat
        by (apply nth_error_Some; rewrite Ej; discriminate). lia. }
    rewrite Hin. cbn [andb].
    destruct (existsb (link_leaves (node, j)) (links t)); reflexivity.
  - destruct (_ && _)%bool; reflexivity.
Qed.

Lemma hide_node_outputs_effect_witness :
  exists t' n',
    hide_node_outputs 1 light_path_tree = (Returns tt, t') /\
    tree_name t' = tree_name light_path_tree /\
    links t' = links light_path_tree /\
    interface t' = interface light_path_tree /\
    List.length (nodes t') = List.length (nodes light_path_tree) /\
    (forall m, m <> 1%nat -> nth_error (nodes t') m = nth_error (nodes light_path_tree) m) /\
    nth_error (nodes t') 1 = Some n' /\
    set_outputs (outputs light_path_node) n' = light_path_node /\
    forall j,
      nth_error (outputs n') j
      = option_map (fun so =>
                      if existsb (link_leaves (1%nat, j)) (links light_path_tree) then so
                      else set_hide true so)
          (nth_error (outputs light_path_node) j).
Proof.
  apply (hide_node_outputs_effect 1 light_path_tree light_path_node).
  reflexivity.
Defined.

(** ** Creating or reusing an object *)

Section Reuse.
Context {gen : PRNG}.

(** X13: [create_or_reuse_mesh_object] is idempotent: called again with
    the same name on the session it has just left, it returns the same
    object and leaves that session exactly as it is; no second mesh,
    object or collection entry appears. *)
Theorem create_or_reuse_idempotent (name : string) (s : Session gen) :
  create_or_reuse_mesh_object name (snd (create_or_reuse_mesh_object name s))
  = create_or_reuse_mesh_object name s.
Proof.
  rewrite (create_or_reuse_run name s). cbv zeta.
  destruct (index_where (named mesh_name (name ++ "_mesh")%string) (meshes s))
    as [m |] eqn:Em;
    destruct (index_where (named obj_name name) (objects s)) as [o |] eqn:Eo;
    cbn [snd]; rewrite create_or_reuse_run; cbv zeta;
    cbn [meshes objects set_meshes set_objects set_collection_objects].
  - rewrite index_where_update by reflexivity. rewrite Em, Eo.
    destruct s. unfold set_meshes. cbn. rewrite update_update. reflexivity.
  - rewrite index_where_update by reflexivity. rewrite Em.
    rewrite (index_where_app_none _ _ _ Eo). unfold named at 1. cbn [obj_name new_object].
    rewrite String.eqb_refl.
    destruct s. unfold set_meshes, set_objects, set_collection_objects. cbn.
    rewrite update_update. reflexivity.
  - rewrite (index_where_app_none _ _ _ Em). unfold named at 1. cbn [mesh_name].
    rewrite String.eqb_refl. rewrite Eo.
    destruct s. unfold set_meshes. cbn. rewrite update_app_last. reflexivity.
  - rewrite (index_where_app_none _ _ _ Em). unfold named at 1. cbn [mesh_name].
    rewrite String.eqb_refl.
    rewrite (index_where_app_none _ _ _ Eo). unfold named at 1. cbn [obj_name new_object].
    rewrite String.eqb_refl.
    destruct s. unfold set_meshes, set_objects, set_collection_objects. cbn.
    rewrite update_app_last. reflexivity.
Qed.

(** X14: when an object of that name exists, it is returned as it is:
    the objects and the collection are unchanged, so the object keeps
    the data it had.  The mesh of the name is emptied when there is one;
    when there is none a new empty mesh is registered, which the object
    does not receive. *)
Theorem create_or_reuse_existing_object (name : string) (s : Session gen) (obj : nat) :
  index_where (named obj_name name) (objects s) = Some obj ->
  exists s',
    create_or_reuse_mesh_object name s = (Returns obj, s') /\
    objects s' = objects s /\
    collection_objects s' = collection_objects s /\
    materials s' = materials s /\ node_groups s' = node_groups s /\
    match index_where (named mesh_name (name ++ "_mesh")%string) (meshes s) with
    | Some m =>
        meshes s' = update m (fun me => mkMesh (mesh_name me) [] [] []) (meshes s)
    | None =>
        meshes s' = meshes s ++ [mkMesh (name ++ "_mesh")%string [] [] []]
    end.
Proof.
  intros Ho. rewrite create_or_reuse_run. cbv zeta. rewrite Ho.
  destruct (index_where (named mesh_name (name ++ "_mesh")%string) (meshes s));
    eexists; repeat split; reflexivity.
Qed.
End Reuse.

(** ** What a successful call leaves behind *)

Section Outcome.
Context {gen : PRNG}.

Lemma install_constraint_by {C V : Type} (core : Object -> C)
    (view : Session gen -> V) (props : Props) (stars_obj camera : nat) :
  (forall obj f s, (forall o, core (f o) = core o) ->
                   view (set_objects (update obj f) s) = view s) ->
  (forall f o, core (set_constraints f o) = core o) ->
  preserves view (install_constraint props stars_obj camera).
Proof.
  intros Hv Hc. unfold install_constraint, constraints_clear, constraints_new,
    constraint_set_target.
  apply preserves_bind;
    [apply preserves_object_set; intros s; apply Hv; intros o; apply Hc | intros ?].
  destruct (camera_lock props); [| apply preserves_ret].
  apply preserves_bind; [| intros ?].
  - apply preserves_bind; [apply preserves_get_object | intros o].
    apply preserves_bind; [| intros ?; apply preserves_ret].
    apply preserves_object_set; intros s; apply Hv; intros o0; apply Hc.
  - apply preserves_object_set; intros s; apply Hv; intros o0; apply Hc.
Qed.

Lemma install_drivers_by {C V : Type} (core : Object -> C)
    (view : Session gen -> V) (stars_obj template_obj camera : nat) :
  (forall obj f s, (forall o, core (f o) = core o) ->
                   view (set_objects (update obj f) s) = view s) ->
  (forall f o, core (set_drivers f o) = core o) ->
  preserves view (install_drivers stars_obj template_obj camera).
Proof.
  intros Hv Hc. unfold install_drivers, driver_add, add_variable, set_expression,
    fcurve_set.
  repeat first
    [ apply preserves_object_set; intros ?; apply Hv; intros ?; apply Hc
    | apply preserves_get_object
    | apply preserves_data_id_data
    | apply preserves_ret
    | apply preserves_for_each; intros ?
    | apply preserves_bind; [| intros ?]
    | match goal with
      | |- preserves _ (let (_, _) := ?p in _) => destruct p
      end ].
Qed.

Lemma create_or_reuse_frame {V : Type} (view : Session gen -> V) (name : string) :
  (forall f s, view (set_meshes f s) = view s) ->
  (forall f s, view (set_objects f s) = view s) ->
  (forall f s, view (set_collection_objects f s) = view s) ->
  preserves view (create_or_reuse_mesh_object name).
Proof.
  intros Hm Ho Hc s r s' H. rewrite create_or_reuse_run in H. cbv zeta in H.
  destruct (index_where _ (meshes s)); destruct (index_where _ (objects s));
    inversion H; subst; rewrite ?Hc, ?Ho, ?Hm; reflexivity.
Qed.

Lemma generate_registry_blind {V : Type} (view : Session gen -> V) (props : Props)
    (s s' : Session gen) :
  registry_blind view ->
  generate_starscape props s = (Returns true, s') ->
  view s'
  = view (set_random_state
            (advance (rng_seed (random_seed props))
               (2 * range_len (star_count (star_density props) (hemisphere props))))
            s).
Proof.
  intros (Hm & Ho & Hc & Hmat & Hg & Hw) H. apply generate_steps in H.
  destruct H as (camera & vs & s1 & stars_obj & s2 & s3 & template_obj & s4 & s5
                 & s6 & shader & s7 & s8 & s9 & Hcam & P1 & P2 & P3 & P4 & P5 & P6
                 & P7 & P8 & P9 & P10 & P11).
  rewrite star_positions_stream in P1. inversion P1; subst vs s1. clear P1.
  rewrite (after_geometry view props stars_obj template_obj camera shader
             s5 s6 s7 s8 s9 s'); try assumption;
    [| split; assumption | apply field_blind; assumption].
  rewrite (from_pydata_frame view template_obj template_vertices template_edges
             template_faces Hm _ _ _ P5).
  rewrite (create_or_reuse_frame view _ Hm Ho Hc _ _ _ P4).
  rewrite (from_pydata_frame view stars_obj _ [] [] Hm _ _ _ P3).
  rewrite (create_or_reuse_frame view _ Hm Ho Hc _ _ _ P2).
  reflexivity.
Qed.

(** X15: a successful call leaves the generator of [random] where the
    star loop left it, two draws per star after the seed: the state of
    the generator before the call is lost, whatever else the session
    uses it for.  The active camera of the scene is not changed. *)
Theorem generate_reseeds_generator (props : Props) (s s' : Session gen) :
  generate_starscape props s = (Returns true, s') ->
  random_state s'
  = advance (rng_seed (random_seed props))
      (2 * range_len (star_count (star_density props) (hemisphere props))) /\
  scene_camera s' = scene_camera s.
Proof.
  intros H. split.
  - rewrite (generate_registry_blind random_state props s s'); [reflexivity | | exact H].
    repeat split; reflexivity.
  - rewrite (generate_registry_blind scene_camera props s s'); [reflexivity | | exact H].
    repeat split; reflexivity.
Qed.
End Outcome.

Lemma generate_reseeds_generator_witness :
  random_state (after some_props fresh_scene)
  = advance (gen := lcg) (rng_seed (random_seed some_props))
      (2 * range_len (star_count (star_density some_props) (hemisphere some_props))) /\
  scene_camera (after some_props fresh_scene) = scene_camera fresh_scene.
Proof.
  apply (generate_reseeds_generator some_props fresh_scene
           (after some_props fresh_scene)).
  exact fresh_scene_generates.
Defined.

Lemma create_or_reuse_existing_object_witness :
  exists s',
    create_or_reuse_mesh_object "Camera" fresh_scene = (Returns 0%nat, s') /\
    objects s' = objects fresh_scene /\
    collection_objects s' = collection_objects fresh_scene /\
    materials s' = materials fresh_scene /\
    node_groups s' = node_groups fresh_scene /\
    meshes s' = meshes fresh_scene ++ [mkMesh "Camera_mesh" [] [] []].
Proof.
  apply (create_or_reuse_existing_object "Camera" fresh_scene 0%nat).
  reflexivity.
Defined.

(** ** The camera test and the last stage *)

Section Ends.
Context {gen : PRNG}.

(** X16: when the active camera of the scene is an object whose data is
    not a camera (an empty, a mesh object), reading [camera.data.type]
    raises [AttributeError]: the call neither returns [False] nor
    touches the session. *)
Theorem generate_camera_without_camera_data (props : Props) (s : Session gen)
    (camera : nat) (o : Object) :
  scene_camera s = Some camera ->
  nth_error (objects s) camera = Some o ->
  (forall cam, data o <> CameraData cam) ->
  generate_starscape props s = (Raises AttributeError, s).
Proof.
  intros Hc Ho Hd. unfold generate_starscape, bind at 1, gets. rewrite Hc.
  unfold bind at 1, data_type, bind at 1, get_object. rewrite Ho. cbn [from_option ret].
  destruct (data o) as [| m | cam]; [reflexivity | reflexivity |].
  destruct (Hd cam). reflexivity.
Qed.

(** The last stage, run on any session. *)
Lemma bind_scene_run (props : Props) (stars_obj template_obj : nat) (s : Session gen) :
  bind_scene props stars_obj template_obj s
  = let s1 :=
      set_objects (fun l =>
        update template_obj (set_hide_viewport true)
          (update stars_obj (set_show_instancer_for_render false)
             (update stars_obj (set_use_instance_vertices_rotation true)
                (update stars_obj (set_instance_type "VERTS")
                   (update template_obj (set_parent (Some stars_obj)) l))))) s in
    if clear_world_bg props then
      match world s with
      | Some w => (Returns tt, set_world (Some (mkWorld false (0, 0, 0)%R)) s1)
      | None => (Raises AttributeError, s1)
      end
    else (Returns tt, s1).
Proof.
  unfold bind_scene, bind, object_set, modify, world_set. cbv zeta.
  destruct s as [ms os mats gs col cam w g].
  destruct (clear_world_bg props); [| reflexivity].
  cbn. destruct w; reflexivity.
Qed.

Lemma world_until_bind_scene (props : Props) (s s' : Session gen) :
  generate_starscape props s = (Returns true, s') ->
  exists stars_obj template_obj s9,
    bind_scene props stars_obj template_obj s9 = (Returns tt, s') /\
    world s9 = world s.
Proof.
  intros H. apply generate_steps in H.
  destruct H as (camera & vs & s1 & stars_obj & s2 & s3 & template_obj & s4 & s5
                 & s6 & shader & s7 & s8 & s9 & Hcam & P1 & P2 & P3 & P4 & P5 & P6
                 & P7 & P8 & P9 & P10 & P11).
  exists stars_obj, template_obj, s9. split; [exact P11 |].
  rewrite star_positions_stream in P1. inversion P1; subst vs s1. clear P1.
  rewrite (install_drivers_by (fun _ => tt) world stars_obj template_obj camera
             (fun _ _ _ _ => eq_refl) (fun _ _ => eq_refl) _ _ _ P10).
  rewrite (install_constraint_by (fun _ => tt) world props stars_obj camera
             (fun _ _ _ _ => eq_refl) (fun _ _ => eq_refl) _ _ _ P9).
  rewrite (preserves_object_set world template_obj (set_active_material (Some shader))
             (fun _ => eq_refl) _ _ _ P8).
  rewrite (build_shader_frame world props (conj (fun _ _ => eq_refl) (fun _ _ => eq_refl))
             _ _ _ P6).
  rewrite (from_pydata_frame world template_obj template_vertices template_edges
             template_faces (fun _ _ => eq_refl) _ _ _ P5).
  rewrite (create_or_reuse_frame world _ (fun _ _ => eq_refl) (fun _ _ => eq_refl)
             (fun _ _ => eq_refl) _ _ _ P4).
  rewrite (from_pydata_frame world stars_obj _ [] [] (fun _ _ => eq_refl) _ _ _ P3).
  rewrite (create_or_reuse_frame world _ (fun _ _ => eq_refl) (fun _ _ => eq_refl)
             (fun _ _ => eq_refl) _ _ _ P2).
  reflexivity.
Qed.

(** X17: the world background after a successful call.  With
    [clear_world_bg] the context has a world, which ends with its nodes
    off and the colour black, whatever it was; the call cannot succeed
    in a context without a world.  Without [clear_world_bg] the world is
    left as it is. *)
Theorem generate_world_background (props : Props) (s s' : Session gen) :
  generate_starscape props s = (Returns true, s') ->
  if clear_world_bg props then
    world s <> None /\ world s' = Some (mkWorld false (0, 0, 0)%R)
  else world s' = world s.
Proof.
  intros H. destruct (world_until_bind_scene props s s' H)
    as (stars_obj & template_obj & s9 & P11 & W9).
  rewrite bind_scene_run in P11. cbv zeta in P11. rewrite W9 in P11.
  destruct (clear_world_bg props).
  - destruct (world s) as [w |]; [| discriminate].
    inversion P11; subst s'. split; [discriminate | reflexivity].
  - inversion P11; subst s'. cbn [world set_objects]. exact W9.
Qed.
End Ends.

Lemma generate_camera_without_camera_data_witness :
  generate_starscape some_props
    (@mkSession lcg [] [mkObject "Empty" NoData None [] [] None "NONE" false true false]
       [] [] [0%nat] (Some 0%nat) None 0%Z)
  = (Raises AttributeError,
     @mkSession lcg [] [mkObject "Empty" NoData None [] [] None "NONE" false true false]
       [] [] [0%nat] (Some 0%nat) None 0%Z).
Proof.
  apply (generate_camera_without_camera_data some_props _ 0%nat
           (mkObject "Empty" NoData None [] [] None "NONE" false true false)).
  - reflexivity.
  - reflexivity.
  - intros cam. discriminate.
Defined.

Lemma generate_world_background_witness :
  world fresh_scene <> None /\
  world (after some_props fresh_scene) = Some (mkWorld false (0, 0, 0)%R).
Proof.
  apply (generate_world_background some_props fresh_scene (after some_props fresh_scene)).
  exact fresh_scene_generates.
Defined.

(** ** The two objects *)

Section Objects.
Context {gen : PRNG}.

Lemma create_or_reuse_accounting (name : string) (s s' : Session gen) (obj : nat) :
  create_or_reuse_mesh_object name s = (Returns obj, s') ->
  exists tail,
    objects s' = objects s ++ tail /\
    map obj_name tail = created name s /\
    collection_objects s'
    = collection_objects s ++ seq (List.length (objects s)) (List.length tail) /\
    index_where (named obj_name name) (objects s') = Some obj.
Proof.
  rewrite create_or_reuse_run. cbv zeta. unfold created. intros H.
  destruct (index_where (named mesh_name (name ++ "_mesh")%string) (meshes s))
    as [m |];
    destruct (index_where (named obj_name name) (objects s)) as [o |] eqn:Eo;
    inversion H; subst; clear H;
    cbn [objects collection_objects set_meshes set_objects set_collection_objects].
  - exists []. rewrite !app_nil_r. repeat split; exact Eo.
  - eexists [_]. repeat split.
    rewrite (index_where_app_none _ _ _ Eo). unfold named at 1. cbn.
    rewrite String.eqb_refl. reflexivity.
  - exists []. rewrite !app_nil_r. repeat split; exact Eo.
  - eexists [_]. repeat split.
    rewrite (index_where_app_none _ _ _ Eo). unfold named at 1. cbn.
    rewrite String.eqb_refl. reflexivity.
Qed.

Lemma created_elsewhere (name other : string) (s : Session gen) (tail : list Object) :
  map obj_name tail = created other s ->
  (other =? name) = false ->
  Forall (fun o => named obj_name name o = false) tail.
Proof.
  unfold created. intros Ht Hn.
  destruct (index_where (named obj_name other) (objects s)).
  - destruct tail; [constructor | discriminate].
  - destruct tail as [| o [| o' tail]]; try discriminate.
    inversion Ht as [Ho]. repeat constructor. unfold named. rewrite Ho. exact Hn.
Qed.

(** The two objects of a successful call, as the geometry stage leaves
    them. *)
Lemma geometry_objects (vs : list vec3) (s1 s2 s3 s4 s5 : Session gen)
    (stars_obj template_obj : nat) :
  create_or_reuse_mesh_object "Starscape" s1 = (Returns stars_obj, s2) ->
  from_pydata stars_obj vs [] [] s2 = (Returns tt, s3) ->
  create_or_reuse_mesh_object "Star_Template" s3 = (Returns template_obj, s4) ->
  from_pydata template_obj template_vertices template_edges template_faces s4
  = (Returns tt, s5) ->
  exists tail,
    objects s5 = objects s1 ++ tail /\
    map obj_name tail = created "Starscape" s1 ++ created "Star_Template" s1 /\
    collection_objects s5
    = collection_objects s1 ++ seq (List.length (objects s1)) (List.length tail) /\
    index_where (named obj_name "Starscape") (objects s5) = Some stars_obj /\
    index_where (named obj_name "Star_Template") (objects s5) = Some template_obj /\
    stars_obj <> template_obj.
Proof.
  intros P2 P3 P4 P5.
  destruct (create_or_reuse_accounting _ _ _ _ P2) as (tail2 & O2 & N2 & C2 & I2).
  destruct (create_or_reuse_accounting _ _ _ _ P4) as (tail4 & O4 & N4 & C4 & I4).
  assert (O3 : objects s3 = objects s2)
    by (apply (from_pydata_frame objects _ _ _ _ (fun _ _ => eq_refl) _ _ _ P3)).
  assert (C3 : collection_objects s3 = collection_objects s2)
    by (apply (from_pydata_frame collection_objects _ _ _ _ (fun _ _ => eq_refl)
                 _ _ _ P3)).
  assert (O5 : objects s5 = objects s4)
    by (apply (from_pydata_frame objects _ _ _ _ (fun _ _ => eq_refl) _ _ _ P5)).
  assert (C5 : collection_objects s5 = collection_objects s4)
    by (apply (from_pydata_frame collection_objects _ _ _ _ (fun _ _ => eq_refl)
                 _ _ _ P5)).
  assert (N4' : created "Star_Template" s3 = created "Star_Template" s1).
  { unfold created. rewrite O3, O2.
    rewrite (index_where_app_miss _ _ _
               (created_elsewhere "Star_Template" "Starscape" s1 tail2 N2 eq_refl)).
    reflexivity. }
  assert (Is : index_where (named obj_name "Starscape") (objects s5) = Some stars_obj).
  { rewrite O5, O4. apply index_where_app_some. rewrite O3. exact I2. }
  assert (It : index_where (named obj_name "Star_Template") (objects s5)
               = Some template_obj) by (rewrite O5; exact I4).
  exists (tail2 ++ tail4). repeat split.
  - rewrite O5, O4, O3, O2, app_assoc. reflexivity.
  - rewrite map_app, N2, N4, N4'. reflexivity.
  - rewrite C5, C4, C3, C2, O3, O2, <- app_assoc, !length_app, seq_app.
    reflexivity.
  - exact Is.
  - exact It.
  - intros Heq. subst template_obj.
    destruct (index_where_nth _ _ _ Is) as (a & Ha & Na).
    destruct (index_where_nth _ _ _ It) as (b & Hb & Nb).
    rewrite Ha in Hb. inversion Hb; subst b.
    apply named_true in Na. apply named_true in Nb. rewrite Na in Nb. discriminate.
Qed.

(** What follows the material stage leaves alone what does not depend on
    the world, or on more of an object than its name and data. *)
Lemma after_shader {V : Type} (view : Session gen -> V) (props : Props)
    (stars_obj template_obj camera shader : nat) (s6 s7 s8 s9 s' : Session gen) :
  object_blind object_id view ->
  object_set template_obj (set_active_material (Some shader)) s6 = (Returns tt, s7) ->
  install_constraint props stars_obj camera s7 = (Returns tt, s8) ->
  install_drivers stars_obj template_obj camera s8 = (Returns tt, s9) ->
  bind_scene props stars_obj template_obj s9 = (Returns tt, s') ->
  view s' = view s6.
Proof.
  intros Ho P8 P9 P10 P11.
  rewrite (bind_scene_frame view _ _ _ (object_blind_core _ Ho) _ _ _ P11).
  rewrite (install_drivers_frame view _ _ _ (object_blind_core _ Ho) _ _ _ P10).
  rewrite (install_constraint_frame view _ _ _ Ho _ _ _ P9).
  apply (preserves_object_set view template_obj (set_active_material (Some shader)))
    with (r := Returns tt); [| exact P8].
  intros s. apply (proj1 Ho). intros []; reflexivity.
Qed.

Lemma nth_error_same_map {A B : Type} (g : A -> B) (l l' : list A) (i : nat) (x : A) :
  map g l' = map g l -> nth_error l i = Some x ->
  exists y, nth_error l' i = Some y /\ g y = g x.
Proof.
  intros Hm Hx.
  assert (H : nth_error (map g l') i = Some (g x))
    by (rewrite Hm, nth_error_map, Hx; reflexivity).
  rewrite nth_error_map in H.
  destruct (nth_error l' i) as [y |]; [| discriminate].
  exists y. split; [reflexivity |]. inversion H. reflexivity.
Qed.

(** X18: objects and collection after a successful call.  The objects
    that were there keep their place, name and data; an object is made
    only for a name that no object carried, under exactly that name,
    the star field before the template, and each new object is linked
    to the collection once.  An object found by its name is not linked,
    whether the collection holds it or not. *)
Theorem generate_objects_and_collection (props : Props) (s s' : Session gen) :
  generate_starscape props s = (Returns true, s') ->
  exists tail,
    map object_id (objects s') = map object_id (objects s) ++ map object_id tail /\
    map obj_name tail = created "Starscape" s ++ created "Star_Template" s /\
    collection_objects s'
    = collection_objects s ++ seq (List.length (objects s)) (List.length tail).
Proof.
  intros H. apply generate_steps in H.
  destruct H as (camera & vs & s1 & stars_obj & s2 & s3 & template_obj & s4 & s5
                 & s6 & shader & s7 & s8 & s9 & Hcam & P1 & P2 & P3 & P4 & P5 & P6
                 & P7 & P8 & P9 & P10 & P11).
  rewrite star_positions_stream in P1. inversion P1; subst vs s1. clear P1.
  destruct (geometry_objects _ _ _ _ _ _ _ _ P2 P3 P4 P5)
    as (tail & O5 & N5 & C5 & _).
  exists tail.
  assert (I' : objects_id s' = objects_id s5).
  { apply (after_geometry objects_id props stars_obj template_obj camera shader
             s5 s6 s7 s8 s9 s'); try assumption.
    - split; reflexivity.
    - apply objects_id_blind. }
  assert (C' : collection_objects s' = collection_objects s5).
  { apply (after_geometry collection_objects props stars_obj template_obj camera shader
             s5 s6 s7 s8 s9 s'); try assumption.
    - split; reflexivity.
    - apply field_blind; reflexivity. }
  unfold objects_id in I'. rewrite I', C', O5, C5, map_app.
  repeat split. exact N5.
Qed.

(** X19: how a successful call leaves the two objects.  The names
    ["Starscape"] and ["Star_Template"] denote two different objects;
    the template is a child of the star field, hidden in the viewport,
    and carries the material that ["Star Shader"] denotes; the star
    field instances its children on its vertices, with rotation, and is
    not rendered itself. *)
Theorem generate_object_relations (props : Props) (s s' : Session gen) :
  generate_starscape props s = (Returns true, s') ->
  exists stars_obj template_obj shader stars template,
    index_where (named obj_name "Starscape") (objects s') = Some stars_obj /\
    index_where (named obj_name "Star_Template") (objects s') = Some template_obj /\
    index_where (named material_name "Star Shader") (materials s') = Some shader /\
    stars_obj <> template_obj /\
    nth_error (objects s') stars_obj = Some stars /\
    nth_error (objects s') template_obj = Some template /\
    parent template = Some stars_obj /\
    active_material template = Some shader /\
    hide_viewport template = true /\
    instance_type stars = "VERTS" /\
    use_instance_vertices_rotation stars = true /\
    show_instancer_for_render stars = false.
Proof.
  intros H. apply generate_steps in H.
  destruct H as (camera & vs & s1 & stars_obj & s2 & s3 & template_obj & s4 & s5
                 & s6 & shader & s7 & s8 & s9 & Hcam & P1 & P2 & P3 & P4 & P5 & P6
                 & P7 & P8 & P9 & P10 & P11).
  destruct (geometry_objects _ _ _ _ _ _ _ _ P2 P3 P4 P5)
    as (tail & _ & _ & _ & Is5 & It5 & Hne).
  assert (O6 : objects s6 = objects s5).
  { apply (build_shader_frame objects props) with (r := Returns tt); [| exact P6].
    split; reflexivity. }
  assert (I' : objects_id s' = objects_id s6).
  { apply (after_shader objects_id props stars_obj template_obj camera shader
             s6 s7 s8 s9 s'); try assumption. apply objects_id_blind. }
  assert (M' : materials s' = materials s6).
  { apply (after_shader materials props stars_obj template_obj camera shader
             s6 s7 s8 s9 s'); try assumption. apply field_blind; reflexivity. }
  (* the material set on the template survives the constraint and the drivers *)
  assert (A9 : map active_material (objects s9) = map active_material (objects s7)).
  { rewrite (install_drivers_by active_material
               (fun s0 => map active_material (objects s0)) stars_obj template_obj camera
               (fun obj f s0 Hf => map_update active_material f obj (objects s0) Hf)
               (fun _ _ => eq_refl) _ _ _ P10).
    apply (install_constraint_by active_material
             (fun s0 => map active_material (objects s0)) props stars_obj camera
             (fun obj f s0 Hf => map_update active_material f obj (objects s0) Hf)
             (fun _ _ => eq_refl) _ _ _ P9). }
  assert (I9 : objects_id s9 = objects_id s6).
  { rewrite (install_drivers_frame objects_id _ _ _
               (object_blind_core _ objects_id_blind) _ _ _ P10).
    rewrite (install_constraint_frame objects_id _ _ _ objects_id_blind _ _ _ P9).
    apply (preserves_object_set objects_id template_obj
             (set_active_material (Some shader))) with (r := Returns tt); [| exact P8].
    intros s0. apply objects_id_update. intros []; reflexivity. }
  rewrite <- O6 in Is5, It5.
  destruct (index_where_nth _ _ _ Is5) as (a6 & Ha6 & _).
  destruct (index_where_nth _ _ _ It5) as (b6 & Hb6 & _).
  assert (Hb7 : nth_error (objects s7) template_obj
                = Some (set_active_material (Some shader) b6)).
  { unfold object_set, modify in P8. inversion P8. cbn [objects set_objects].
    apply nth_error_update. exact Hb6. }
  destruct (nth_error_same_map active_material _ _ _ _ A9 Hb7) as (b9 & Hb9 & Ab9).
  destruct (nth_error_same_map object_id (objects s6) (objects s9) _ _ I9 Ha6)
    as (a9 & Ha9 & _).
  rewrite bind_scene_run in P11. cbv zeta in P11.
  assert (O' : objects s'
               = update template_obj (set_hide_viewport true)
                   (update stars_obj (set_show_instancer_for_render false)
                      (update stars_obj (set_use_instance_vertices_rotation true)
                         (update stars_obj (set_instance_type "VERTS")
                            (update template_obj (set_parent (Some stars_obj))
                               (objects s9)))))).
  { destruct (clear_world_bg props); [destruct (world s9) |];
      inversion P11; reflexivity. }
  assert (Hst : (stars_obj =? template_obj)%nat = false) by (apply Nat.eqb_neq; exact Hne).
  assert (Hts : (template_obj =? stars_obj)%nat = false)
    by (apply Nat.eqb_neq; intros E; apply Hne; symmetry; exact E).
  exists stars_obj, template_obj, shader,
    (set_show_instancer_for_render false
       (set_use_instance_vertices_rotation true (set_instance_type "VERTS" a9))),
    (set_hide_viewport true (set_parent (Some stars_obj) b9)).
  split; [rewrite index_where_objects_id, I', <- index_where_objects_id; exact Is5 |].
  split; [rewrite index_where_objects_id, I', <- index_where_objects_id; exact It5 |].
  split.
  { rewrite M'. unfold lookup in P7. unfold named.
    destruct (index_where (fun d => material_name d =? "Star Shader") (materials s6));
      inversion P7. reflexivity. }
  split; [exact Hne |].
  split.
  { rewrite O'. rewrite !nth_error_update_at, Hts, Nat.eqb_refl, Ha9. reflexivity. }
  split.
  { rewrite O'. rewrite !nth_error_update_at, Hst, Nat.eqb_refl, Hb9. reflexivity. }
  cbn. repeat split. exact Ab9.
Qed.
End Objects.

Lemma generate_objects_and_collection_witness :
  exists tail,
    map object_id (objects (after some_props fresh_scene))
    = map object_id (objects fresh_scene) ++ map object_id tail /\
    map obj_name tail
    = created "Starscape" fresh_scene ++ created "Star_Template" fresh_scene /\
    collection_objects (after some_props fresh_scene)
    = collection_objects fresh_scene
      ++ seq (List.length (objects fresh_scene)) (List.length tail).
Proof.
  apply (generate_objects_and_collection some_props fresh_scene
           (after some_props fresh_scene)).
  exact fresh_scene_generates.
Defined.

Lemma generate_object_relations_witness :
  exists stars_obj template_obj shader stars template,
    index_where (named obj_name "Starscape") (objects (after some_props fresh_scene))
    = Some stars_obj /\
    index_where (named obj_name "Star_Template") (objects (after some_props fresh_scene))
    = Some template_obj /\
    index_where (named material_name "Star Shader")
      (materials (after some_props fresh_scene)) = Some shader /\
    stars_obj <> template_obj /\
    nth_error (objects (after some_props fresh_scene)) stars_obj = Some stars /\
    nth_error (objects (after some_props fresh_scene)) template_obj = Some template /\
    parent template = Some stars_obj /\
    active_material template = Some shader /\
    hide_viewport template = true /\
    instance_type stars = "VERTS" /\
    use_instance_vertices_rotation stars = true /\
    show_instancer_for_render stars = false.
Proof.
  apply (generate_object_relations some_props fresh_scene
           (after some_props fresh_scene)).
  exact fresh_scene_generates.
Defined.

(** ** The star field *)

Section StarField.
Context {gen : PRNG}.

(** [create_or_reuse_mesh_object] followed by [from_pydata], when the
    object can be reused, leaves the meshes of other names as they are. *)
Lemma fill_keeps_other_meshes (name : string) (vs : list vec3) (es : list (nat * nat))
    (fs : list (list nat)) (s s1 s2 : Session gen) (obj : nat) :
  reuse_ready name s ->
  create_or_reuse_mesh_object name s = (Returns obj, s1) ->
  from_pydata obj vs es fs s1 = (Returns tt, s2) ->
  forall m' me,
    nth_error (meshes s) m' = Some me ->
    mesh_name me <> (name ++ "_mesh")%string ->
    nth_error (meshes s2) m' = Some me.
Proof.
  intros Hready. rewrite create_or_reuse_run. cbv zeta.
  unfold from_pydata, bind, get_object, modify.
  intros P1 P2 m' me Hme Hname.
  assert (Hlt : (m' < List.length (meshes s))%nat)
    by (apply nth_error_Some; rewrite Hme; discriminate).
  destruct (index_where (named mesh_name (name ++ "_mesh")%string) (meshes s))
    as [m |] eqn:Em;
    destruct (index_where (named obj_name name) (objects s)) as [o |] eqn:Eo;
    inversion P1; subst obj s1; clear P1;
    cbn [objects meshes set_meshes set_objects set_collection_objects] in P2.
  - (* mesh and object found *)
    destruct (Hready o Eo) as (ob & m0 & Ho & Hd & Hm0).
    rewrite Em in Hm0. inversion Hm0; subst m0.
    destruct (index_where_nth _ _ _ Em) as (me0 & Hme0 & Hn0).
    apply named_true in Hn0.
    rewrite Ho in P2. cbn [from_option ret] in P2. rewrite Hd in P2.
    inversion P2. cbn [meshes set_meshes].
    assert (Hneq : (m =? m')%nat = false).
    { apply Nat.eqb_neq. intros E. subst m'. rewrite Hme0 in Hme.
      inversion Hme; subst me0. apply Hname. exact Hn0. }
    rewrite !nth_error_update_at, Hneq. exact Hme.
  - (* mesh found, object created *)
    destruct (index_where_nth _ _ _ Em) as (me0 & Hme0 & Hn0).
    apply named_true in Hn0.
    rewrite nth_error_app_last in P2. cbn [from_option ret data new_object] in P2.
    inversion P2. cbn [meshes set_meshes set_objects set_collection_objects].
    assert (Hneq : (m =? m')%nat = false).
    { apply Nat.eqb_neq. intros E. subst m'. rewrite Hme0 in Hme.
      inversion Hme; subst me0. apply Hname. exact Hn0. }
    rewrite !nth_error_update_at, Hneq. exact Hme.
  - (* object without its mesh: excluded *)
    destruct (Hready o Eo) as (ob & m0 & _ & _ & Hm0).
    rewrite Em in Hm0. discriminate.
  - (* both created *)
    rewrite nth_error_app_last in P2. cbn [from_option ret data new_object] in P2.
    inversion P2. cbn [meshes set_meshes set_objects set_collection_objects].
    assert (Hneq : (List.length (meshes s) =? m')%nat = false)
      by (apply Nat.eqb_neq; lia).
    rewrite nth_error_update_at, Hneq. rewrite nth_error_app1 by exact Hlt. exact Hme.
Qed.

(** X20: the star field after a successful call.  When each of the two
    objects is absent or carries the mesh of its name (as after any
    earlier successful call), the object that ["Starscape"] denotes
    carries a mesh named ["Starscape_mesh"] whose vertices are exactly
    the star positions of this call, in the order of the draws, with no
    edge and no face: the geometry of an earlier call is gone, and the
    template stage does not touch it. *)
Theorem generate_star_field_mesh (props : Props) (s s' : Session gen) :
  reuse_ready "Starscape" s ->
  reuse_ready "Star_Template" s ->
  generate_starscape props s = (Returns true, s') ->
  exists obj o m,
    index_where (named obj_name "Starscape") (objects s') = Some obj /\
    nth_error (objects s') obj = Some o /\
    data o = MeshData m /\
    nth_error (meshes s') m
    = Some (mkMesh "Starscape_mesh"
              (map (star_at (hemisphere props) (rng_seed (random_seed props)))
                 (seq 0 (range_len (star_count (star_density props)
                                      (hemisphere props)))))
              [] []).
Proof.
  intros Hstars Htemplate H. apply generate_steps in H.
  destruct H as (camera & vs & s1 & stars_obj & s2 & s3 & template_obj & s4 & s5
                 & s6 & shader & s7 & s8 & s9 & Hcam & P1 & P2 & P3 & P4 & P5 & P6
                 & P7 & P8 & P9 & P10 & P11).
  rewrite star_positions_stream in P1. inversion P1; subst vs s1. clear P1.
  match type of P2 with
  | create_or_reuse_mesh_object _ ?s0 = _ => set (s1 := s0) in *
  end.
  assert (Hstars1 : reuse_ready "Starscape" s1)
    by (apply (reuse_ready_ext _ s); [reflexivity | reflexivity | exact Hstars]).
  assert (Htemplate1 : reuse_ready "Star_Template" s1)
    by (apply (reuse_ready_ext _ s); [reflexivity | reflexivity | exact Htemplate]).
  match type of P3 with
  | from_pydata _ ?l _ _ _ = _ => set (vs := l) in *
  end.
  destruct (fill_mesh_object "Starscape" vs [] [] s1 Hstars1)
    as (obj & s2' & s3' & o3 & m & E2 & E3 & Hidx3 & Ho3 & Hd3 & Hm3 & Hme3).
  rewrite P2 in E2. inversion E2; subst obj s2'. clear E2.
  rewrite P3 in E3. inversion E3; subst s3'. clear E3.
  assert (Htemplate3 : reuse_ready "Star_Template" s3)
    by (exact (star_stage_keeps_template _ _ _ _ _ _ P2 P3 Htemplate1)).
  assert (Hme5 : nth_error (meshes s5) m = Some (mkMesh "Starscape_mesh" vs [] [])).
  { apply (fill_keeps_other_meshes "Star_Template" template_vertices template_edges
             template_faces s3 s4 s5 template_obj Htemplate3 P4 P5 m _ Hme3).
    cbn. discriminate. }
  destruct (create_or_reuse_objects "Star_Template" s3)
    as (obj0 & s4' & tail4 & E4 & _ & O4 & _).
  rewrite P4 in E4. inversion E4; subst obj0 s4'. clear E4.
  assert (O5 : objects s5 = objects s4)
    by (apply (from_pydata_frame objects _ _ _ _ (fun _ _ => eq_refl) _ _ _ P5)).
  assert (Hidx5 : index_where (named obj_name "Starscape") (objects s5) = Some stars_obj)
    by (rewrite O5, O4; apply index_where_app_some; exact Hidx3).
  assert (Ho5 : nth_error (objects s5) stars_obj = Some o3).
  { rewrite O5, O4, nth_error_app1; [exact Ho3 |].
    apply nth_error_Some. rewrite Ho3. discriminate. }
  assert (M' : meshes s' = meshes s5).
  { apply (after_geometry meshes props stars_obj template_obj camera shader
             s5 s6 s7 s8 s9 s'); try assumption.
    - split; reflexivity.
    - apply field_blind; reflexivity. }
  assert (I' : objects_id s' = objects_id s5).
  { apply (after_geometry objects_id props stars_obj template_obj camera shader
             s5 s6 s7 s8 s9 s'); try assumption.
    - split; reflexivity.
    - apply objects_id_blind. }
  destruct (nth_error_same_map object_id (objects s5) (objects s') _ _ I' Ho5)
    as (o & Ho & Hid).
  inversion Hid as [[Hname Hdata]].
  exists stars_obj, o, m.
  split; [rewrite index_where_objects_id, I', <- index_where_objects_id; exact Hidx5 |].
  split; [exact Ho |]. split; [rewrite Hdata; exact Hd3 |].
  rewrite M'. exact Hme5.
Qed.
End StarField.

Lemma generate_star_field_mesh_witness :
  exists obj o m,
    index_where (named obj_name "Starscape") (objects (after some_props fresh_scene))
    = Some obj /\
    nth_error (objects (after some_props fresh_scene)) obj = Some o /\
    data o = MeshData m /\
    nth_error (meshes (after some_props fresh_scene)) m
    = Some (mkMesh "Starscape_mesh"
              (map (star_at (gen := lcg) (hemisphere some_props)
                      (rng_seed (random_seed some_props)))
                 (seq 0 (range_len (star_count (star_density some_props)
                                      (hemisphere some_props)))))
              [] []).
Proof.
  apply (generate_star_field_mesh some_props fresh_scene (after some_props fresh_scene)).
  - intros obj H. simpl in H. discriminate.
  - intros obj H. simpl in H. discriminate.
  - exact fresh_scene_generates.
Defined.

(** ** The material *)

Lemma update_app_mid {A : Type} (f : A -> A) (pre post : list A) (x : A) :
  update (List.length pre) f (pre ++ x :: post) = pre ++ f x :: post.
Proof. induction pre as [| y pre IH]; simpl; [| rewrite IH]; reflexivity. Qed.

Lemma nth_error_app_mid {A : Type} (pre post : list A) (x : A) :
  nth_error (pre ++ x :: post) (List.length pre) = Some x.
Proof. induction pre as [| y pre IH]; simpl; [reflexivity | exact IH]. Qed.

Lemma index_where_split {A : Type} (p : A -> bool) (l : list A) (i : nat) :
  index_where p l = Some i ->
  exists pre x post,
    l = pre ++ x :: post /\ i = List.length pre /\ p x = true /\
    index_where p pre = None.
Proof.
  revert i. induction l as [| y l IH]; intros i H; simpl in H; [discriminate |].
  destruct (p y) eqn:E.
  - inversion H. exists [], y, l. repeat split. exact E.
  - destruct (index_where p l) as [j |]; [| discriminate]. inversion H.
    destruct (IH j eq_refl) as (pre & x & post & Hl & Hj & Hx & Hpre).
    exists (y :: pre), x, post. subst l j. repeat split; [exact Hx |].
    simpl. rewrite E, Hpre. reflexivity.
Qed.

Lemma index_where_app_mid {A : Type} (p : A -> bool) (pre post : list A) (x : A) :
  index_where p pre = None -> p x = true ->
  index_where p (pre ++ x :: post) = Some (List.length pre).
Proof.
  intros Hpre Hx. induction pre as [| y pre IH]; simpl in *.
  - rewrite Hx. reflexivity.
  - destruct (p y); [discriminate |].
    destruct (index_where p pre); [discriminate |]. rewrite (IH eq_refl). reflexivity.
Qed.

(** Running the block of a step on the tree it works on. *)
Ltac run_tree_block :=
  match goal with
  | |- context [fst (?b ?t)] =>
      let v := eval lazy -[Rplus Rmult Rminus Ropp Rdiv Rinv IZR exp ln Rpower Q2R Qmult]
               in (b t) in
      change (b t) with v
  end;
  cbn [fst snd].

Section Shader.
Context {gen : PRNG}.

(** The primitives of the material stage, on a session whose material
    sits between [pre] and [post]. *)

Lemma material_use_nodes_run (shader : nat) (ms : list Mesh) (os : list Object)
    (pre post : list Material) (mat : Material) (gs : list NodeTree) (col : list nat)
    (cam : option nat) (w : option World) (g : rng_state) :
  shader = List.length pre ->
  material_use_nodes shader (mkSession ms os (pre ++ mat :: post) gs col cam w g)
  = (Returns tt,
     mkSession ms os
       (pre ++ mkMaterial (material_name mat) true
                 (Some (match material_tree mat with
                        | Some t => t
                        | None => mkNodeTree "Shader Nodetree" [] [] []
                        end)) :: post) gs col cam w g).
Proof.
  intros ->. unfold material_use_nodes, modify, set_materials. cbn.
  rewrite update_app_mid. destruct (material_tree mat); reflexivity.
Qed.

Lemma on_material_tree_run {A : Type} (shader : nat) (blk : M NodeTree A)
    (ms : list Mesh) (os : list Object)
    (pre post : list Material) (n : string) (u : bool) (t : NodeTree)
    (gs : list NodeTree) (col : list nat)
    (cam : option nat) (w : option World) (g : rng_state) :
  shader = List.length pre ->
  on_tree (MaterialTree shader) blk
    (mkSession ms os (pre ++ mkMaterial n u (Some t) :: post) gs col cam w g)
  = (fst (blk t),
     mkSession ms os (pre ++ mkMaterial n u (Some (snd (blk t))) :: post) gs col cam w g).
Proof.
  intros ->. unfold on_tree, zoom, get_tree, put_tree, set_materials. cbn.
  rewrite nth_error_app_mid. cbn. destruct (blk t) as [r t']. cbn.
  rewrite update_app_mid. reflexivity.
Qed.

Lemma node_groups_new_run (name type : string)
    (ms : list Mesh) (os : list Object) (mats : list Material)
    (gs : list NodeTree) (col : list nat)
    (cam : option nat) (w : option World) (g : rng_state) :
  node_groups_new name type (mkSession ms os mats gs col cam w g)
  = (Returns (List.length gs),
     mkSession ms os mats (gs ++ [new_tree (unique_name (map tree_name gs) name)])
       col cam w g).
Proof. reflexivity. Qed.

Lemma on_group_tree_run (group : nat) (blk : M NodeTree unit)
    (ms : list Mesh) (os : list Object) (mats : list Material)
    (gs : list NodeTree) (name : string) (col : list nat)
    (cam : option nat) (w : option World) (g : rng_state) :
  group = List.length gs ->
  fst (blk (new_tree name)) = Returns tt ->
  on_tree (GroupTree group) blk (mkSession ms os mats (gs ++ [new_tree name]) col cam w g)
  = (Returns tt, mkSession ms os mats (gs ++ [built name blk]) col cam w g).
Proof.
  intros -> Hr. unfold on_tree, zoom, get_tree, put_tree, set_node_groups, built. cbn.
  rewrite nth_error_app_last. destruct (blk (new_tree name)) as [r t'].
  cbn in *. rewrite Hr, update_app_last. reflexivity.
Qed.

Lemma make_group_node_in_run (shader group : nat) (x y : Z)
    (ms : list Mesh) (os : list Object)
    (pre post : list Material) (n : string) (u : bool) (t : NodeTree)
    (gs : list NodeTree) (gt : NodeTree) (col : list nat)
    (cam : option nat) (w : option World) (g : rng_state) :
  shader = List.length pre ->
  group = List.length gs ->
  make_group_node_in (MaterialTree shader) group x y
    (mkSession ms os (pre ++ mkMaterial n u (Some t) :: post) (gs ++ [gt]) col cam w g)
  = (fst (make_group_node group (interface gt) x y t),
     mkSession ms os
       (pre ++ mkMaterial n u (Some (snd (make_group_node group (interface gt) x y t)))
            :: post) (gs ++ [gt]) col cam w g).
Proof.
  intros Hs ->. unfold make_group_node_in, bind at 1, group_interface. cbn [node_groups].
  rewrite nth_error_app_last. cbn [option_map from_option ret].
  apply on_material_tree_run. exact Hs.
Qed.

(** Lines 137-140: the material is found, or made under its own name. *)
Lemma shader_lookup_run (s : Session gen) :
  exists pre mat post,
    try_except_KeyError (lookup material_name materials "Star Shader")
      (materials_new "Star Shader") s
    = (Returns (List.length pre), set_materials (fun _ => pre ++ mat :: post) s) /\
    index_where (named material_name "Star Shader") pre = None /\
    material_name mat = "Star Shader" /\
    match index_where (named material_name "Star Shader") (materials s) with
    | Some shader => materials s = pre ++ mat :: post /\ shader = List.length pre
    | None => materials s = pre /\ post = []
    end.
Proof.
  unfold try_except_KeyError, lookup. fold (named material_name "Star Shader").
  destruct (index_where (named material_name "Star Shader") (materials s))
    as [shader |] eqn:E.
  - destruct (index_where_split _ _ _ E) as (pre & mat & post & Hl & Hi & Hm & Hpre).
    exists pre, mat, post. subst shader. cbn [from_option ret].
    split; [| split; [exact Hpre | split; [apply named_true; exact Hm |
                                           split; [exact Hl | reflexivity]]]].
    rewrite <- Hl. destruct s; reflexivity.
  - exists (materials s), (mkMaterial "Star Shader" false None), [].
    cbn [from_option raise]. unfold materials_new.
    rewrite (unique_name_free material_name _ _ E).
    split; [reflexivity |]. split; [exact E |]. repeat split.
Qed.
End Shader.

(** A step of the material stage on the tree of the material. *)
Ltac material_run :=
  unfold bind at 1;
  first [ rewrite on_material_tree_run by assumption
        | rewrite make_group_node_in_run by assumption ];
  run_tree_block.

(** A new group and the block that fills it; [G] names its handle. *)
Ltac group_run G HG :=
  unfold bind at 1; rewrite node_groups_new_run; cbn [fst snd];
  match goal with
  | |- context [on_tree (GroupTree (List.length ?gs))] =>
      remember (List.length gs) as G eqn:HG
  end;
  unfold bind at 1;
  rewrite (on_group_tree_run G) by first [assumption | reflexivity];
  cbn [fst snd].

Section Material.
Context {gen : PRNG}.

(** The material stage, run on any session. *)
Lemma build_shader_run (props : Props) (s : Session gen) (r : outcome unit)
    (s' : Session gen) :
  build_shader props s = (r, s') ->
  r = Returns tt /\
  exists pre post t,
    materials s' = pre ++ mkMaterial "Star Shader" true (Some t) :: post /\
    index_where (named material_name "Star Shader") pre = None /\
    match index_where (named material_name "Star Shader") (materials s) with
    | Some shader =>
        exists mat, materials s = pre ++ mat :: post /\ shader = List.length pre
    | None => materials s = pre /\ post = []
    end /\
    star_shader_wiring (Q2R (15 * star_intensity props)) (List.length (node_groups s)) t.
Proof.
  destruct (shader_lookup_run s) as (pre & mat & post & Hlook & Hpre & Hname & Hshape).
  unfold build_shader. unfold bind at 1. rewrite Hlook. clear Hlook.
  destruct s as [ms os mats gs col cam w g].
  unfold set_materials.
  cbn [meshes objects materials node_groups collection_objects
       scene_camera world random_state] in *.
  remember (List.length pre) as shader eqn:Hs.
  cbv zeta.
  unfold bind at 1. rewrite material_use_nodes_run by assumption.
  rewrite Hname.
  destruct (match material_tree mat with Some t => t | None => _ end)
    as [tn ns ls iface].
  remember (Q2R (15 * star_intensity props)) as strength eqn:Hstrength.
  do 7 material_run.
  group_run G1 HG1. material_run.
  group_run G2 HG2. material_run.
  do 4 material_run.
  group_run G3 HG3. material_run.
  rewrite on_material_tree_run by assumption. run_tree_block.
  intros E. inversion E. subst r s'. clear E. cbn [node_groups materials].
  split; [reflexivity |].
  eexists pre, post, _. split; [reflexivity |]. split; [exact Hpre |].
  split.
  { destruct (index_where (named material_name "Star Shader") mats).
    - exists mat. rewrite Hs in Hshape. exact Hshape.
    - exact Hshape. }
  unfold star_shader_wiring. cbn [links nodes map bl_idname node_tree].
  rewrite HG3, HG2, !length_app, <- HG1. cbn [List.length].
  split; [reflexivity |].
  split; [replace (G1 + 1 + 1)%nat with (G1 + 2)%nat by lia; reflexivity |].
  split; [reflexivity |].
  split; reflexivity.
Qed.
End Material.

Section MaterialResults.
Context {gen : PRNG}.

(** X21: the material stage (lines 137-240) cannot raise, whatever the
    session holds: every arity test of [connect_nodes] passes and every
    socket the script names exists.  It leaves meshes, objects,
    collection and world alone, makes a material only when none is named
    ["Star Shader"], and replaces nothing but the first material of that
    name. *)
Theorem material_stage_returns (props : Props) (s : Session gen) :
  exists s' mat,
    build_shader props s = (Returns tt, s') /\
    meshes s' = meshes s /\ objects s' = objects s /\
    collection_objects s' = collection_objects s /\ world s' = world s /\
    material_name mat = "Star Shader" /\ use_nodes mat = true /\
    materials s'
    = match index_where (named material_name "Star Shader") (materials s) with
      | Some shader => update shader (fun _ => mat) (materials s)
      | None => materials s ++ [mat]
      end.
Proof.
  destruct (build_shader props s) as [r s'] eqn:E.
  destruct (build_shader_run props s r s' E)
    as (Hr & pre & post & t & Hm & _ & Hshape & _).
  subst r. exists s', (mkMaterial "Star Shader" true (Some t)).
  split; [reflexivity |].
  split; [exact (build_shader_frame meshes props
                   (conj (fun _ _ => eq_refl) (fun _ _ => eq_refl)) _ _ _ E) |].
  split; [exact (build_shader_frame objects props
                   (conj (fun _ _ => eq_refl) (fun _ _ => eq_refl)) _ _ _ E) |].
  split; [exact (build_shader_frame collection_objects props
                   (conj (fun _ _ => eq_refl) (fun _ _ => eq_refl)) _ _ _ E) |].
  split; [exact (build_shader_frame world props
                   (conj (fun _ _ => eq_refl) (fun _ _ => eq_refl)) _ _ _ E) |].
  split; [reflexivity |]. split; [reflexivity |].
  rewrite Hm.
  destruct (index_where (named material_name "Star Shader") (materials s)).
  - destruct Hshape as (mat & -> & ->). rewrite update_app_mid. reflexivity.
  - destruct Hshape as (-> & ->). reflexivity.
Qed.

(** X22: the material after a successful call.  The name
    ["Star Shader"] denotes a material that uses nodes and whose tree
    holds exactly the nine nodes and nine links of this call, wired as
    [star_shader_wiring] says: the nodes and links the tree held before
    are gone, the group nodes refer to the three groups this call has
    added at the end of the registry ("Random Intensity",
    "Random Splitter", "Random Star Color", in this order), the
    intensity factor is [15 * star_intensity], and the outputs of the
    light path and object info nodes that no link leaves are hidden. *)
Theorem generate_star_shader_tree (props : Props) (s s' : Session gen) :
  generate_starscape props s = (Returns true, s') ->
  exists shader mat t,
    index_where (named material_name "Star Shader") (materials s') = Some shader /\
    nth_error (materials s') shader = Some mat /\
    material_name mat = "Star Shader" /\
    use_nodes mat = true /\
    material_tree mat = Some t /\
    star_shader_wiring (Q2R (15 * star_intensity props))
      (List.length (node_groups s)) t /\
    node_groups s'
    = add_group "Random Star Color" random_star_color_nodes
        (add_group "Random Splitter" random_splitter_nodes
           (add_group "Random Intensity" random_intensity_nodes (node_groups s))).
Proof.
  intros H. pose proof (generate_groups props s s' H) as Hgroups.
  apply generate_steps in H.
  destruct H as (camera & vs & s1 & stars_obj & s2 & s3 & template_obj & s4 & s5
                 & s6 & shader & s7 & s8 & s9 & Hcam & P1 & P2 & P3 & P4 & P5 & P6
                 & P7 & P8 & P9 & P10 & P11).
  rewrite star_positions_stream in P1. inversion P1; subst vs s1. clear P1.
  assert (G5 : node_groups s5 = node_groups s).
  { rewrite (from_pydata_frame node_groups template_obj template_vertices
               template_edges template_faces (fun _ _ => eq_refl) _ _ _ P5).
    rewrite (create_or_reuse_groups _ _ _ _ P4).
    rewrite (from_pydata_frame node_groups stars_obj _ [] [] (fun _ _ => eq_refl)
               _ _ _ P3).
    rewrite (create_or_reuse_groups _ _ _ _ P2). reflexivity. }
  assert (M' : materials s' = materials s6).
  { apply (after_shader materials props stars_obj template_obj camera shader
             s6 s7 s8 s9 s'); try assumption. apply field_blind; reflexivity. }
  destruct (build_shader_run props s5 _ _ P6)
    as (_ & pre & post & t & Hm & Hpre & _ & Hw).
  exists (List.length pre), (mkMaterial "Star Shader" true (Some t)), t.
  rewrite M', Hm, <- G5.
  split; [apply index_where_app_mid; [exact Hpre | reflexivity] |].
  split; [apply nth_error_app_mid |].
  split; [reflexivity |]. split; [reflexivity |]. split; [reflexivity |].
  split; [exact Hw |]. rewrite G5. exact Hgroups.
Qed.
End MaterialResults.

Lemma generate_star_shader_tree_witness :
  exists shader mat t,
    index_where (named material_name "Star Shader")
      (materials (after some_props fresh_scene)) = Some shader /\
    nth_error (materials (after some_props fresh_scene)) shader = Some mat /\
    material_name mat = "Star Shader" /\
    use_nodes mat = true /\
    material_tree mat = Some t /\
    star_shader_wiring (Q2R (15 * star_intensity some_props))
      (List.length (node_groups fresh_scene)) t /\
    node_groups (after some_props fresh_scene)
    = add_group "Random Star Color" random_star_color_nodes
        (add_group "Random Splitter" random_splitter_nodes
           (add_group "Random Intensity" random_intensity_nodes
              (node_groups fresh_scene))).
Proof.
  apply (generate_star_shader_tree some_props fresh_scene
           (after some_props fresh_scene)).
  exact fresh_scene_generates.
Defined.

(** ** The scale drivers *)

Lemma find_index_where {A : Type} (p : A -> bool) (l : list A) :
  find p l = match index_where p l with
             | Some i => nth_error l i
             | None => None
             end.
Proof.
  induction l as [| x l IH]; simpl; [reflexivity |].
  destruct (p x); [reflexivity |]. rewrite IH.
  destruct (index_where p l); reflexivity.
Qed.

Lemma find_app_none {A : Type} (p : A -> bool) (l tail : list A) :
  find p l = None -> find p (l ++ tail) = find p tail.
Proof.
  induction l as [| x l IH]; simpl; [reflexivity |].
  destruct (p x); [discriminate | exact IH].
Qed.

Lemma find_app_some {A : Type} (p : A -> bool) (l tail : list A) (x : A) :
  find p l = Some x -> find p (l ++ tail) = Some x.
Proof.
  induction l as [| y l IH]; simpl; [discriminate |].
  destruct (p y); [trivial | exact IH].
Qed.

(** [driver_add] makes the curves that are missing, without variables,
    and keeps the others. *)
Lemma driver_curve_variables (path : string) (axis k : nat) (curves : list FCurve) :
  curve_variables path k (fst (driver_curve path axis curves))
  = curve_variables path k curves.
Proof.
  unfold driver_curve, curve_variables.
  destruct (index_where (drives path axis) curves); [reflexivity |].
  cbn [fst]. destruct (find (drives path k) curves) as [fc |] eqn:E.
  - rewrite (find_app_some _ _ _ _ E). reflexivity.
  - rewrite (find_app_none _ _ _ E). cbn [find].
    destruct (drives path k _); reflexivity.
Qed.

Lemma driver_curves_variables (path : string) (axes : list nat) (k : nat) :
  forall curves,
    curve_variables path k (fst (driver_curves path axes curves))
    = curve_variables path k curves.
Proof.
  induction axes as [| axis rest IH]; intros curves; [reflexivity |].
  cbn [driver_curves].
  pose proof (driver_curve_variables path axis k curves) as H1.
  destruct (driver_curve path axis curves) as [curves1 i].
  specialize (IH curves1).
  destruct (driver_curves path rest curves1) as [curves2 handles].
  cbn [fst] in *. rewrite IH. exact H1.
Qed.

Lemma driver_curve_handle (path : string) (axis : nat) (curves : list FCurve) :
  index_where (drives path axis) (fst (driver_curve path axis curves))
  = Some (snd (driver_curve path axis curves)).
Proof.
  unfold driver_curve.
  destruct (index_where (drives path axis) curves) as [i |] eqn:E; cbn [fst snd].
  - exact E.
  - rewrite (index_where_app_none _ _ _ E). unfold drives at 1. cbn.
    rewrite String.eqb_refl, Nat.eqb_refl. reflexivity.
Qed.

Lemma driver_curve_grows (path : string) (axis : nat) (curves : list FCurve) :
  exists tail, fst (driver_curve path axis curves) = curves ++ tail.
Proof.
  unfold driver_curve. destruct (index_where (drives path axis) curves); cbn [fst].
  - exists []. rewrite app_nil_r. reflexivity.
  - eexists. reflexivity.
Qed.

Lemma driver_curves_grows (path : string) (axes : list nat) :
  forall curves, exists tail, fst (driver_curves path axes curves) = curves ++ tail.
Proof.
  induction axes as [| axis rest IH]; intros curves.
  - exists []. rewrite app_nil_r. reflexivity.
  - cbn [driver_curves].
    destruct (driver_curve_grows path axis curves) as [t1 H1].
    destruct (driver_curve path axis curves) as [curves1 i].
    destruct (IH curves1) as [t2 H2].
    destruct (driver_curves path rest curves1) as [curves2 handles].
    cbn [fst] in *. exists (t1 ++ t2). rewrite H2, H1, app_assoc. reflexivity.
Qed.

(** The handles [driver_add] returns are the first curves of their axes. *)
Lemma driver_curves_handles (path : string) (axes : list nat) :
  forall curves,
    Forall2 (fun axis h =>
               index_where (drives path axis) (fst (driver_curves path axes curves))
               = Some h)
      axes (snd (driver_curves path axes curves)).
Proof.
  induction axes as [| axis rest IH]; intros curves; [constructor |].
  cbn [driver_curves].
  pose proof (driver_curve_handle path axis curves) as H1.
  destruct (driver_curve path axis curves) as [curves1 i].
  specialize (IH curves1).
  destruct (driver_curves_grows path rest curves1) as [tail Ht].
  destruct (driver_curves path rest curves1) as [curves2 handles].
  cbn [fst snd] in *. constructor; [| exact IH].
  rewrite Ht. apply index_where_app_some. exact H1.
Qed.

Lemma drives_keeps_axis (path : string) (k : nat) (g : FCurve -> FCurve) :
  keeps_axis g -> forall fc, drives path k (g fc) = drives path k fc.
Proof. intros Hg fc. unfold drives. destruct (Hg fc) as [-> ->]. reflexivity. Qed.

Lemma drives_other (path : string) (a k : nat) (fc : FCurve) :
  drives path a fc = true -> a <> k -> drives path k fc = false.
Proof.
  unfold drives. intros H Hne. apply andb_true_iff in H. destruct H as [_ H].
  apply Nat.eqb_eq in H. rewrite H.
  apply andb_false_iff. right. apply Nat.eqb_neq. exact Hne.
Qed.

Lemma find_update_first {A : Type} (p : A -> bool) (g : A -> A) (l : list A) (h : nat) :
  (forall x, p (g x) = p x) ->
  index_where p l = Some h ->
  find p (update h g l) = option_map g (find p l).
Proof.
  intros Hg. revert h. induction l as [| x l IH]; intros h H; simpl in H; [discriminate |].
  destruct (p x) eqn:E.
  - inversion H. simpl. rewrite Hg, E. reflexivity.
  - destruct (index_where p l) as [j |]; [| discriminate]. inversion H.
    simpl. rewrite E. apply IH. reflexivity.
Qed.

Lemma find_update_other {A : Type} (q : A -> bool) (g : A -> A) (l : list A) (h : nat) :
  (forall x, q (g x) = q x) ->
  (forall x, nth_error l h = Some x -> q x = false) ->
  find q (update h g l) = find q l.
Proof.
  intros Hg. revert h. induction l as [| x l IH]; intros h H; [reflexivity |].
  destruct h; simpl.
  - rewrite Hg, (H x eq_refl). reflexivity.
  - destruct (q x); [reflexivity |]. apply IH. exact H.
Qed.

(** Updating the curves behind the handles of distinct axes. *)
Lemma drive_fold (path : string) (g : FCurve -> FCurve) (k : nat) :
  keeps_axis g ->
  forall axes hs curves,
    NoDup axes ->
    Forall2 (fun axis h => index_where (drives path axis) curves = Some h) axes hs ->
    find (drives path k) (fold_left (fun F h => update h g F) hs curves)
    = if existsb (Nat.eqb k) axes then option_map g (find (drives path k) curves)
      else find (drives path k) curves.
Proof.
  intros Hg axes. induction axes as [| a axes IH]; intros hs curves Hnd H.
  - inversion H. reflexivity.
  - inversion H as [| ? h ? hs' Hh Hrest]; subst. clear H.
    cbn [fold_left existsb]. inversion Hnd as [| ? ? Hnotin Hnd']; subst.
    assert (Hrest' : Forall2 (fun axis h0 =>
                        index_where (drives path axis) (update h g curves) = Some h0)
                       axes hs').
    { clear IH Hnotin Hnd Hnd'.
      induction Hrest as [| a' h' axes hs Hh' _ IHr]; constructor.
      - rewrite index_where_update by (apply drives_keeps_axis; exact Hg). exact Hh'.
      - exact IHr. }
    rewrite (IH _ _ Hnd' Hrest').
    destruct (Nat.eqb_spec k a) as [-> | Hne]; cbn [orb].
    + assert (Hno : existsb (Nat.eqb a) axes = false).
      { destruct (existsb (Nat.eqb a) axes) eqn:E; [| reflexivity].
        apply existsb_exists in E. destruct E as (x & Hin & Hx).
        apply Nat.eqb_eq in Hx. subst x. contradiction. }
      rewrite Hno. apply find_update_first; [apply drives_keeps_axis; exact Hg | exact Hh].
    + assert (Hsame : find (drives path k) (update h g curves)
                      = find (drives path k) curves).
      { apply find_update_other; [apply drives_keeps_axis; exact Hg |].
        intros x Hx. destruct (index_where_nth _ _ _ Hh) as (y & Hy & Hd).
        rewrite Hx in Hy. inversion Hy; subst y.
        apply (drives_other path a k); [exact Hd | congruence]. }
      rewrite Hsame. reflexivity.
Qed.

Lemma driven_curves_axis (path : string) (g : FCurve -> FCurve) (vars : list DriverVariable)
    (e : string) (curves : list FCurve) (k : nat) :
  keeps_axis g ->
  (forall fc, variables (g fc) = variables fc ++ vars /\ expression (g fc) = e) ->
  (k < 3)%nat ->
  exists fc,
    find (drives path k) (driven_curves path g curves) = Some fc /\
    expression fc = e /\
    variables fc = curve_variables path k curves ++ vars.
Proof.
  intros Hg Hv Hk. unfold driven_curves.
  rewrite (drive_fold path g k Hg [0; 1; 2]%nat _ _);
    [| repeat constructor; simpl; intuition lia | apply driver_curves_handles].
  assert (Hin : existsb (Nat.eqb k) [0; 1; 2]%nat = true).
  { destruct k as [| [| [| k]]]; [reflexivity | reflexivity | reflexivity | lia]. }
  rewrite Hin.
  pose proof (driver_curves_variables path [0; 1; 2]%nat k curves) as Hvars.
  unfold curve_variables in Hvars at 1.
  assert (Hex : exists h, index_where (drives path k)
                            (fst (driver_curves path [0; 1; 2]%nat curves)) = Some h).
  { pose proof (driver_curves_handles path [0; 1; 2]%nat curves) as H.
    inversion H as [| ? h0 ? ? H0 H']; subst.
    inversion H' as [| ? h1 ? ? H1 H'']; subst.
    inversion H'' as [| ? h2 ? ? H2 _]; subst.
    destruct k as [| [| [| k]]]; [exists h0 | exists h1 | exists h2 | lia]; assumption. }
  destruct Hex as [h Hh]. rewrite find_index_where, Hh in Hvars |- *.
  destruct (index_where_nth _ _ _ Hh) as (fc & Hfc & _). rewrite Hfc in Hvars |- *.
  exists (g fc). destruct (Hv fc) as [Hvar Hexp].
  split; [reflexivity |]. split; [exact Hexp |]. rewrite Hvar, Hvars. reflexivity.
Qed.

Lemma filter_update {A : Type} (q : A -> bool) (g : A -> A) (l : list A) (h : nat) :
  (forall x, nth_error l h = Some x -> q x = false /\ q (g x) = false) ->
  filter q (update h g l) = filter q l.
Proof.
  revert h. induction l as [| x l IH]; intros h H; [reflexivity |].
  destruct h; simpl.
  - destruct (H x eq_refl) as [-> ->]. reflexivity.
  - rewrite (IH h); [reflexivity |]. exact H.
Qed.

Lemma drives_not_other (path : string) (a : nat) (fc : FCurve) :
  (a < 3)%nat -> drives path a fc = true ->
  negb ((data_path fc =? path) && (array_index fc <? 3)%nat) = false.
Proof.
  unfold drives. intros Ha H. apply andb_true_iff in H. destruct H as [-> H].
  apply Nat.eqb_eq in H. rewrite H.
  assert (Hlt : (a <? 3)%nat = true) by (apply Nat.ltb_lt; exact Ha).
  rewrite Hlt. reflexivity.
Qed.

Lemma driver_curve_others (path : string) (axis : nat) (curves : list FCurve) :
  (axis < 3)%nat ->
  other_curves path (fst (driver_curve path axis curves)) = other_curves path curves.
Proof.
  intros Ha. unfold driver_curve, other_curves.
  destruct (index_where (drives path axis) curves); [reflexivity |].
  cbn [fst]. rewrite filter_app. cbn [filter data_path array_index].
  rewrite String.eqb_refl.
  assert (Hlt : (axis <? 3)%nat = true) by (apply Nat.ltb_lt; exact Ha).
  rewrite Hlt. cbn. apply app_nil_r.
Qed.

Lemma driver_curves_others (path : string) (axes : list nat) :
  Forall (fun a => (a < 3)%nat) axes ->
  forall curves,
    other_curves path (fst (driver_curves path axes curves)) = other_curves path curves.
Proof.
  intros Hax. induction Hax as [| axis rest Ha _ IH]; intros curves; [reflexivity |].
  cbn [driver_curves].
  pose proof (driver_curve_others path axis curves Ha) as H1.
  destruct (driver_curve path axis curves) as [curves1 i].
  specialize (IH curves1).
  destruct (driver_curves path rest curves1) as [curves2 handles].
  cbn [fst] in *. rewrite IH. exact H1.
Qed.

Lemma drive_fold_others (path : string) (g : FCurve -> FCurve) :
  keeps_axis g ->
  forall axes hs curves,
    Forall (fun a => (a < 3)%nat) axes ->
    Forall2 (fun axis h => index_where (drives path axis) curves = Some h) axes hs ->
    other_curves path (fold_left (fun F h => update h g F) hs curves)
    = other_curves path curves.
Proof.
  intros Hg axes. induction axes as [| a axes IH]; intros hs curves Hax H.
  - inversion H. reflexivity.
  - inversion H as [| ? h ? hs' Hh Hrest]; subst. clear H.
    inversion Hax as [| ? ? Ha Hax']; subst.
    cbn [fold_left].
    assert (Hrest' : Forall2 (fun axis h0 =>
                        index_where (drives path axis) (update h g curves) = Some h0)
                       axes hs').
    { clear IH Hax Hax'.
      induction Hrest as [| a' h' axes hs Hh' _ IHr]; constructor.
      - rewrite index_where_update by (apply drives_keeps_axis; exact Hg). exact Hh'.
      - exact IHr. }
    rewrite (IH _ _ Hax' Hrest'). unfold other_curves. apply filter_update.
    intros x Hx. destruct (index_where_nth _ _ _ Hh) as (y & Hy & Hd).
    rewrite Hx in Hy. inversion Hy; subst y.
    split; [apply (drives_not_other path a); assumption |].
    apply (drives_not_other path a); [exact Ha |].
    rewrite drives_keeps_axis by exact Hg. exact Hd.
Qed.

Lemma driven_curves_others (path : string) (g : FCurve -> FCurve) (curves : list FCurve) :
  keeps_axis g ->
  other_curves path (driven_curves path g curves) = other_curves path curves.
Proof.
  intros Hg. unfold driven_curves.
  assert (Hax : Forall (fun a => (a < 3)%nat) [0; 1; 2]%nat)
    by (repeat constructor).
  rewrite (drive_fold_others path g Hg [0; 1; 2]%nat _ _ Hax
             (driver_curves_handles path _ curves)).
  apply driver_curves_others. exact Hax.
Qed.

Section Drivers.
Context {gen : PRNG}.

Lemma drivers_set_twice (obj : nat) (f1 f2 : list FCurve -> list FCurve)
    (s : Session gen) :
  set_objects (update obj (set_drivers f2)) (set_objects (update obj (set_drivers f1)) s)
  = set_objects (update obj (set_drivers (fun curves => f2 (f1 curves)))) s.
Proof.
  destruct s. unfold set_objects. cbn. rewrite update_update. reflexivity.
Qed.

Lemma drivers_set_ext (obj : nat) (f1 f2 : list FCurve -> list FCurve)
    (s : Session gen) :
  (forall curves, f1 curves = f2 curves) ->
  set_objects (update obj (set_drivers f1)) s
  = set_objects (update obj (set_drivers f2)) s.
Proof.
  intros H. destruct s. unfold set_objects. cbn. f_equal.
  apply update_ext. intros o. unfold set_drivers. rewrite H. reflexivity.
Qed.

Lemma drivers_set_id (obj : nat) (s : Session gen) :
  set_objects (update obj (set_drivers (fun curves => curves))) s = s.
Proof.
  destruct s. unfold set_objects. cbn. f_equal.
  rewrite (update_ext _ (fun o => o)); [apply update_id | intros []; reflexivity].
Qed.

Lemma camera_is_set_drivers (camera : nat) (cam : Camera) (obj : nat)
    (f : list FCurve -> list FCurve) (s : Session gen) :
  camera_is camera cam s ->
  camera_is camera cam (set_objects (update obj (set_drivers f)) s).
Proof.
  intros (o & Ho & Hd). unfold camera_is. cbn [objects set_objects].
  rewrite nth_error_update_at. destruct (obj =? camera)%nat; rewrite Ho.
  - exists (set_drivers f o). split; [reflexivity | exact Hd].
  - exists o. split; [reflexivity | exact Hd].
Qed.

Lemma data_id_data_run (camera : nat) (cam : Camera) (s : Session gen) :
  camera_is camera cam s -> data_id_data camera s = (Returns (CameraId cam), s).
Proof.
  intros (o & Ho & Hd). unfold data_id_data, bind, get_object.
  rewrite Ho. cbn [from_option ret]. rewrite Hd. reflexivity.
Qed.

(** A loop over the curves [driver_add] returns, whose body applies [g]
    to the curve. *)
Lemma driver_loop_run (camera : nat) (cam : Camera) (obj : nat)
    (body : nat -> M (Session gen) unit) (g : FCurve -> FCurve) :
  (forall h s, camera_is camera cam s ->
     body h s = (Returns tt, set_objects (update obj (set_drivers (update h g))) s)) ->
  forall hs s,
    camera_is camera cam s ->
    for_each hs body s
    = (Returns tt,
       set_objects (update obj (set_drivers
         (fun curves => fold_left (fun F h => update h g F) hs curves))) s).
Proof.
  intros Hbody hs. induction hs as [| h hs IH]; intros s Hcam.
  - cbn [for_each fold_left]. rewrite drivers_set_id. reflexivity.
  - cbn [for_each fold_left]. unfold bind. rewrite (Hbody h s Hcam).
    rewrite IH by (apply camera_is_set_drivers; exact Hcam).
    rewrite drivers_set_twice. reflexivity.
Qed.

Lemma drive_object_then {B : Type} (camera : nat) (cam : Camera) (obj : nat)
    (path : string) (body : nat -> M (Session gen) unit) (g : FCurve -> FCurve)
    (rest : M (Session gen) B) (s : Session gen) (o : Object) :
  (forall h s, camera_is camera cam s ->
     body h s = (Returns tt, set_objects (update obj (set_drivers (update h g))) s)) ->
  camera_is camera cam s ->
  nth_error (objects s) obj = Some o ->
  (fcurves <- driver_add obj path ;; for_each fcurves body ;; rest) s
  = rest (set_objects
            (update obj (set_drivers (fun _ => driven_curves path g (drivers o)))) s).
Proof.
  intros Hbody Hcam Ho. unfold bind at 1, driven_curves.
  unfold driver_add, bind at 1, get_object. rewrite Ho. cbn [from_option ret].
  destruct (driver_curves path [0; 1; 2]%nat (drivers o)) as [curves handles].
  unfold bind at 1, object_set, modify, ret. cbn [fst snd].
  unfold bind at 1.
  rewrite (driver_loop_run camera cam obj body g Hbody)
    by (apply camera_is_set_drivers; exact Hcam).
  rewrite drivers_set_twice. reflexivity.
Qed.

Lemma drive_object_run (camera : nat) (cam : Camera) (obj : nat) (path : string)
    (body : nat -> M (Session gen) unit) (g : FCurve -> FCurve)
    (s : Session gen) (o : Object) :
  (forall h s, camera_is camera cam s ->
     body h s = (Returns tt, set_objects (update obj (set_drivers (update h g))) s)) ->
  camera_is camera cam s ->
  nth_error (objects s) obj = Some o ->
  (fcurves <- driver_add obj path ;; for_each fcurves body) s
  = (Returns tt,
     set_objects (update obj (set_drivers (fun _ => driven_curves path g (drivers o)))) s).
Proof.
  intros Hbody Hcam Ho. unfold bind at 1, driven_curves.
  unfold driver_add, bind at 1, get_object. rewrite Ho. cbn [from_option ret].
  destruct (driver_curves path [0; 1; 2]%nat (drivers o)) as [curves handles].
  unfold bind at 1, object_set, modify, ret. cbn [fst snd].
  rewrite (driver_loop_run camera cam obj body g Hbody)
    by (apply camera_is_set_drivers; exact Hcam).
  rewrite drivers_set_twice. reflexivity.
Qed.

Lemma install_drivers_run (stars_obj template_obj camera : nat) (cam : Camera)
    (s : Session gen) (stars template : Object) :
  camera_is camera cam s ->
  nth_error (objects s) stars_obj = Some stars ->
  nth_error (objects s) template_obj = Some template ->
  stars_obj <> template_obj ->
  install_drivers stars_obj template_obj camera s
  = (Returns tt,
     set_objects (fun l =>
       update template_obj
         (set_drivers (fun _ => driven_curves "scale" (template_curve cam)
                                  (drivers template)))
         (update stars_obj
            (set_drivers (fun _ => driven_curves "scale" (stars_curve cam)
                                     (drivers stars))) l)) s).
Proof.
  intros Hcam Hs Ht Hne. unfold install_drivers.
  rewrite (drive_object_then camera cam stars_obj "scale" _ (stars_curve cam) _ s stars);
    [| | exact Hcam | exact Hs].
  2: { intros h s0 Hc. unfold bind at 1. rewrite (data_id_data_run camera cam s0 Hc).
       unfold add_variable, set_expression, fcurve_set, object_set, modify, bind.
       rewrite drivers_set_twice. apply f_equal. apply drivers_set_ext.
       intros curves. rewrite update_update. reflexivity. }
  rewrite (drive_object_run camera cam template_obj "scale" _ (template_curve cam) _
             template);
    [| | apply camera_is_set_drivers; exact Hcam |].
  - destruct s. reflexivity.
  - intros h s0 Hc. unfold bind at 1. rewrite (data_id_data_run camera cam s0 Hc).
    unfold add_variable, set_expression, fcurve_set, object_set, modify, bind.
    rewrite !drivers_set_twice. apply f_equal. apply drivers_set_ext.
    intros curves. rewrite !update_update. reflexivity.
  - cbn [objects set_objects]. rewrite nth_error_update_at.
    destruct (Nat.eqb_spec stars_obj template_obj); [contradiction | exact Ht].
Qed.
End Drivers.

Section DriverResults.
Context {gen : PRNG}.

Lemma generate_camera (props : Props) (s s' : Session gen) :
  generate_starscape props s = (Returns true, s') ->
  exists camera cam,
    scene_camera s = Some camera /\ camera_is camera cam s /\ camera_type cam = "PERSP".
Proof.
  unfold generate_starscape. intros H.
  apply bind_returns in H. destruct H as (camera & s0 & Hc & H).
  unfold gets in Hc. inversion Hc as [[Hcam Hs0]]. subst s0. clear Hc.
  destruct camera as [camera |]; [| discriminate].
  apply bind_returns in H. destruct H as (ty & s0 & Hty & H).
  unfold data_type, bind, get_object in Hty.
  destruct (nth_error (objects s) camera) as [o |] eqn:Ho; [| discriminate].
  cbn [from_option ret] in Hty.
  destruct (data o) as [| m | cam] eqn:Hd; try discriminate.
  unfold ret in Hty. inversion Hty; subst ty s0.
  exists camera, cam. split; [exact Hcam |].
  split; [exists o; split; assumption |].
  destruct (camera_type cam =? "PERSP") eqn:E; [| discriminate].
  apply String.eqb_eq. exact E.
Qed.

Lemma create_or_reuse_drivers_of (name other : string) (s s' : Session gen) (obj : nat) :
  create_or_reuse_mesh_object name s = (Returns obj, s') ->
  drivers_of other (objects s') = drivers_of other (objects s).
Proof.
  rewrite create_or_reuse_run. cbv zeta. intros H.
  destruct (index_where (named mesh_name (name ++ "_mesh")%string) (meshes s));
    destruct (index_where (named obj_name name) (objects s));
    inversion H; subst; clear H;
    cbn [objects set_meshes set_objects set_collection_objects]; try reflexivity;
    unfold drivers_of;
    (destruct (find (named obj_name other) (objects s)) as [o |] eqn:E;
     [rewrite (find_app_some _ _ _ _ E); reflexivity |
      rewrite (find_app_none _ _ _ E); cbn [find];
      destruct (named obj_name other _); reflexivity]).
Qed.

Lemma drivers_of_found (name : string) (objs : list Object) (obj : nat) (o : Object) :
  index_where (named obj_name name) objs = Some obj ->
  nth_error objs obj = Some o ->
  drivers_of name objs = drivers o.
Proof.
  intros Hi Ho. unfold drivers_of. rewrite find_index_where, Hi, Ho. reflexivity.
Qed.

Lemma index_where_same_map {A B : Type} (g : A -> B) (q : B -> bool) (p : A -> bool)
    (l l' : list A) :
  (forall x, p x = q (g x)) -> map g l' = map g l ->
  index_where p l' = index_where p l.
Proof.
  intros Hp Hm.
  assert (H : forall l0, index_where p l0 = index_where q (map g l0)).
  { intros l0. rewrite index_where_map. induction l0 as [| x l0 IH]; [reflexivity |].
    simpl. rewrite Hp, IH. reflexivity. }
  rewrite !H, Hm. reflexivity.
Qed.

(** X23: the scale drivers after a successful call.  For each of the
    three components, the first curve that drives it on the star field
    has the expression ["0.9 * s"], on the template the expression
    ["50 / f * 2202.907 / max(x, y) / p * 100"], and its variables are
    the ones that curve had before the call, none if the curve or the
    object is new, followed by the variables of this call: [s] (the
    [clip_end] of the camera) on the star field; [f] (the [lens] of
    the camera), [x], [y], [p] (the render resolution of the scene) on
    the template.  Nothing removes a variable, so a call on a scene that
    an earlier call has set up adds the same variables again.  The
    curves that drive something else are left as they are. *)
Theorem generate_scale_drivers (props : Props) (s s' : Session gen) :
  generate_starscape props s = (Returns true, s') ->
  exists camera cam stars template,
    scene_camera s = Some camera /\
    camera_is camera cam s /\
    find (named obj_name "Starscape") (objects s') = Some stars /\
    find (named obj_name "Star_Template") (objects s') = Some template /\
    other_curves "scale" (drivers stars)
    = other_curves "scale" (drivers_of "Starscape" (objects s)) /\
    other_curves "scale" (drivers template)
    = other_curves "scale" (drivers_of "Star_Template" (objects s)) /\
    forall k, (k < 3)%nat ->
      (exists fc,
         find (drives "scale" k) (drivers stars) = Some fc /\
         expression fc = "0.9 * s" /\
         variables fc
         = curve_variables "scale" k (drivers_of "Starscape" (objects s))
           ++ [mkDriverVariable "s" "SINGLE_PROP" "CAMERA" (CameraId cam) "clip_end"]) /\
      (exists fc,
         find (drives "scale" k) (drivers template) = Some fc /\
         expression fc = "50 / f * 2202.907 / max(x, y) / p * 100" /\
         variables fc
         = curve_variables "scale" k (drivers_of "Star_Template" (objects s))
           ++ [mkDriverVariable "f" "SINGLE_PROP" "CAMERA" (CameraId cam) "lens";
               mkDriverVariable "x" "SINGLE_PROP" "SCENE" SceneId "render.resolution_x";
               mkDriverVariable "y" "SINGLE_PROP" "SCENE" SceneId "render.resolution_y";
               mkDriverVariable "p" "SINGLE_PROP" "SCENE" SceneId
                 "render.resolution_percentage"]).
Proof.
  intros H. destruct (generate_camera props s s' H) as (camera & cam & Hcam & Hcis & _).
  apply generate_steps in H.
  destruct H as (camera' & vs & s1 & stars_obj & s2 & s3 & template_obj & s4 & s5
                 & s6 & shader & s7 & s8 & s9 & Hcam' & P1 & P2 & P3 & P4 & P5 & P6
                 & P7 & P8 & P9 & P10 & P11).
  rewrite Hcam in Hcam'. inversion Hcam'; subst camera'. clear Hcam'.
  rewrite star_positions_stream in P1. inversion P1; subst vs s1. clear P1.
  destruct (geometry_objects _ _ _ _ _ _ _ _ P2 P3 P4 P5)
    as (tail & O5 & _ & _ & Is5 & It5 & Hne).
  cbn [objects set_random_state] in O5.
  (* the drivers the two names denote, up to the driver stage *)
  assert (O3 : objects s3 = objects s2)
    by (apply (from_pydata_frame objects _ _ _ _ (fun _ _ => eq_refl) _ _ _ P3)).
  assert (O5' : objects s5 = objects s4)
    by (apply (from_pydata_frame objects _ _ _ _ (fun _ _ => eq_refl) _ _ _ P5)).
  assert (D5 : forall name, drivers_of name (objects s5) = drivers_of name (objects s)).
  { intros name. rewrite O5', (create_or_reuse_drivers_of _ name _ _ _ P4), O3.
    rewrite (create_or_reuse_drivers_of _ name _ _ _ P2). reflexivity. }
  assert (O6 : objects s6 = objects s5).
  { apply (build_shader_frame objects props) with (r := Returns tt); [| exact P6].
    split; reflexivity. }
  set (core := fun o : Object => (obj_name o, data o, drivers o)).
  assert (V8 : map core (objects s8) = map core (objects s6)).
  { rewrite (install_constraint_by core (fun s0 => map core (objects s0)) props
               stars_obj camera
               (fun obj f s0 Hf => map_update core f obj (objects s0) Hf)
               (fun _ _ => eq_refl) _ _ _ P9).
    apply (preserves_object_set (fun s0 => map core (objects s0)) template_obj
             (set_active_material (Some shader))) with (r := Returns tt); [| exact P8].
    intros s0. cbn [objects set_objects]. apply map_update. intros []; reflexivity. }
  rewrite O6 in V8.
  destruct (index_where_nth _ _ _ Is5) as (a5 & Ha5 & _).
  destruct (index_where_nth _ _ _ It5) as (b5 & Hb5 & _).
  destruct (nth_error_same_map core _ _ _ _ V8 Ha5) as (a8 & Ha8 & Ea).
  destruct (nth_error_same_map core _ _ _ _ V8 Hb5) as (b8 & Hb8 & Eb).
  assert (Hcis8 : camera_is camera cam s8).
  { destruct Hcis as (oc & Hoc & Hdc).
    assert (Hoc5 : nth_error (objects s5) camera = Some oc).
    { rewrite O5, nth_error_app1; [exact Hoc |].
      apply nth_error_Some. rewrite Hoc. discriminate. }
    destruct (nth_error_same_map core _ _ _ _ V8 Hoc5) as (oc8 & Hoc8 & Ec).
    exists oc8. split; [exact Hoc8 |]. inversion Ec. congruence. }
  rewrite (install_drivers_run stars_obj template_obj camera cam s8 a8 b8
             Hcis8 Ha8 Hb8 Hne) in P10.
  inversion P10 as [E9]. clear P10.
  rewrite bind_scene_run in P11. cbv zeta in P11.
  assert (O' : objects s'
               = update template_obj (set_hide_viewport true)
                   (update stars_obj (set_show_instancer_for_render false)
                      (update stars_obj (set_use_instance_vertices_rotation true)
                         (update stars_obj (set_instance_type "VERTS")
                            (update template_obj (set_parent (Some stars_obj))
                               (objects s9)))))).
  { destruct (clear_world_bg props); [destruct (world s9) |];
      inversion P11; reflexivity. }
  rewrite <- E9 in O'. cbn [objects set_objects] in O'.
  assert (Hst : (stars_obj =? template_obj)%nat = false) by (apply Nat.eqb_neq; exact Hne).
  assert (Hts : (template_obj =? stars_obj)%nat = false)
    by (apply Nat.eqb_neq; intros E; apply Hne; symmetry; exact E).
  assert (Is8 : index_where (named obj_name "Starscape") (objects s8) = Some stars_obj).
  { rewrite <- Is5.
    apply (index_where_same_map core (fun c => fst (fst c) =? "Starscape"));
      [reflexivity | exact V8]. }
  assert (It8 : index_where (named obj_name "Star_Template") (objects s8)
                = Some template_obj).
  { rewrite <- It5.
    apply (index_where_same_map core (fun c => fst (fst c) =? "Star_Template"));
      [reflexivity | exact V8]. }
  assert (Da : drivers a8 = drivers_of "Starscape" (objects s)).
  { unfold core in Ea. inversion Ea as [[Hn Hda Hd]]. rewrite Hd, <- D5. symmetry.
    apply (drivers_of_found _ _ stars_obj); assumption. }
  assert (Db : drivers b8 = drivers_of "Star_Template" (objects s)).
  { unfold core in Eb. inversion Eb as [[Hn Hda Hd]]. rewrite Hd, <- D5. symmetry.
    apply (drivers_of_found _ _ template_obj); assumption. }
  eexists camera, cam, _, _.
  split; [exact Hcam |]. split; [exact Hcis |].
  split.
  { rewrite find_index_where, O'.
    rewrite !index_where_update by (intros []; reflexivity). rewrite Is8.
    rewrite !nth_error_update_at, ?Hts, ?Hst, ?Nat.eqb_refl, Ha8. reflexivity. }
  split.
  { rewrite find_index_where, O'.
    rewrite !index_where_update by (intros []; reflexivity). rewrite It8.
    rewrite !nth_error_update_at, ?Hts, ?Hst, ?Nat.eqb_refl, Hb8. reflexivity. }
  cbn [option_map drivers set_drivers set_show_instancer_for_render
       set_use_instance_vertices_rotation set_instance_type
       set_hide_viewport set_parent].
  rewrite Da, Db.
  split; [apply driven_curves_others; intros fc; split; reflexivity |].
  split; [apply driven_curves_others; intros fc; split; reflexivity |].
  intros k Hk. split.
  - apply (driven_curves_axis "scale" (stars_curve cam)); [| | exact Hk].
    + intros fc. split; reflexivity.
    + intros fc. split; reflexivity.
  - apply (driven_curves_axis "scale" (template_curve cam)); [| | exact Hk].
    + intros fc. split; reflexivity.
    + intros fc. cbn. rewrite <- !app_assoc. split; reflexivity.
Qed.
End DriverResults.

Lemma generate_scale_drivers_witness :
  exists camera cam stars template,
    scene_camera fresh_scene = Some camera /\
    camera_is camera cam fresh_scene /\
    find (named obj_name "Starscape") (objects (after some_props fresh_scene))
    = Some stars /\
    find (named obj_name "Star_Template") (objects (after some_props fresh_scene))
    = Some template /\
    other_curves "scale" (drivers stars)
    = other_curves "scale" (drivers_of "Starscape" (objects fresh_scene)) /\
    other_curves "scale" (drivers template)
    = other_curves "scale" (drivers_of "Star_Template" (objects fresh_scene)) /\
    forall k, (k < 3)%nat ->
      (exists fc,
         find (drives "scale" k) (drivers stars) = Some fc /\
         expression fc = "0.9 * s" /\
         variables fc
         = curve_variables "scale" k (drivers_of "Starscape" (objects fresh_scene))
           ++ [mkDriverVariable "s" "SINGLE_PROP" "CAMERA" (CameraId cam) "clip_end"]) /\
      (exists fc,
         find (drives "scale" k) (drivers template) = Some fc /\
         expression fc = "50 / f * 2202.907 / max(x, y) / p * 100" /\
         variables fc
         = curve_variables "scale" k (drivers_of "Star_Template" (objects fresh_scene))
           ++ [mkDriverVariable "f" "SINGLE_PROP" "CAMERA" (CameraId cam) "lens";
               mkDriverVariable "x" "SINGLE_PROP" "SCENE" SceneId "render.resolution_x";
               mkDriverVariable "y" "SINGLE_PROP" "SCENE" SceneId "render.resolution_y";
               mkDriverVariable "p" "SINGLE_PROP" "SCENE" SceneId
                 "render.resolution_percentage"]).
Proof.
  apply (generate_scale_drivers some_props fresh_scene (after some_props fresh_scene)).
  exact fresh_scene_generates.
Defined.

(** ** When the call succeeds *)

Section Progress.
Context {gen : PRNG}.

Lemma bind_run {S A B : Type} (m : M S A) (k : A -> M S B) (s s1 : S) (a : A) :
  m s = (Returns a, s1) -> bind m k s = k a s1.
Proof. intros H. unfold bind. rewrite H. reflexivity. Qed.

Lemma camera_is_same_id (camera : nat) (cam : Camera) (s s' : Session gen) :
  objects_id s' = objects_id s -> camera_is camera cam s -> camera_is camera cam s'.
Proof.
  intros Hid (o & Ho & Hd).
  destruct (nth_error_same_map object_id (objects s) (objects s') _ _ Hid Ho)
    as (o' & Ho' & Hid').
  exists o'. split; [exact Ho' |]. inversion Hid'. congruence.
Qed.

(** Every stage before the last returns, on a session with a
    perspective camera in which the two objects can be reused. *)
Lemma generate_reaches_last_stage (props : Props) (s : Session gen) (camera : nat)
    (cam : Camera) :
  scene_camera s = Some camera ->
  camera_is camera cam s ->
  camera_type cam = "PERSP" ->
  reuse_ready "Starscape" s ->
  reuse_ready "Star_Template" s ->
  exists stars_obj template_obj s9,
    generate_starscape props s
    = (bind_scene props stars_obj template_obj ;; ret true) s9 /\
    world s9 = world s /\
    index_where (named obj_name "Starscape") (objects s9) = Some stars_obj /\
    index_where (named obj_name "Star_Template") (objects s9) = Some template_obj /\
    List.length (node_groups s9) = (List.length (node_groups s) + 3)%nat.
Proof.
  intros Hcam Hcis Hpersp Hstars Htemplate.
  unfold generate_starscape. unfold bind at 1, gets. rewrite Hcam.
  rewrite (bind_run (data_type camera) _ s s "PERSP").
  2: { destruct Hcis as (o & Ho & Hd). unfold data_type, bind, get_object.
       rewrite Ho. cbn [from_option ret]. rewrite Hd, Hpersp. reflexivity. }
  cbn [String.eqb Ascii.eqb Bool.eqb negb].
  (* the positions *)
  rewrite (bind_run _ _ s _ _ (star_positions_stream props s)).
  match goal with
  | |- context [create_or_reuse_mesh_object "Starscape" ;; _] => idtac
  | _ => idtac
  end.
  set (s1 := set_random_state _ s).
  set (vs := map _ _).
  assert (Hstars1 : reuse_ready "Starscape" s1)
    by (apply (reuse_ready_ext _ s); [reflexivity | reflexivity | exact Hstars]).
  assert (Htemplate1 : reuse_ready "Star_Template" s1)
    by (apply (reuse_ready_ext _ s); [reflexivity | reflexivity | exact Htemplate]).
  (* the two objects and their meshes *)
  destruct (fill_mesh_object "Starscape" vs [] [] s1 Hstars1)
    as (stars_obj & s2 & s3 & o3 & m3 & E2 & E3 & _).
  rewrite (bind_run _ _ _ _ _ E2), (bind_run _ _ _ _ _ E3).
  assert (Htemplate3 : reuse_ready "Star_Template" s3)
    by (exact (star_stage_keeps_template _ _ _ _ _ _ E2 E3 Htemplate1)).
  destruct (fill_mesh_object "Star_Template" template_vertices template_edges
              template_faces s3 Htemplate3)
    as (template_obj & s4 & s5 & o5 & m5 & E4 & E5 & _).
  rewrite (bind_run _ _ _ _ _ E4), (bind_run _ _ _ _ _ E5).
  destruct (geometry_objects _ _ _ _ _ _ _ _ E2 E3 E4 E5)
    as (tail & O5 & _ & _ & Is5 & It5 & Hne).
  (* the material *)
  destruct (build_shader props s5) as [r6 s6] eqn:E6.
  destruct (build_shader_run props s5 r6 s6 E6)
    as (Hr6 & pre & post & t & Hm6 & Hpre & _ & _).
  subst r6. rewrite (bind_run _ _ _ _ _ E6).
  assert (O6 : objects s6 = objects s5).
  { apply (build_shader_frame objects props) with (r := Returns tt); [| exact E6].
    split; reflexivity. }
  rewrite (bind_run (lookup material_name materials "Star Shader") _ s6 s6
             (List.length pre)).
  2: { unfold lookup. fold (named material_name "Star Shader"). rewrite Hm6.
       rewrite (index_where_app_mid (named material_name "Star Shader") pre post
                  (mkMaterial "Star Shader" true (Some t)) Hpre eq_refl).
       reflexivity. }
  set (s7 := set_objects (update template_obj
                            (set_active_material (Some (List.length pre)))) s6).
  rewrite (bind_run (object_set template_obj _) _ s6 s7 tt) by reflexivity.
  assert (I7 : objects_id s7 = objects_id s5).
  { unfold s7. rewrite objects_id_update by (intros []; reflexivity).
    unfold objects_id. rewrite O6. reflexivity. }
  (* the constraint *)
  destruct (index_where_nth _ _ _ Is5) as (a5 & Ha5 & _).
  destruct (index_where_nth _ _ _ It5) as (b5 & Hb5 & _).
  destruct (nth_error_same_map object_id _ _ _ _ I7 Ha5) as (a7 & Ha7 & _).
  destruct (install_constraint_run props stars_obj camera s7 a7 Ha7)
    as (s8 & a8 & E8 & Ha8 & _ & I8 & _ & G8).
  rewrite (bind_run _ _ _ _ _ E8).
  rewrite I7 in I8.
  destruct (nth_error_same_map object_id _ _ _ _ I8 Hb5) as (b8 & Hb8 & _).
  (* the drivers *)
  assert (Hcis5 : camera_is camera cam s5).
  { destruct Hcis as (oc & Hoc & Hdc). exists oc. split; [| exact Hdc].
    rewrite O5. unfold s1. cbn [objects set_random_state].
    rewrite nth_error_app1; [exact Hoc |].
    apply nth_error_Some. rewrite Hoc. discriminate. }
  assert (Hcis8 : camera_is camera cam s8)
    by (exact (camera_is_same_id camera cam s5 s8 I8 Hcis5)).
  rewrite (bind_run _ _ _ _ _
             (install_drivers_run stars_obj template_obj camera cam s8 a8 b8
                Hcis8 Ha8 Hb8 Hne)).
  eexists stars_obj, template_obj, _. split; [reflexivity |].
  cbn [world objects node_groups set_objects].
  assert (W : world s8 = world s).
  { rewrite (install_constraint_by (fun _ => tt) world props stars_obj camera
               (fun _ _ _ _ => eq_refl) (fun _ _ => eq_refl) _ _ _ E8).
    unfold s7. cbn [world set_objects].
    rewrite (build_shader_frame world props
               (conj (fun _ _ => eq_refl) (fun _ _ => eq_refl)) _ _ _ E6).
    rewrite (from_pydata_frame world template_obj template_vertices template_edges
               template_faces (fun _ _ => eq_refl) _ _ _ E5).
    rewrite (create_or_reuse_frame world _ (fun _ _ => eq_refl) (fun _ _ => eq_refl)
               (fun _ _ => eq_refl) _ _ _ E4).
    rewrite (from_pydata_frame world stars_obj _ [] [] (fun _ _ => eq_refl) _ _ _ E3).
    rewrite (create_or_reuse_frame world _ (fun _ _ => eq_refl) (fun _ _ => eq_refl)
               (fun _ _ => eq_refl) _ _ _ E2).
    reflexivity. }
  split; [exact W |].
  assert (Hidx : forall name obj,
            index_where (named obj_name name) (objects s5) = Some obj ->
            index_where (named obj_name name)
              (update template_obj
                 (set_drivers (fun _ => driven_curves "scale" (template_curve cam)
                                          (drivers b8)))
                 (update stars_obj
                    (set_drivers (fun _ => driven_curves "scale" (stars_curve cam)
                                             (drivers a8)))
                    (objects s8))) = Some obj).
  { intros name obj H. rewrite !index_where_update by (intros []; reflexivity).
    rewrite index_where_objects_id, I8, <- index_where_objects_id. exact H. }
  split; [apply Hidx; exact Is5 |]. split; [apply Hidx; exact It5 |].
  rewrite G8. unfold s7. cbn [node_groups set_objects].
  rewrite (build_shader_groups props _ _ _ E6).
  rewrite (from_pydata_frame node_groups template_obj template_vertices
             template_edges template_faces (fun _ _ => eq_refl) _ _ _ E5).
  rewrite (create_or_reuse_groups _ _ _ _ E4).
  rewrite (from_pydata_frame node_groups stars_obj _ [] [] (fun _ _ => eq_refl)
             _ _ _ E3).
  rewrite (create_or_reuse_groups _ _ _ _ E2).
  unfold s1, add_group. cbn [node_groups set_random_state].
  rewrite !length_app. cbn [List.length]. lia.
Qed.

(** X24: when the scene has a perspective camera, each of the two
    objects is absent or carries the mesh of its name, and the context
    has a world or [clear_world_bg] is off, the call returns [True]:
    no stage raises. *)
Theorem generate_succeeds (props : Props) (s : Session gen) (camera : nat)
    (cam : Camera) :
  scene_camera s = Some camera ->
  camera_is camera cam s ->
  camera_type cam = "PERSP" ->
  reuse_ready "Starscape" s ->
  reuse_ready "Star_Template" s ->
  (clear_world_bg props = true -> world s <> None) ->
  exists s', generate_starscape props s = (Returns true, s').
Proof.
  intros Hcam Hcis Hpersp Hstars Htemplate Hworld.
  destruct (generate_reaches_last_stage props s camera cam Hcam Hcis Hpersp Hstars
              Htemplate)
    as (stars_obj & template_obj & s9 & Hrun & W & _).
  rewrite Hrun. unfold bind. rewrite bind_scene_run. cbv zeta. rewrite W.
  destruct (clear_world_bg props).
  - destruct (world s) as [w |]; [| destruct (Hworld eq_refl eq_refl)].
    eexists. reflexivity.
  - eexists. reflexivity.
Qed.

(** X25: in a context without a world, a call with [clear_world_bg] on
    such a scene raises [AttributeError] at its last statements, after
    everything else has been done: the two objects and the three node
    groups of the call are there. *)
Theorem generate_without_world (props : Props) (s : Session gen) (camera : nat)
    (cam : Camera) :
  scene_camera s = Some camera ->
  camera_is camera cam s ->
  camera_type cam = "PERSP" ->
  reuse_ready "Starscape" s ->
  reuse_ready "Star_Template" s ->
  clear_world_bg props = true ->
  world s = None ->
  exists s',
    generate_starscape props s = (Raises AttributeError, s') /\
    index_where (named obj_name "Starscape") (objects s') <> None /\
    index_where (named obj_name "Star_Template") (objects s') <> None /\
    List.length (node_groups s') = (List.length (node_groups s) + 3)%nat.
Proof.
  intros Hcam Hcis Hpersp Hstars Htemplate Hclear Hworld.
  destruct (generate_reaches_last_stage props s camera cam Hcam Hcis Hpersp Hstars
              Htemplate)
    as (stars_obj & template_obj & s9 & Hrun & W & Is9 & It9 & G9).
  rewrite Hrun. unfold bind. rewrite bind_scene_run. cbv zeta.
  rewrite W, Hclear, Hworld.
  eexists. split; [reflexivity |]. cbn [objects node_groups set_objects].
  rewrite !index_where_update by (intros []; reflexivity).
  rewrite Is9, It9. repeat split; try discriminate. exact G9.
Qed.
End Progress.

Lemma generate_succeeds_witness :
  exists s', generate_starscape some_props fresh_scene = (Returns true, s').
Proof.
  apply (generate_succeeds some_props fresh_scene 0%nat (mkCamera "Camera" "PERSP")).
  - reflexivity.
  - exists (camera_object "PERSP"). split; reflexivity.
  - reflexivity.
  - intros obj H. simpl in H. discriminate.
  - intros obj H. simpl in H. discriminate.
  - intros _. discriminate.
Defined.

Lemma generate_without_world_witness :
  exists s',
    generate_starscape some_props worldless_scene = (Raises AttributeError, s') /\
    index_where (named obj_name "Starscape") (objects s') <> None /\
    index_where (named obj_name "Star_Template") (objects s') <> None /\
    List.length (node_groups s') = (List.length (node_groups worldless_scene) + 3)%nat.
Proof.
  apply (generate_without_world some_props worldless_scene 0%nat
           (mkCamera "Camera" "PERSP")).
  - reflexivity.
  - exists (camera_object "PERSP"). split; reflexivity.
  - reflexivity.
  - intros obj H. simpl in H. discriminate.
  - intros obj H. simpl in H. discriminate.
  - reflexivity.
  - reflexivity.
Defined.

(** ** Math nodes *)

Lemma node_set_last (f : Node -> Node) (tn : string) (ns : list Node) (n : Node)
    (ls : list Link) (iface : list InterfaceSocket) :
  node_set (List.length ns) f (mkNodeTree tn (ns ++ [n]) ls iface)
  = (Returns tt, mkNodeTree tn (ns ++ [f n]) ls iface).
Proof.
  unfold node_set, modify, set_nodes. cbn [nodes tree_name links interface].
  rewrite update_app_last. reflexivity.
Qed.

Lemma set_input_default_last (k : key) (v : R) (i : nat) (tn : string) (ns : list Node)
    (n : Node) (ls : list Link) (iface : list InterfaceSocket) :
  find_socket k (inputs n) = Some i ->
  set_input_default (List.length ns) k v (mkNodeTree tn (ns ++ [n]) ls iface)
  = (Returns tt,
     mkNodeTree tn
       (ns ++ [set_inputs (update i (set_default_value v) (inputs n)) n]) ls iface).
Proof.
  intros Hk. unfold set_input_default, node_input, get_node, bind.
  cbn [nodes]. rewrite nth_error_app_last. cbn [from_option ret]. rewrite Hk.
  cbn [from_option ret snd]. rewrite node_set_last. reflexivity.
Qed.

Lemma node_set_operation_last (op tn : string) (ns : list Node) (n : Node)
    (ls : list Link) (iface : list InterfaceSocket) :
  mem op node_math_operations = true ->
  node_set_operation (List.length ns) op (mkNodeTree tn (ns ++ [n]) ls iface)
  = (Returns tt, mkNodeTree tn (ns ++ [set_operation op n]) ls iface).
Proof.
  intros Hop. unfold node_set_operation. rewrite Hop. apply node_set_last.
Qed.

(** X26: [make_math_node] with an operation of the host does not raise:
    it appends one math node to the tree and returns it; the node has
    the operation and the location asked for, [default_1] and
    [default_2] on its first two operands, the host's default on the
    third, and nothing else in the tree changes.  With any other
    operation name the assignment raises [TypeError], and the node that
    was just added stays in the tree as the host made it. *)
Theorem make_math_node_effect (function : string) (x y : Z) (default_1 default_2 : R)
    (t : NodeTree) :
  (mem function node_math_operations = true ->
   exists n,
     make_math_node function x y default_1 default_2 t
     = (Returns (List.length (nodes t)), set_nodes (nodes t ++ [n]) t) /\
     bl_idname n = "ShaderNodeMath" /\
     operation n = function /\
     location n = (x, y) /\
     node_tree n = None /\
     map default_value (inputs n) = [default_1; default_2; (1 / 2)%R] /\
     map hide (inputs n) = [false; false; false] /\
     List.length (outputs n) = 1%nat) /\
  (mem function node_math_operations = false ->
   exists n,
     make_math_node function x y default_1 default_2 t
     = (Raises TypeError, set_nodes (nodes t ++ [n]) t) /\
     bl_idname n = "ShaderNodeMath" /\
     operation n = "ADD" /\
     location n = (0, 0)%Z /\
     map default_value (inputs n) = [(1 / 2)%R; (1 / 2)%R; (1 / 2)%R]).
Proof.
  destruct t as [tn ns ls iface]. unfold make_math_node.
  rewrite (bind_run (nodes_new "ShaderNodeMath") _ _
             (mkNodeTree tn (ns ++ [mkNode "ShaderNodeMath" (0, 0)%Z "ADD" None
                  [float_socket "Value" (1 / 2); float_socket "Value" (1 / 2);
                   float_socket "Value" (1 / 2)]
                  [float_socket "Value" 0]]) ls iface) (List.length ns))
    by reflexivity.
  cbn [nodes]. split; intros Hop.
  - rewrite (bind_run _ _ _ _ _ (node_set_operation_last _ _ _ _ _ _ Hop)).
    rewrite (bind_run _ _ _ _ _ (node_set_last _ _ _ _ _ _)).
    erewrite bind_run by (apply (set_input_default_last (Index 0) _ 0%nat); reflexivity).
    erewrite bind_run by (apply (set_input_default_last (Index 1) _ 1%nat); reflexivity).
    eexists. split; [reflexivity |]. cbn -[Rdiv]. repeat split.
  - unfold bind at 1, node_set_operation. rewrite Hop.
    eexists. split; [reflexivity |]. cbn -[Rdiv]. repeat split.
Qed.

(** ** Instances *)

Lemma star_heights_witness :
  exists vs s',
    star_positions (mkProps 7 (3 # 1000) true 1 true true) fresh_scene
    = (Returns vs, s') /\
    Forall (fun p => (0 <= height_of p)%R) vs.
Proof.
  destruct (star_heights (mkProps 7 (3 # 1000) true 1 true true) fresh_scene)
    as (vs & s' & Hrun & _ & Hhemi).
  exists vs, s'. split; [exact Hrun | apply Hhemi; reflexivity].
Defined.

Lemma random_intensity_range_witness :
  exists v,
    group_value (built "Random Intensity" random_intensity_nodes) (random_input 1)
      "Intensity" = Some v /\
    (0 < v)%R /\ (v < 1 <-> 3.56 / 9100 < 1)%R /\ (v = 1 <-> 1 = 3.56 / 9100)%R.
Proof.
  apply (proj2 (random_intensity_range "Random Intensity" 1)). lra.
Defined.

Lemma star_color_temperature_range_witness :
  (3000 <= 1 / 2 * 17000 + 3000 < 20000)%R.
Proof.
  apply (proj1 (proj2 (star_color_temperature_range "Random Star Color" (1 / 2)))).
  lra.
Defined.

Lemma make_group_inputs_declares_witness :
  make_group_inputs 0 0 ["Float"] (new_tree "Random Intensity")
  = (Raises (Exception "Invalid number of arguments!"), new_tree "Random Intensity") /\
  exists t' n,
    make_group_inputs 0 0 ["Float"; "Random"] (new_tree "Random Intensity")
    = (Returns (List.length (nodes (new_tree "Random Intensity"))), t') /\
    tree_name t' = tree_name (new_tree "Random Intensity") /\
    links t' = links (new_tree "Random Intensity") /\
    interface t'
    = interface (new_tree "Random Intensity")
      ++ declared_sockets "INPUT" ["Float"; "Random"] /\
    List.length (nodes t') = S (List.length (nodes (new_tree "Random Intensity"))) /\
    nth_error (nodes t') (List.length (nodes (new_tree "Random Intensity"))) = Some n /\
    bl_idname n = "NodeGroupInput" /\
    location n = (0, 0)%Z /\
    inputs n = [] /\
    outputs n = interface_sockets "INPUT" (interface t').
Proof.
  split.
  - apply (proj1 (make_group_inputs_declares 0 0 ["Float"]
                    (new_tree "Random Intensity"))).
    reflexivity.
  - apply (proj2 (make_group_inputs_declares 0 0 ["Float"; "Random"]
                    (new_tree "Random Intensity"))); reflexivity.
Defined.

Lemma make_group_outputs_declares_witness :
  make_group_outputs 1200 0 ["Float"] (new_tree "Random Intensity")
  = (Raises (Exception "Invalid number of arguments!"), new_tree "Random Intensity") /\
  exists t' n,
    make_group_outputs 1200 0 ["Float"; "Intensity"] (new_tree "Random Intensity")
    = (Returns (List.length (nodes (new_tree "Random Intensity"))), t') /\
    tree_name t' = tree_name (new_tree "Random Intensity") /\
    links t' = links (new_tree "Random Intensity") /\
    interface t'
    = interface (new_tree "Random Intensity")
      ++ declared_sockets "OUTPUT" ["Float"; "Intensity"] /\
    List.length (nodes t') = S (List.length (nodes (new_tree "Random Intensity"))) /\
    nth_error (nodes t') (List.length (nodes (new_tree "Random Intensity"))) = Some n /\
    bl_idname n = "NodeGroupOutput" /\
    location n = (1200, 0)%Z /\
    outputs n = [] /\
    inputs n = interface_sockets "OUTPUT" (interface t').
Proof.
  split.
  - apply (proj1 (make_group_outputs_declares 1200 0 ["Float"]
                    (new_tree "Random Intensity"))).
    reflexivity.
  - apply (proj2 (make_group_outputs_declares 1200 0 ["Float"; "Intensity"]
                    (new_tree "Random Intensity"))); reflexivity.
Defined.

Lemma make_math_node_effect_witness :
  (exists n,
     make_math_node "MULTIPLY" 200 0 (1 / 2) 3 (new_tree "Random Intensity")
     = (Returns (List.length (nodes (new_tree "Random Intensity"))),
        set_nodes (nodes (new_tree "Random Intensity") ++ [n])
          (new_tree "Random Intensity")) /\
     bl_idname n = "ShaderNodeMath" /\
     operation n = "MULTIPLY" /\
     location n = (200, 0)%Z /\
     node_tree n = None /\
     map default_value (inputs n) = [(1 / 2)%R; 3%R; (1 / 2)%R] /\
     map hide (inputs n) = [false; false; false] /\
     List.length (outputs n) = 1%nat) /\
  (exists n,
     make_math_node "TIMES" 200 0 (1 / 2) 3 (new_tree "Random Intensity")
     = (Raises TypeError,
        set_nodes (nodes (new_tree "Random Intensity") ++ [n])
          (new_tree "Random Intensity")) /\
     bl_idname n = "ShaderNodeMath" /\
     operation n = "ADD" /\
     location n = (0, 0)%Z /\
     map default_value (inputs n) = [(1 / 2)%R; (1 / 2)%R; (1 / 2)%R]).
Proof.
  split.
  - apply (proj1 (make_math_node_effect "MULTIPLY" 200 0 (1 / 2) 3
                    (new_tree "Random Intensity"))).
    reflexivity.
  - apply (proj2 (make_math_node_effect "TIMES" 200 0 (1 / 2) 3
                    (new_tree "Random Intensity"))).
    reflexivity.
Defined.

(** ** Stars and meshes that stay *)

Section Stability.
Context {gen : PRNG}.

Lemma nth_error_stars (hemi : bool) (g : rng_state) (n i : nat) (p : vec3) :
  nth_error (map (star_at hemi g) (seq 0 n)) i = Some p -> p = star_at hemi g i.
Proof.
  intros H. rewrite nth_error_map in H.
  destruct (nth_error (seq 0 n) i) as [j |] eqn:Ej; [| discriminate].
  apply nth_error_seq_some in Ej. simpl in Ej. subst j. inversion H. reflexivity.
Qed.

(** X27: star [i] depends on the seed and on [i] only.  Two runs with
    the same seed give the same star at every index both reach, so that
    a change of density adds or removes stars at the end of the list and
    moves none; and the hemisphere option does not draw other stars, it
    mirrors the ones below the horizon: the star has the same [x] and
    [y], and the absolute value of [z]. *)
Theorem stars_stable_under_density (props1 props2 : Props) (s1 s2 : Session gen) :
  random_seed props1 = random_seed props2 ->
  exists vs1 vs2 s1' s2',
    star_positions props1 s1 = (Returns vs1, s1') /\
    star_positions props2 s2 = (Returns vs2, s2') /\
    forall i p q,
      nth_error vs1 i = Some p -> nth_error vs2 i = Some q ->
      fst p = fst q /\
      (hemisphere props1 = hemisphere props2 -> p = q) /\
      (hemisphere props1 = true -> hemisphere props2 = false ->
       height_of p = Rabs (height_of q)).
Proof.
  intros Hseed. rewrite !star_positions_stream. rewrite Hseed.
  eexists. eexists. eexists. eexists.
  split; [reflexivity |]. split; [reflexivity |].
  intros i p q Hp Hq. apply nth_error_stars in Hp. apply nth_error_stars in Hq.
  subst p q. unfold star_at, height_of.
  destruct (spherical_to_cartesian_coordinates 1 _ _) as [[x y] z].
  cbn [fst snd]. split; [reflexivity |]. split.
  - intros ->. reflexivity.
  - intros -> ->. reflexivity.
Qed.
End Stability.

Lemma stars_stable_under_density_witness :
  exists vs1 vs2 s1' s2',
    star_positions some_props fresh_scene = (Returns vs1, s1') /\
    star_positions dense_props fresh_scene = (Returns vs2, s2') /\
    forall i p q,
      nth_error vs1 i = Some p -> nth_error vs2 i = Some q ->
      fst p = fst q /\
      (hemisphere some_props = hemisphere dense_props -> p = q) /\
      (hemisphere some_props = true -> hemisphere dense_props = false ->
       height_of p = Rabs (height_of q)).
Proof.
  apply (stars_stable_under_density some_props dense_props fresh_scene fresh_scene).
  reflexivity.
Defined.

Section OtherMeshes.
Context {gen : PRNG}.

(** X28: a successful call on a scene where the two objects can be
    reused changes no mesh but ["Starscape_mesh"] and
    ["Star_Template_mesh"]: every other mesh keeps its place and its
    geometry. *)
Theorem generate_keeps_other_meshes (props : Props) (s s' : Session gen) :
  reuse_ready "Starscape" s ->
  reuse_ready "Star_Template" s ->
  generate_starscape props s = (Returns true, s') ->
  forall m me,
    nth_error (meshes s) m = Some me ->
    mesh_name me <> "Starscape_mesh" ->
    mesh_name me <> "Star_Template_mesh" ->
    nth_error (meshes s') m = Some me.
Proof.
  intros Hstars Htemplate H m me Hme Hn1 Hn2. apply generate_steps in H.
  destruct H as (camera & vs & s1 & stars_obj & s2 & s3 & template_obj & s4 & s5
                 & s6 & shader & s7 & s8 & s9 & Hcam & P1 & P2 & P3 & P4 & P5 & P6
                 & P7 & P8 & P9 & P10 & P11).
  rewrite star_positions_stream in P1. inversion P1; subst vs s1. clear P1.
  match type of P2 with
  | create_or_reuse_mesh_object _ ?s0 = _ => set (s1 := s0) in *
  end.
  assert (Hstars1 : reuse_ready "Starscape" s1)
    by (apply (reuse_ready_ext _ s); [reflexivity | reflexivity | exact Hstars]).
  assert (Htemplate1 : reuse_ready "Star_Template" s1)
    by (apply (reuse_ready_ext _ s); [reflexivity | reflexivity | exact Htemplate]).
  assert (Htemplate3 : reuse_ready "Star_Template" s3)
    by (exact (star_stage_keeps_template _ _ _ _ _ _ P2 P3 Htemplate1)).
  assert (M' : meshes s' = meshes s5).
  { apply (after_geometry meshes props stars_obj template_obj camera shader
             s5 s6 s7 s8 s9 s'); try assumption.
    - split; reflexivity.
    - apply field_blind; reflexivity. }
  rewrite M'.
  apply (fill_keeps_other_meshes "Star_Template" template_vertices template_edges
           template_faces s3 s4 s5 template_obj Htemplate3 P4 P5 m me); [| exact Hn2].
  apply (fill_keeps_other_meshes "Starscape" _ [] [] s1 s2 s3 stars_obj Hstars1 P2 P3
           m me); [exact Hme | exact Hn1].
Qed.
End OtherMeshes.

Lemma cube_scene_generates :
  generate_starscape some_props cube_scene
  = (Returns true, after some_props cube_scene).
Proof.
  apply (run_returns (generate_starscape some_props) cube_scene true).
  reflexivity.
Qed.

Lemma generate_keeps_other_meshes_witness :
  nth_error (meshes (after some_props cube_scene)) 0
  = Some (mkMesh "Cube" [(1, 1, 1)%R] [] []).
Proof.
  apply (generate_keeps_other_meshes some_props cube_scene (after some_props cube_scene)).
  - intros obj H. simpl in H. discriminate.
  - intros obj H. simpl in H. discriminate.
  - exact cube_scene_generates.
  - reflexivity.
  - discriminate.
  - discriminate.
Defined.
